(** * WebGL visual regression: screenshot comparator and error aggregator

    A shallow embedding of
    - [compareScreenshots] of [src/screenshot/compare.ts] (module
      [Compare]),
    - the class [ErrorAggregator] of [src/debugger/error-aggregator.ts]
      (module [Aggregator]), with the types of [src/debugger/types.ts] and
      the notification sink [sendWebGLNotification] of [src/server.ts],
    - [trackWebGLError] and [trackShaderError] of
      [src/debugger/error-tracker.ts] and the console listener of
      [handleWebGLInjectDebugging] that feeds the aggregator (module
      [Tracker]),
    - [generateTimestamp] and [sanitizeFilename] of [src/utils/file.ts]
      (module [FileUtils]),
    and the properties of these engines.

    Conventions.
    - JavaScript strings are [string]s of 8-bit code units: the texts with
      every code unit below 256.  The character classes of the regular
      expressions are taken on that range.
    - Occurrence counts and pixel counts are naturals ([N]); clock readings
      ([Date.now()]) are integers ([Z]).
    - A percentage is an exact rational kept in lowest terms, extended with
      the IEEE values that a division by zero produces ([NaN], infinities).
      The code rounds the quotient and the product to binary64; the
      properties below use the order of percentages and the values 0 and
      100, not the last digit of a percentage.
    - An asynchronous method is run to completion: every [await] of the
      embedded code resolves before the next event of the host is taken.
      The re-entrancy flag [isProcessing] is part of the state, so that a
      method can still be entered while a flush is suspended. *)

From Stdlib Require Import Bool List NArith ZArith QArith Qreduction.
From Stdlib Require Import Ascii String DecimalString Lia.
Import ListNotations.

Set Implicit Arguments.

(* ================================================================== *)
(** ** JavaScript numbers and buffers *)

Module JS.

(** The values a percentage computation can take. *)
Inductive number : Type :=
| Fin (q : Q)
| PInf
| NInf
| NaN.

(** [a <= b] on numbers: every comparison with [NaN] is false. *)
Definition le (a b : number) : bool :=
  match a, b with
  | NaN, _ | _, NaN => false
  | NInf, _ => true
  | _, PInf => true
  | Fin x, Fin y => Qle_bool x y
  | Fin _, NInf => false
  | PInf, _ => false
  end.

(** [(a / b) * 100] for two non-negative integers, as an exact rational;
    the code rounds the quotient and the product to binary64. *)
Definition percent (a b : N) : number :=
  match b with
  | N0 => if (a =? 0)%N then NaN else PInf
  | Npos p => Fin (Qred ((Z.of_N a # p) * 100))
  end.

(** A threshold that is a number and is not negative. *)
Definition nonneg (t : number) : Prop :=
  match t with
  | Fin q => (0 <= q)%Q
  | PInf => True
  | NInf | NaN => False
  end.

(** Node [Buffer] / [Uint8Array]: a fixed-length sequence of bytes. *)
Definition Buffer := list N.

(** [buf[i]]: [None] is [undefined], read out of range. *)
Definition get (buf : Buffer) (i : N) : option N := nth_error buf (N.to_nat i).

(** [buf[i] = v]: a write out of range is ignored. *)
Fixpoint set_nat (i : nat) (v : N) (buf : Buffer) : Buffer :=
  match buf, i with
  | [], _ => []
  | _ :: tl, O => v :: tl
  | x :: tl, S j => x :: set_nat j v tl
  end.

Definition set (i : N) (v : N) (buf : Buffer) : Buffer := set_nat (N.to_nat i) v buf.

(** [Buffer.alloc(n)]: [n] zero bytes. *)
Definition alloc (n : nat) : Buffer := repeat 0%N n.

(** Storing a value read from another buffer: [undefined] is stored as 0. *)
Definition to_byte (v : option N) : N :=
  match v with Some x => x | None => 0%N end.

(** [for (let c = 0; c < n; c++)]: the values taken by [c]. *)
Definition range (n : N) : list N := map N.of_nat (seq 0 (N.to_nat n)).

(** [for (let i = 0; i < len; i += step)]: the values taken by [i]
    ([step] is positive). *)
Definition strides (len step : N) : list N :=
  map (fun k => (N.of_nat k * step)%N)
      (seq 0 (N.to_nat ((len + step - 1) / step)%N)).

End JS.

(* ================================================================== *)
(** ** The screenshot comparator ([src/screenshot/compare.ts]) *)

Module Compare.
Import JS.

Local Open Scope N_scope.

(** [sharp(...).metadata()]: the fields the comparator reads.  [channels]
    may be absent. *)
Record Metadata : Type := {
  width : N;
  height : N;
  channels : option N
}.

(** What [sharp(path)] gives for a file: each of [metadata()] and
    [raw().toBuffer()] either resolves or rejects ([None]). *)
Record Sharp : Type := {
  metadata : option Metadata;
  raw : option Buffer
}.

(** The image handed to [sharp(diffBuffer, {raw: ...}).png()]. *)
Record RawImage : Type := {
  raw_width : N;
  raw_height : N;
  raw_channels : N;
  raw_data : Buffer
}.

(** [ComparisonResult] of [src/screenshot/types.ts]; [is_match] is the
    field [match]. *)
Record ComparisonResult : Type := {
  is_match : bool;
  difference : number;
  diffImagePath : option string;
  diffImageData : option RawImage
}.

(** [baselineMeta.channels || 3] *)
Definition channels_or_3 (m : Metadata) : N :=
  match channels m with
  | Some c => if c =? 0 then 3 else c
  | None => 3
  end.

(** [Math.abs(a - b) > 5]; with an [undefined] operand the difference is
    [NaN] and the test is false. *)
Definition channelDiff (a b : option N) : bool :=
  match a, b with
  | Some x, Some y => (5 <? Z.abs (Z.of_N x - Z.of_N y))%Z
  | _, _ => false
  end.

(** The inner loop over the channels of the pixel at offset [i]. *)
Definition pixelDiff (chans : N) (baselineBuffer currentBuffer : Buffer) (i : N) : bool :=
  existsb (fun c => channelDiff (get baselineBuffer (i + c)) (get currentBuffer (i + c)))
          (range chans).

(** One iteration of the outer loop: the state is [(diffPixels, diffBuffer)]. *)
Definition pixelStep (chans : N) (baselineBuffer currentBuffer : Buffer)
    (st : N * Buffer) (i : N) : N * Buffer :=
  let '(diffPixels, diffBuffer) := st in
  if pixelDiff chans baselineBuffer currentBuffer i then
    let d1 := set i 255 diffBuffer in
    let d2 := set (i + 1) 0 d1 in
    let d3 := set (i + 2) 0 d2 in
    let d4 := if chans =? 4 then set (i + 3) 255 d3 else d3 in
    (diffPixels + 1, d4)
  else
    (diffPixels,
     fold_left (fun buf c => set (i + c) (to_byte (get currentBuffer (i + c))) buf)
               (range chans) diffBuffer).

(** The outer loop, from [diffPixels = 0] and a zeroed [diffBuffer]. *)
Definition pixelLoop (chans : N) (baselineBuffer currentBuffer : Buffer) : N * Buffer :=
  fold_left (pixelStep chans baselineBuffer currentBuffer)
            (strides (N.of_nat (List.length baselineBuffer)) chans)
            (0, alloc (List.length baselineBuffer)).

(** What a call leaves behind besides its result: the files written. *)
Definition Writes := list (string * RawImage).

Section WithEnvironment.

(** The image source, the diff directory [DIFF_DIR] and the value that
    [generateTimestamp()] returns during the call. *)
Variable sharp : string -> Sharp.
Variable DIFF_DIR : string.
Variable timestamp : string.

(** [compareScreenshots(baselinePath, currentPath, threshold)].
    [None] is a rejected promise (a decode failure, rethrown). *)
Definition compareScreenshots (baselinePath currentPath : string) (threshold : number)
    : option (ComparisonResult * Writes) :=
  let baseline := sharp baselinePath in
  let current := sharp currentPath in
  match metadata baseline with
  | None => None
  | Some baselineMeta =>
  match metadata current with
  | None => None
  | Some currentMeta =>
    if negb (width baselineMeta =? width currentMeta)
       || negb (height baselineMeta =? height currentMeta)
    then
      Some ({| is_match := false;
               difference := Fin 100;
               diffImagePath := None;
               diffImageData := None |}, [])
    else
      match raw baseline with
      | None => None
      | Some baselineBuffer =>
      match raw current with
      | None => None
      | Some currentBuffer =>
        let totalPixels := width baselineMeta * height baselineMeta in
        let chans := channels_or_3 baselineMeta in
        let '(diffPixels, diffBuffer) := pixelLoop chans baselineBuffer currentBuffer in
        let differencePercentage := percent diffPixels totalPixels in
        let matched := le differencePercentage threshold in
        if negb matched then
          let diffFilename := ("diff_" ++ timestamp ++ ".png")%string in
          let path := (DIFF_DIR ++ "/" ++ diffFilename)%string in
          let diffImage := {| raw_width := width baselineMeta;
                              raw_height := height baselineMeta;
                              raw_channels := chans;
                              raw_data := diffBuffer |} in
          Some ({| is_match := matched;
                   difference := differencePercentage;
                   diffImagePath := Some path;
                   diffImageData := Some diffImage |},
                [(path, diffImage)])
        else
          Some ({| is_match := matched;
                   difference := differencePercentage;
                   diffImagePath := None;
                   diffImageData := None |}, [])
      end end
  end end.

End WithEnvironment.

End Compare.

(* ================================================================== *)
(** ** Strings: the operations of JavaScript that the aggregator uses *)

Module Text.

Local Open Scope string_scope.

(** The character [\n]. *)
Definition nl : string := String (ascii_of_nat 10) EmptyString.

Definition between (lo hi : nat) (c : ascii) : bool :=
  let n := nat_of_ascii c in (lo <=? n)%nat && (n <=? hi)%nat.

(** The class [[A-Z_]]. *)
Definition is_code_char (c : ascii) : bool :=
  between 65 90 c || Ascii.eqb c "_".

(** The class [\w], that is [[A-Za-z0-9_]]. *)
Definition is_word_char (c : ascii) : bool :=
  between 65 90 c || between 97 122 c || between 48 57 c || Ascii.eqb c "_".

(** The class [\s] on 8-bit text: tab, line feed, vertical tab, form feed,
    carriage return, space and the no-break space U+00A0.  The other
    members of the class are code units above 255. *)
Definition is_space (c : ascii) : bool :=
  between 9 13 c || Ascii.eqb c " " || (nat_of_ascii c =? 160)%nat.

(** The characters that [.] does not match: line feed and carriage return
    (the line and paragraph separators are code units above 255). *)
Definition is_line_terminator (c : ascii) : bool :=
  (nat_of_ascii c =? 10)%nat || (nat_of_ascii c =? 13)%nat.

(** The longest prefix of [s] made of characters of the class [p], and
    what follows it: a greedy [p*]. *)
Fixpoint span (p : ascii -> bool) (s : string) : string * string :=
  match s with
  | EmptyString => (EmptyString, EmptyString)
  | String c s' =>
      if p c then let '(a, b) := span p s' in (String c a, b)
      else (EmptyString, s)
  end.

(** [s.startsWith(pre)], returning what follows the prefix. *)
Fixpoint strip_prefix (pre s : string) : option string :=
  match pre, s with
  | EmptyString, _ => Some s
  | String a pre', String b s' => if Ascii.eqb a b then strip_prefix pre' s' else None
  | String _ _, EmptyString => None
  end.

(** [s.includes(sub)] *)
Fixpoint includes (sub s : string) : bool :=
  match strip_prefix sub s with
  | Some _ => true
  | None => match s with
            | EmptyString => false
            | String _ s' => includes sub s'
            end
  end.

(** [s.split(sep)] for a one-character separator: never an empty list. *)
Fixpoint split (sep : ascii) (s : string) : list string :=
  match s with
  | EmptyString => [EmptyString]
  | String c s' =>
      if Ascii.eqb c sep then EmptyString :: split sep s'
      else match split sep s' with
           | [] => [String c EmptyString]
           | hd :: tl => String c hd :: tl
           end
  end.

(** [parts.join(sep)] *)
Fixpoint join (sep : string) (parts : list string) : string :=
  match parts with
  | [] => EmptyString
  | [x] => x
  | x :: tl => x ++ sep ++ join sep tl
  end.

(** A value that may be [undefined]. *)
Definition value := option string.

(** [`${v}`]: how a template literal prints a value. *)
Definition show (v : value) : string :=
  match v with Some s => s | None => "undefined" end.

(** How [Array.prototype.join] prints an element. *)
Definition join_item (v : value) : string :=
  match v with Some s => s | None => EmptyString end.

Definition value_eqb (a b : value) : bool :=
  match a, b with
  | Some x, Some y => String.eqb x y
  | None, None => true
  | _, _ => false
  end.

(** [Array.from(new Set(xs))]: the distinct elements of [xs], each at the
    place of its first occurrence. *)
Fixpoint unique_from (seen xs : list value) : list value :=
  match xs with
  | [] => []
  | x :: tl =>
      if existsb (value_eqb x) seen then unique_from seen tl
      else x :: unique_from (x :: seen) tl
  end.

Definition unique (xs : list value) : list value := unique_from [] xs.

(** [`${n}`] for a count. *)
Definition show_N (n : N) : string := NilEmpty.string_of_uint (N.to_uint n).

(** [`${z}`] for an integer. *)
Definition show_Z (z : Z) : string := NilEmpty.string_of_int (Z.to_int z).

(** *** The two regular expressions of [extractErrorType] *)

(** [:\s*([A-Z_]+):\s*(\w+)] matched at the start of [s].  The classes
    that follow one another are disjoint, so each greedy quantifier keeps
    its longest run. *)
Definition match_code_operation (s : string) : option (string * string) :=
  match s with
  | String c s1 =>
      if Ascii.eqb c ":" then
        let '(_, s2) := span is_space s1 in
        let '(code, s3) := span is_code_char s2 in
        match code, s3 with
        | String _ _, String c' s4 =>
            if Ascii.eqb c' ":" then
              let '(_, s5) := span is_space s4 in
              let '(operation, _) := span is_word_char s5 in
              match operation with
              | String _ _ => Some (code, operation)
              | EmptyString => None
              end
            else None
        | _, _ => None
        end
      else None
  | EmptyString => None
  end.

(** [.*?:\s*([A-Z_]+):\s*(\w+)] matched at the start of [s]: the lazy
    [.*?] takes the fewest characters after which the rest matches. *)
Fixpoint match_lazy_tail (s : string) : option (string * string) :=
  match match_code_operation s with
  | Some r => Some r
  | None =>
      match s with
      | EmptyString => None
      | String c s' => if is_line_terminator c then None else match_lazy_tail s'
      end
  end.

(** [/WebGL.*?:\s*([A-Z_]+):\s*(\w+)/] matched at the start of [s]. *)
Definition match_webgl_at (s : string) : option (string * string) :=
  match strip_prefix "WebGL" s with
  | Some s' => match_lazy_tail s'
  | None => None
  end.

(** [message.match(/WebGL.*?:\s*([A-Z_]+):\s*(\w+)/)]: the groups 1 and 2
    of the match that starts leftmost. *)
Fixpoint match_webgl (s : string) : option (string * string) :=
  match match_webgl_at s with
  | Some r => Some r
  | None =>
      match s with
      | EmptyString => None
      | String _ s' => match_webgl s'
      end
  end.

(** [message.match(/([A-Z_]+)/)]: group 1 of the leftmost match. *)
Fixpoint match_caps (s : string) : option string :=
  match s with
  | EmptyString => None
  | String c s' =>
      if is_code_char c then Some (fst (span is_code_char s))
      else match_caps s'
  end.

End Text.

(* ================================================================== *)
(** ** The error aggregator ([src/debugger/error-aggregator.ts]) *)

Module Aggregator.
Import Text.

Local Open Scope string_scope.

(** *** Data ([src/debugger/types.ts]) *)

Inductive ShaderErrorType : Type := shader_compilation | program_linking.

Inductive ShaderType : Type := vertex | fragment.

Definition ShaderErrorType_name (t : ShaderErrorType) : string :=
  match t with
  | shader_compilation => "shader_compilation"
  | program_linking => "program_linking"
  end.

Definition ShaderType_name (t : ShaderType) : string :=
  match t with vertex => "vertex" | fragment => "fragment" end.

(** [WebGLError]; [we_count] is the field [count], set to 1 by the tracker
    when the error is first seen and incremented on every repetition. *)
Record WebGLError : Type := {
  we_id : string;
  we_message : string;
  we_timestamp : Z;
  we_count : N;
  we_url : option string;
  we_functionName : option string
}.

(** [ShaderCompilationError]; it has no field [count]. *)
Record ShaderCompilationError : Type := {
  se_id : string;
  se_type : ShaderErrorType;
  se_shaderType : option ShaderType;
  se_source : option string;
  se_errorLog : string;
  se_lineNumber : option N;
  se_timestamp : Z;
  se_url : option string
}.

(** [WebGLError | ShaderCompilationError] *)
Inductive ErrorEvent : Type :=
| Runtime (e : WebGLError)
| Shader (e : ShaderCompilationError).

(** Property reads on the union; [None] is [undefined]. *)
Definition message_of (e : ErrorEvent) : value :=
  match e with Runtime r => Some (we_message r) | Shader _ => None end.

Definition errorLog_of (e : ErrorEvent) : value :=
  match e with Shader s => Some (se_errorLog s) | Runtime _ => None end.

Definition shaderType_of (e : ErrorEvent) : value :=
  match e with
  | Shader s => option_map ShaderType_name (se_shaderType s)
  | Runtime _ => None
  end.

Inductive Severity : Type := sev_error | sev_warning | sev_info.

Inductive WebGLNotificationType : Type :=
| webgl_error_shader_compilation
| webgl_error_program_linking
| webgl_error_general.

(** The field [error] of a notification: either the object literal
    [{id, message, timestamp, count}] or [{...firstError, errorLog}]. *)
Inductive NotificationError : Type :=
| GeneralError (id : string) (message : value) (timestamp : Z) (count : N)
| ShaderSummary (firstError : ErrorEvent) (errorLog : value).

Record WebGLNotification : Type := {
  n_type : WebGLNotificationType;
  n_timestamp : Z;
  n_error : NotificationError;
  n_severity : Severity
}.

(** [ErrorBatch].  The members are the objects of the tracker, which
    updates their [count] and [timestamp] in place; the aggregator reads
    the count of an event once, when [addError] receives it, and later only
    its message or its log. *)
Record ErrorBatch : Type := {
  errors : list ErrorEvent;
  firstSeen : Z;
  lastSeen : Z;
  totalCount : N
}.

(** [Map<string, ErrorBatch>]: the entries in insertion order, at most one
    per key. *)
Definition BatchMap := list (string * ErrorBatch).

Fixpoint map_get (k : string) (m : BatchMap) : option ErrorBatch :=
  match m with
  | [] => None
  | (k', v) :: tl => if String.eqb k' k then Some v else map_get k tl
  end.

(** [m.set(k, v)]: an existing key keeps its place, a new key goes last. *)
Fixpoint map_set (k : string) (v : ErrorBatch) (m : BatchMap) : BatchMap :=
  match m with
  | [] => [(k, v)]
  | (k', v') :: tl =>
      if String.eqb k' k then (k', v) :: tl else (k', v') :: map_set k v tl
  end.

Definition map_size (m : BatchMap) : N := N.of_nat (List.length m).

(** [AggregatorConfig] *)
Record AggregatorConfig : Type := {
  cfg_batchInterval : option N;
  cfg_maxBatchSize : option N;
  cfg_collectionDuration : option N;
  cfg_maxErrorsBeforeStop : option N
}.

(** The fields of [ErrorAggregator].  A timer field is [true] when it
    holds the handle of a pending timer and [false] when it is
    [undefined]. *)
Record ErrorAggregator : Type := {
  batchInterval : N;
  maxBatchSize : N;
  collectionDuration : N;
  maxErrorsBeforeStop : N;
  errorBatch : BatchMap;
  batchTimer : bool;
  collectionTimer : bool;
  isProcessing : bool;
  isActive : bool;
  totalErrorCount : N;
  collectionStartTime : option Z
}.

(** [v ?? d] *)
Definition nullish (v : option N) (d : N) : N :=
  match v with Some x => x | None => d end.

(** [constructor(config = {})] *)
Definition createErrorAggregator (config : AggregatorConfig) : ErrorAggregator :=
  {| batchInterval := nullish (cfg_batchInterval config) 1000;
     maxBatchSize := nullish (cfg_maxBatchSize config) 50;
     collectionDuration := nullish (cfg_collectionDuration config) 10000;
     maxErrorsBeforeStop := nullish (cfg_maxErrorsBeforeStop config) 1000;
     errorBatch := [];
     batchTimer := false;
     collectionTimer := false;
     isProcessing := false;
     isActive := false;
     totalErrorCount := 0;
     collectionStartTime := None |}.

Definition default_config : AggregatorConfig :=
  {| cfg_batchInterval := None; cfg_maxBatchSize := None;
     cfg_collectionDuration := None; cfg_maxErrorsBeforeStop := None |}.

(** Field assignments. *)
Definition set_errorBatch (v : BatchMap) (a : ErrorAggregator) : ErrorAggregator :=
  {| batchInterval := batchInterval a; maxBatchSize := maxBatchSize a;
     collectionDuration := collectionDuration a;
     maxErrorsBeforeStop := maxErrorsBeforeStop a;
     errorBatch := v; batchTimer := batchTimer a;
     collectionTimer := collectionTimer a; isProcessing := isProcessing a;
     isActive := isActive a; totalErrorCount := totalErrorCount a;
     collectionStartTime := collectionStartTime a |}.

Definition set_batchTimer (v : bool) (a : ErrorAggregator) : ErrorAggregator :=
  {| batchInterval := batchInterval a; maxBatchSize := maxBatchSize a;
     collectionDuration := collectionDuration a;
     maxErrorsBeforeStop := maxErrorsBeforeStop a;
     errorBatch := errorBatch a; batchTimer := v;
     collectionTimer := collectionTimer a; isProcessing := isProcessing a;
     isActive := isActive a; totalErrorCount := totalErrorCount a;
     collectionStartTime := collectionStartTime a |}.

Definition set_collectionTimer (v : bool) (a : ErrorAggregator) : ErrorAggregator :=
  {| batchInterval := batchInterval a; maxBatchSize := maxBatchSize a;
     collectionDuration := collectionDuration a;
     maxErrorsBeforeStop := maxErrorsBeforeStop a;
     errorBatch := errorBatch a; batchTimer := batchTimer a;
     collectionTimer := v; isProcessing := isProcessing a;
     isActive := isActive a; totalErrorCount := totalErrorCount a;
     collectionStartTime := collectionStartTime a |}.

Definition set_isProcessing (v : bool) (a : ErrorAggregator) : ErrorAggregator :=
  {| batchInterval := batchInterval a; maxBatchSize := maxBatchSize a;
     collectionDuration := collectionDuration a;
     maxErrorsBeforeStop := maxErrorsBeforeStop a;
     errorBatch := errorBatch a; batchTimer := batchTimer a;
     collectionTimer := collectionTimer a; isProcessing := v;
     isActive := isActive a; totalErrorCount := totalErrorCount a;
     collectionStartTime := collectionStartTime a |}.

Definition set_isActive (v : bool) (a : ErrorAggregator) : ErrorAggregator :=
  {| batchInterval := batchInterval a; maxBatchSize := maxBatchSize a;
     collectionDuration := collectionDuration a;
     maxErrorsBeforeStop := maxErrorsBeforeStop a;
     errorBatch := errorBatch a; batchTimer := batchTimer a;
     collectionTimer := collectionTimer a; isProcessing := isProcessing a;
     isActive := v; totalErrorCount := totalErrorCount a;
     collectionStartTime := collectionStartTime a |}.

Definition set_totalErrorCount (v : N) (a : ErrorAggregator) : ErrorAggregator :=
  {| batchInterval := batchInterval a; maxBatchSize := maxBatchSize a;
     collectionDuration := collectionDuration a;
     maxErrorsBeforeStop := maxErrorsBeforeStop a;
     errorBatch := errorBatch a; batchTimer := batchTimer a;
     collectionTimer := collectionTimer a; isProcessing := isProcessing a;
     isActive := isActive a; totalErrorCount := v;
     collectionStartTime := collectionStartTime a |}.

Definition set_collectionStartTime (v : option Z) (a : ErrorAggregator) : ErrorAggregator :=
  {| batchInterval := batchInterval a; maxBatchSize := maxBatchSize a;
     collectionDuration := collectionDuration a;
     maxErrorsBeforeStop := maxErrorsBeforeStop a;
     errorBatch := errorBatch a; batchTimer := batchTimer a;
     collectionTimer := collectionTimer a; isProcessing := isProcessing a;
     isActive := isActive a; totalErrorCount := totalErrorCount a;
     collectionStartTime := v |}.

(** *** The world an aggregator runs in, and its computations *)

(** [instance] is the aggregator; [clock] is what [Date.now()] reads;
    [console] holds the lines printed so far; [sent] holds every
    notification handed to [server.notification], with [true] when the
    transport accepted it; [transport] tells whether each of the next
    calls of [server.notification] succeeds (it succeeds once the list is
    used up). *)
Record World : Type := {
  instance : ErrorAggregator;
  clock : Z;
  console : list string;
  sent : list (WebGLNotification * bool);
  transport : list bool
}.

Definition with_instance (a : ErrorAggregator) (w : World) : World :=
  {| instance := a; clock := clock w; console := console w;
     sent := sent w; transport := transport w |}.

Definition with_clock (t : Z) (w : World) : World :=
  {| instance := instance w; clock := t; console := console w;
     sent := sent w; transport := transport w |}.

(** The outcome of a computation: a value, or a thrown exception (a
    rejected promise) with its text. *)
Inductive Outcome (A : Type) : Type :=
| Returned (a : A)
| Thrown (reason : string).

Arguments Thrown {A} reason.

Definition M (A : Type) : Type := World -> Outcome A * World.

Definition ret {A : Type} (a : A) : M A := fun w => (Returned a, w).

Definition bind {A B : Type} (m : M A) (k : A -> M B) : M B :=
  fun w =>
    match m w with
    | (Returned a, w') => k a w'
    | (Thrown r, w') => (Thrown r, w')
    end.

(** A computation without effect that returns or throws ([throw]). *)
Definition lift {A : Type} (o : Outcome A) : M A := fun w => (o, w).

(** [try { m } catch (error) { handler(error) }] *)
Definition try_catch {A : Type} (m : M A) (handler : string -> M A) : M A :=
  fun w =>
    match m w with
    | (Returned a, w') => (Returned a, w')
    | (Thrown r, w') => handler r w'
    end.

(** [try { m } finally { cleanup }] *)
Definition try_finally {A : Type} (m : M A) (cleanup : M unit) : M A :=
  fun w =>
    match m w with
    | (res, w') =>
        match cleanup w' with
        | (Returned _, w'') => (res, w'')
        | (Thrown r, w'') => (Thrown r, w'')
        end
    end.

Declare Scope agg_scope.
Delimit Scope agg_scope with agg.

Notation "x <- m ;; k" := (bind m (fun x => k))
  (at level 61, m at next level, right associativity) : agg_scope.
Notation "m ;; k" := (bind m (fun _ => k))
  (at level 61, right associativity) : agg_scope.

Local Open Scope agg_scope.

(** [this] *)
Definition this : M ErrorAggregator := fun w => (Returned (instance w), w).

(** An assignment to a field of [this]. *)
Definition assign (f : ErrorAggregator -> ErrorAggregator) : M unit :=
  fun w => (Returned tt, with_instance (f (instance w)) w).

(** [Date.now()], also the value of [new Date()]. *)
Definition Date_now : M Z := fun w => (Returned (clock w), w).

(** [console.log(line)] and [console.error(line)] *)
Definition console_log (line : string) : M unit :=
  fun w => (Returned tt,
            {| instance := instance w; clock := clock w;
               console := console w ++ [line];
               sent := sent w; transport := transport w |}).

(** [for (const x of xs) { await body(x) }] *)
Fixpoint for_each {A : Type} (xs : list A) (body : A -> M unit) : M unit :=
  match xs with
  | [] => ret tt
  | x :: tl => body x ;; for_each tl body
  end.

(** [server.notification({method, params: notification})]: the transport
    of the notification sink, which may fail. *)
Definition server_notification (notification : WebGLNotification) : M unit :=
  fun w =>
    let ok := match transport w with [] => true | b :: _ => b end in
    let w' := {| instance := instance w; clock := clock w; console := console w;
                 sent := sent w ++ [(notification, ok)];
                 transport := tl (transport w) |} in
    if ok then (Returned tt, w') else (Thrown "transport error", w').

(** [sendWebGLNotification] of [src/server.ts] *)
Definition sendWebGLNotification (notification : WebGLNotification) : M unit :=
  try_catch (server_notification notification)
            (fun error => console_log ("[MCP] Failed to send notification: " ++ error)).

(** *** Group signatures *)

(** [extractErrorType(message)] *)
Definition extractErrorType (message : string) : string :=
  match match_webgl message with
  | Some (code, operation) => code ++ ":" ++ operation
  | None =>
      match match_caps message with
      | Some simpleMatch => simpleMatch
      | None => "UNKNOWN"
      end
  end.

(** [getErrorKey(error)] *)
Definition getErrorKey (error : ErrorEvent) : string :=
  match error with
  | Shader s =>
      "shader:" ++ ShaderErrorType_name (se_type s) ++ ":"
        ++ match se_shaderType s with
           | Some t => ShaderType_name t
           | None => "program"
           end
  | Runtime webglError => "webgl:" ++ extractErrorType (we_message webglError)
  end.

(** ['count' in error ? error.count : 1] *)
Definition errorCount_of (error : ErrorEvent) : N :=
  match error with
  | Runtime r => we_count r
  | Shader _ => 1%N
  end.

(** *** Summaries and notifications *)

(** [createShaderErrorSummary(errors, errorType)]; reading
    [errors[0].shaderType] throws when [errors] is empty. *)
Definition createShaderErrorSummary (errs : list ErrorEvent) (errorType : string)
    : Outcome value :=
  match errs with
  | [] => Thrown "TypeError: cannot read properties of undefined (reading shaderType)"
  | first :: _ =>
      let count := N.of_nat (List.length errs) in
      let shaderType :=
        match shaderType_of first with Some t => t | None => "program" end in
      if (count =? 1)%N then Returned (errorLog_of first)
      else
        let uniqueErrors := unique (map errorLog_of errs) in
        let size := N.of_nat (List.length uniqueErrors) in
        let errorList := join nl (map join_item (firstn 3 uniqueErrors)) in
        Returned
          (Some (show_N count ++ " " ++ shaderType ++ " " ++ errorType
                   ++ " errors:" ++ nl ++ errorList
                   ++ (if (3 <? size)%N
                       then nl ++ "... and " ++ show_N (size - 3) ++ " more"
                       else "")))
  end.

(** [createWebGLErrorSummary(errorType, totalCount, uniqueMessages)] *)
Definition createWebGLErrorSummary (errorType : string) (total : N)
    (uniqueMessages : list value) : value :=
  let parts := split ":" errorType in
  let errorCode : value := nth_error parts 0 in
  let operation : value := nth_error parts 1 in
  if (total =? 1)%N then
    match uniqueMessages with
    | [] => None
    | m :: _ => m
    end
  else if value_eqb errorCode (Some "INVALID_OPERATION")
          && value_eqb operation (Some "useProgram") then
    Some ("WebGL: INVALID_OPERATION: useProgram: program not valid ("
            ++ show_N total ++ " occurrences)")
  else if value_eqb errorCode (Some "INVALID_OPERATION")
          && value_eqb operation (Some "drawElements") then
    Some ("WebGL: INVALID_OPERATION: drawElements: no valid shader program in use ("
            ++ show_N total ++ " occurrences)")
  else
    let size := N.of_nat (List.length uniqueMessages) in
    let messagePreview := join "; " (map join_item (firstn 2 uniqueMessages)) in
    Some (show errorCode ++ " in " ++ show operation ++ " ("
            ++ show_N total ++ " occurrences): " ++ messagePreview
            ++ (if (2 <? size)%N
                then " ... and " ++ show_N (size - 2) ++ " more variations"
                else "")).

(** [const [category, ...typeParts] = key.split(':')] *)
Definition key_category (key : string) : string :=
  match split ":" key with
  | category :: _ => category
  | [] => EmptyString
  end.

(** [typeParts.join(':')] *)
Definition key_errorType (key : string) : string :=
  join ":" (List.tl (split ":" key)).

(** The value of [notification] that [sendAggregatedNotification(key,
    batch)] builds when [new Date()] reads [now]; building it throws when
    [createShaderErrorSummary] does. *)
Definition aggregatedNotification (key : string) (batch : ErrorBatch) (now : Z)
    : Outcome WebGLNotification :=
  let category := key_category key in
  let errorType := key_errorType key in
  if String.eqb category "shader" then
    let shaderErrors := errors batch in
    match shaderErrors, createShaderErrorSummary shaderErrors errorType with
    | firstError :: _, Returned aggregatedMessage =>
        Returned
          {| n_type := if includes "compilation" errorType
                       then webgl_error_shader_compilation
                       else webgl_error_program_linking;
             n_timestamp := now;
             n_error := ShaderSummary firstError aggregatedMessage;
             n_severity := sev_error |}
    | _, Thrown reason => Thrown reason
    | [], Returned _ =>
        Thrown "TypeError: cannot read properties of undefined (reading shaderType)"
    end
  else
    let webglErrors := errors batch in
    let uniqueMessages := unique (map message_of webglErrors) in
    let aggregatedMessage :=
      createWebGLErrorSummary errorType (totalCount batch) uniqueMessages in
    Returned
      {| n_type := webgl_error_general;
         n_timestamp := now;
         n_error := GeneralError ("batch-" ++ show_Z now) aggregatedMessage now
                                 (totalCount batch);
         n_severity := if (100 <? totalCount batch)%N then sev_error else sev_warning |}.

(** [sendAggregatedNotification(key, batch)] *)
Definition sendAggregatedNotification (key : string) (batch : ErrorBatch) : M unit :=
  now <- Date_now ;;
  notification <- lift (aggregatedNotification key batch now) ;;
  sendWebGLNotification notification.

(** *** The methods of [ErrorAggregator] *)

(** [processBatch()] *)
Definition processBatch : M unit :=
  a <- this ;;
  if negb (isActive a) || isProcessing a || (map_size (errorBatch a) =? 0)%N then
    ret tt
  else
    assign (set_isProcessing true) ;;
    let currentBatch := errorBatch a in
    assign (set_errorBatch []) ;;
    try_finally
      (try_catch
         (for_each currentBatch
            (fun entry => sendAggregatedNotification (fst entry) (snd entry)))
         (fun error => console_log ("Failed to process error batch: " ++ error)))
      (assign (set_isProcessing false)).

(** [Math.round(duration / 1000)] *)
Definition round_seconds (duration : Z) : Z := ((duration + 500) / 1000)%Z.

(** The value of [notification] that [sendFinalSummary()] builds. *)
Definition summaryNotification (a : ErrorAggregator) (startTime now : Z)
    : WebGLNotification :=
  let duration := (now - startTime)%Z in
  let durationSec := round_seconds duration in
  let summaryMessage :=
    "📊 Error Collection Complete" ++ nl
    ++ "━━━━━━━━━━━━━━━━━━━━━━━" ++ nl
    ++ "Total Errors: " ++ show_N (totalErrorCount a) ++ nl
    ++ "Collection Duration: " ++ show_Z durationSec ++ "s" ++ nl
    ++ (if (maxErrorsBeforeStop a <=? totalErrorCount a)%N
        then "⚠️ Collection stopped early due to high error volume"
        else "✅ Collection period completed") in
  {| n_type := webgl_error_general;
     n_timestamp := now;
     n_error := GeneralError ("summary-" ++ show_Z now) (Some summaryMessage) now 1;
     n_severity := sev_info |}.

(** [sendFinalSummary()] *)
Definition sendFinalSummary : M unit :=
  a <- this ;;
  match collectionStartTime a with
  | None => ret tt
  | Some startTime =>
      if (totalErrorCount a =? 0)%N then ret tt
      else
        now <- Date_now ;;
        sendWebGLNotification (summaryNotification a startTime now)
  end.

(** [startBatchTimer()]: arms the batch timer. *)
Definition startBatchTimer : M unit :=
  a <- this ;;
  if negb (isActive a) || batchTimer a then ret tt
  else assign (set_batchTimer true).

(** [start()] *)
Definition start : M unit :=
  a <- this ;;
  if isActive a then ret tt
  else
    assign (set_isActive true) ;;
    assign (set_totalErrorCount 0) ;;
    now <- Date_now ;;
    assign (set_collectionStartTime (Some now)) ;;
    assign (set_errorBatch []) ;;
    console_log ("[ErrorAggregator] Starting error collection for "
                   ++ show_N (collectionDuration a) ++ "ms") ;;
    startBatchTimer ;;
    assign (set_collectionTimer true).

(** [stop()] *)
Definition stop : M unit :=
  a <- this ;;
  if negb (isActive a) then ret tt
  else
    assign (set_isActive false) ;;
    assign (set_batchTimer false) ;;
    assign (set_collectionTimer false) ;;
    processBatch ;;
    sendFinalSummary ;;
    a' <- this ;;
    console_log ("[ErrorAggregator] Stopped. Total errors collected: "
                   ++ show_N (totalErrorCount a')).

(** [addError(error)] *)
Definition addError (error : ErrorEvent) : M unit :=
  a <- this ;;
  if negb (isActive a) then ret tt
  else
    let errorCount := errorCount_of error in
    assign (fun a => set_totalErrorCount (totalErrorCount a + errorCount) a) ;;
    a <- this ;;
    if (maxErrorsBeforeStop a <=? totalErrorCount a)%N then
      console_log ("[ErrorAggregator] Max error count reached ("
                     ++ show_N (totalErrorCount a) ++ "). Stopping collection.") ;;
      stop
    else
      let key := getErrorKey error in
      now <- Date_now ;;
      match map_get key (errorBatch a) with
      | Some existing =>
          assign (set_errorBatch
                    (map_set key
                       {| errors := errors existing ++ [error];
                          firstSeen := firstSeen existing;
                          lastSeen := now;
                          totalCount := totalCount existing + errorCount |}
                       (errorBatch a)))
      | None =>
          assign (set_errorBatch
                    (map_set key
                       {| errors := [error];
                          firstSeen := now;
                          lastSeen := now;
                          totalCount := errorCount |}
                       (errorBatch a)))
      end ;;
      a <- this ;;
      if (maxBatchSize a <=? map_size (errorBatch a))%N && negb (isProcessing a)
      then processBatch
      else ret tt.

(** [destroy()]: it calls [stop()] without awaiting it; here the call is
    taken to its end. *)
Definition destroy : M unit := stop.

(** The callback of the batch timer, run when the timer fires.  The code
    does not await [processBatch]: the flush may go on after the callback
    has returned.  Here the flush is taken to its end first, which gives
    the same state when no other event arrives before the flush is
    through. *)
Definition batchTimer_callback : M unit :=
  a <- this ;;
  if isActive a then
    processBatch ;;
    assign (set_batchTimer false) ;;
    startBatchTimer
  else ret tt.

(** The callback of the collection timer. *)
Definition collectionTimer_callback : M unit := stop.

(** *** The host *)

(** What the host can do to an aggregator: call a public method, or let
    a pending timer fire. *)
Inductive Event : Type :=
| call_start
| call_stop
| call_addError (error : ErrorEvent)
| call_destroy
| fire_batchTimer
| fire_collectionTimer.

(** A timer that is not pending does not fire. *)
Definition handle (ev : Event) : M unit :=
  match ev with
  | call_start => start
  | call_stop => stop
  | call_addError error => addError error
  | call_destroy => destroy
  | fire_batchTimer =>
      a <- this ;; if batchTimer a then batchTimer_callback else ret tt
  | fire_collectionTimer =>
      a <- this ;; if collectionTimer a then collectionTimer_callback else ret tt
  end.

(** A run of the host: each event happens at a clock reading. *)
Definition advance_clock (t : Z) : M unit :=
  fun w => (Returned tt, with_clock t w).

Definition at_time (t : Z) (ev : Event) : M unit :=
  advance_clock t ;; handle ev.

Definition run (events : list (Z * Event)) : M unit :=
  for_each events (fun te => at_time (fst te) (snd te)).

(** A new aggregator in a quiet world. *)
Definition new_world (config : AggregatorConfig) (t : Z) (outcomes : list bool) : World :=
  {| instance := createErrorAggregator config; clock := t;
     console := []; sent := []; transport := outcomes |}.

End Aggregator.

(* ================================================================== *)
(** ** What the signature patterns mean *)

Module Pattern.
Import Text.

Local Open Scope string_scope.

(** Every character of [s] is in the class [p]. *)
Fixpoint all_chars (p : ascii -> bool) (s : string) : bool :=
  match s with
  | EmptyString => true
  | String c s' => p c && all_chars p s'
  end.

(** [s] does not go on with a character of the class [p]. *)
Definition stops (p : ascii -> bool) (s : string) : bool :=
  match s with
  | EmptyString => true
  | String c _ => negb (p c)
  end.

Definition not_line_terminator (c : ascii) : bool := negb (is_line_terminator c).

Definition not_code_char (c : ascii) : bool := negb (is_code_char c).

(** [s] begins with a match of [:\s*([A-Z_]+):\s*(\w+)]: a colon,
    optional white space, a code of capitals and underscores, a colon,
    optional white space and an operation made of word characters;
    [rest] is what follows the operation. *)
Definition code_operation_at (s code operation rest : string) : Prop :=
  exists space1 space2,
    s = ":" ++ space1 ++ code ++ ":" ++ space2 ++ operation ++ rest
    /\ all_chars is_space space1 = true
    /\ all_chars is_code_char code = true /\ code <> EmptyString
    /\ all_chars is_space space2 = true
    /\ all_chars is_word_char operation = true /\ operation <> EmptyString.

(** A match of [/WebGL.*?:\s*([A-Z_]+):\s*(\w+)/] in [message]: after
    [before] stands [WebGL], then [between1] without a line break, then
    the colon, the code and the operation. *)
Definition webgl_match (message before between1 code operation rest : string) : Prop :=
  exists tail,
    message = before ++ "WebGL" ++ between1 ++ tail
    /\ all_chars not_line_terminator between1 = true
    /\ code_operation_at tail code operation rest.

(** [message] contains the pattern, with this code and this operation. *)
Definition webgl_pattern (message code operation : string) : Prop :=
  exists before between1 rest, webgl_match message before between1 code operation rest.

(** The match that [String.prototype.match] reports: the one that starts
    leftmost, whose [.*?] is shortest, and whose operation is longest. *)
Definition first_webgl_match (message code operation : string) : Prop :=
  exists before between1 rest,
    webgl_match message before between1 code operation rest
    /\ stops is_word_char rest = true
    /\ forall before' between' code' operation' rest',
         webgl_match message before' between' code' operation' rest' ->
         (String.length before < String.length before')%nat
         \/ (String.length before = String.length before'
             /\ (String.length between1 <= String.length between')%nat).

(** The pattern in the words of the specification, [SOME_CODE:
    functionName]: a code of capitals and underscores, a colon, optional
    white space and a function name, the code and the name each as long
    as they can be. *)
Definition code_operation_pattern (message code operation : string) : Prop :=
  exists before space rest,
    message = before ++ code ++ ":" ++ space ++ operation ++ rest
    /\ (forall b c, before = b ++ String c EmptyString -> is_code_char c = false)
    /\ all_chars is_code_char code = true /\ code <> EmptyString
    /\ all_chars is_space space = true
    /\ all_chars is_word_char operation = true /\ operation <> EmptyString
    /\ stops is_word_char rest = true.

(** [run] is the first run of capitals and underscores of [message]. *)
Definition first_caps_run (message run : string) : Prop :=
  exists before rest,
    message = before ++ run ++ rest
    /\ all_chars not_code_char before = true
    /\ all_chars is_code_char run = true /\ run <> EmptyString
    /\ stops is_code_char rest = true.

End Pattern.

(* ================================================================== *)
(** ** What a run of the aggregator lets one observe *)

Module Observation.
Import Text Aggregator.

Local Open Scope string_scope.

(** The line that [sendWebGLNotification] prints for a failed emission. *)
Definition is_failure_line (line : string) : bool :=
  match strip_prefix "[MCP] Failed to send notification: " line with
  | Some _ => true
  | None => false
  end.

Definition failure_lines (lines : list string) : nat :=
  List.length (filter is_failure_line lines).

(** The emissions that the transport refused. *)
Definition failed_sends (log : list (WebGLNotification * bool)) : nat :=
  List.length (filter (fun entry => negb (snd entry)) log).

(** The same world with a transport that never fails. *)
Definition reliable (w : World) : World :=
  {| instance := instance w; clock := clock w; console := console w;
     sent := sent w; transport := [] |}.

(** The world a computation ends in. *)
Definition after {A : Type} (m : M A) (w : World) : World := snd (m w).

(** The weight of a sequence of events: the sum of their counts. *)
Definition weights (events : list ErrorEvent) : N :=
  fold_right (fun e acc => (errorCount_of e + acc)%N) 0%N events.

(** The events passed to [addError] within the current session: the
    ledger is emptied by a [start] that opens a session, and an event is
    entered when [addError] is called while the aggregator is active. *)
Definition ledger_step (ev : Event) (w : World) (ledger : list ErrorEvent)
    : list ErrorEvent :=
  match ev with
  | call_start => if isActive (instance w) then ledger else []
  | call_addError error =>
      if isActive (instance w) then (ledger ++ [error])%list else ledger
  | _ => ledger
  end.

Fixpoint run_with_ledger (events : list (Z * Event)) (w : World)
    (ledger : list ErrorEvent) : World * list ErrorEvent :=
  match events with
  | [] => (w, ledger)
  | (t, ev) :: rest =>
      run_with_ledger rest (after (at_time t ev) w)
                      (ledger_step ev (with_clock t w) ledger)
  end.

(** The notifications of a log, without the outcome of their emission. *)
Definition notifications (log : list (WebGLNotification * bool)) : list WebGLNotification :=
  map fst log.

(** Every open group has at least one member. *)
Definition groups_inhabited (m : BatchMap) : Prop :=
  Forall (fun entry => errors (snd entry) <> []) m.

(** A computation that returns, whatever the world. *)
Definition returns {A : Type} (m : M A) : Prop :=
  forall w, exists a, fst (m w) = Returned a.

(** A computation that keeps a relation between the world before and the
    world after. *)
Definition preserves (P : World -> World -> Prop) {A : Type} (m : M A) : Prop :=
  forall w, P w (after m w).

(** Two worlds with the same aggregator and the same clock; their
    transports, consoles and logs of emissions may differ. *)
Definition same_aggregator (w1 w2 : World) : Prop :=
  instance w1 = instance w2 /\ clock w1 = clock w2.

(** A computation whose outcome and whose effect on the aggregator are
    the same in any two such worlds. *)
Definition robust {A : Type} (m : M A) : Prop :=
  forall w1 w2, same_aggregator w1 w2 ->
    fst (m w1) = fst (m w2) /\ same_aggregator (after m w1) (after m w2).

(** The failure lines printed and the emissions refused grow together. *)
Definition balanced (w w' : World) : Prop :=
  (failure_lines (console w') + failed_sends (sent w)
   = failure_lines (console w) + failed_sends (sent w'))%nat.

Definition logs_failures {A : Type} (m : M A) : Prop := preserves balanced m.

(** The counter of a world, and the relation of two worlds whose counters
    agree. *)
Definition total (w : World) : N := totalErrorCount (instance w).

Definition same_total (w w' : World) : Prop := total w' = total w.

Definition keeps_total {A : Type} (m : M A) : Prop := preserves same_total m.

(** The aggregator once [stop] has cleared its flag and its timers. *)
Definition deactivated (a : ErrorAggregator) : ErrorAggregator :=
  set_collectionTimer false (set_batchTimer false (set_isActive false a)).

(** The session summary that [stop] emits in the world [w], if any. *)
Definition summary_of (w : World) : list WebGLNotification :=
  match collectionStartTime (instance w) with
  | None => []
  | Some startTime =>
      if (totalErrorCount (instance w) =? 0)%N then []
      else [summaryNotification (deactivated (instance w)) startTime (clock w)]
  end.

(** [log] holds exactly one aggregated notification of a group of which
    [error] is a member, under the signature of [error]: the event has
    been flushed exactly once. *)
Definition flushed_once (error : ErrorEvent) (log : list WebGLNotification) : Prop :=
  exists batch now n before behind,
    In error (errors batch)
    /\ aggregatedNotification (getErrorKey error) batch now = Returned n
    /\ log = (before ++ n :: behind)%list
    /\ ~ In n before /\ ~ In n behind.

(** The final flush on [stop]: every group that is open in [w] has its
    aggregated notification in [log]. *)
Definition groups_flushed (w : World) (log : list WebGLNotification) : Prop :=
  forall key batch,
    In (key, batch) (errorBatch (instance w)) ->
    exists n, aggregatedNotification key batch (clock w) = Returned n /\ In n log.

(** The notification of a runtime group with signature
    [INVALID_OPERATION:useProgram] and [count] occurrences, built at
    [now]. *)
Definition useProgram_notification (count : N) (now : Z) (severity : Severity)
    : WebGLNotification :=
  {| n_type := webgl_error_general;
     n_timestamp := now;
     n_error :=
       GeneralError ("batch-" ++ show_Z now)
         (Some ("WebGL: INVALID_OPERATION: useProgram: program not valid ("
                  ++ show_N count ++ " occurrences)"))
         now count;
     n_severity := severity |}.

End Observation.

(* ================================================================== *)
(** ** Sample inputs *)

Module Samples.
Import JS Compare.

Local Open Scope string_scope.

(** A [side] x [side] image of three channels, every pixel red. *)
Definition red_pixels (side : nat) : Buffer :=
  List.concat (repeat [255; 0; 0]%N (side * side)).

Definition red_image (side : nat) : Sharp :=
  {| metadata := Some {| width := N.of_nat side; height := N.of_nat side;
                         channels := Some 3%N |};
     raw := Some (red_pixels side) |}.

(** The 4 x 4 red image with its first pixel turned blue. *)
Definition one_blue_pixel : Sharp :=
  {| metadata := Some {| width := 4; height := 4; channels := Some 3%N |};
     raw := Some ([0; 0; 255]%N ++ List.tl (List.tl (List.tl (red_pixels 4))))%list |}.

(** A store of four screenshots. *)
Definition store (path : string) : Sharp :=
  if String.eqb path "baseline.png" then red_image 4
  else if String.eqb path "current.png" then red_image 4
  else if String.eqb path "blue.png" then one_blue_pixel
  else if String.eqb path "small.png" then red_image 2
  else {| metadata := None; raw := None |}.

Import Aggregator.

(** The runtime error that Chrome prints for [useProgram] on an invalid
    program, as the tracker hands it over with its count. *)
Definition useProgram_error (count : N) : ErrorEvent :=
  Runtime {| we_id := "8f14e45fceea167a5a36dedd4bea2543";
             we_message := "WebGL: INVALID_OPERATION: useProgram: program not valid";
             we_timestamp := 0;
             we_count := count;
             we_url := Some "http://localhost:8765/webgl-test/error";
             we_functionName := Some "useProgram" |}.

(** A runtime error whose message is the bare pattern of the
    specification. *)
Definition bare_drawElements_error : ErrorEvent :=
  Runtime {| we_id := "c9f0f895fb98ab9159f51fd0297e236d";
             we_message := "INVALID_OPERATION: drawElements";
             we_timestamp := 0;
             we_count := 1;
             we_url := None;
             we_functionName := Some "drawElements" |}.

(** A vertex shader that does not compile. *)
Definition vertex_error (log : string) : ErrorEvent :=
  Shader {| se_id := "45c48cce2e2d7fbdea1afc51c7c6ad26";
            se_type := shader_compilation;
            se_shaderType := Some vertex;
            se_source := None;
            se_errorLog := log;
            se_lineNumber := None;
            se_timestamp := 0;
            se_url := None |}.

(** A new aggregator with the default configuration, at time 0, with a
    transport that never fails. *)
Definition quiet_world : World := new_world default_config 0 [].

(** A new aggregator that stops at the second error. *)
Definition strict_world : World :=
  new_world {| cfg_batchInterval := None; cfg_maxBatchSize := None;
               cfg_collectionDuration := None;
               cfg_maxErrorsBeforeStop := Some 2%N |} 0 [].

(** A session that receives one error and is stopped. *)
Definition one_error_then_stop : list (Z * Event) :=
  [(0%Z, call_start); (10%Z, call_addError (useProgram_error 1)); (20%Z, call_stop)].

(** A session that receives 150 times the same error before the batch
    timer fires. *)
Definition burst_then_tick : list (Z * Event) :=
  ((0%Z, call_start) :: repeat (10%Z, call_addError (useProgram_error 1)) 150
   ++ [(1000%Z, fire_batchTimer)])%list.

(** A started session with one error recorded. *)
Definition one_error_recorded : World :=
  snd (run [(0%Z, call_start); (10%Z, call_addError (useProgram_error 1))] strict_world).

(** A new aggregator that stops at the first error, started. *)
Definition started_at_limit_1 : World :=
  snd (run [(0%Z, call_start)]
           (new_world {| cfg_batchInterval := None; cfg_maxBatchSize := None;
                         cfg_collectionDuration := None;
                         cfg_maxErrorsBeforeStop := Some 1%N |} 0 [])).

(** Two sessions of one aggregator, with calls of [addError] before the
    first, between the two and within each. *)
Definition two_sessions : list (Z * Event) :=
  [(0%Z, call_addError (useProgram_error 7));
   (1%Z, call_start);
   (2%Z, call_addError (useProgram_error 3));
   (3%Z, call_addError (vertex_error "ERROR: 0:1: syntax error"));
   (4%Z, call_stop);
   (5%Z, call_addError (useProgram_error 9));
   (6%Z, call_start);
   (7%Z, call_addError (useProgram_error 5))].

(** A session in which the same error arrived 150 times and no timer has
    fired yet, and the group these errors are in. *)
Definition burst_world : World :=
  snd (run ((0%Z, call_start)
              :: repeat (10%Z, call_addError (useProgram_error 1)) 150)
           quiet_world).

Definition burst_batch : ErrorBatch :=
  {| errors := repeat (useProgram_error 1) 150;
     firstSeen := 10; lastSeen := 10; totalCount := 150 |}.

(** Two vertex shaders that failed to compile, in one group. *)
Definition vertex_batch : ErrorBatch :=
  {| errors := [vertex_error "ERROR: 0:1: syntax error";
                vertex_error "ERROR: 0:7: undeclared identifier"];
     firstSeen := 10; lastSeen := 20; totalCount := 2 |}.

End Samples.

(* ================================================================== *)
(** ** The aggregator as a state machine *)

Module Machine.
Import Text Aggregator Observation.

(** What each method does to the fields of the aggregator, read off the
    methods of [Aggregator]; [now] is the reading of the clock.  The
    lemmas of [MachineFacts] show that the methods act on the aggregator
    exactly in this way, whatever the transport does. *)

(** [processBatch()] *)
Definition flush (a : ErrorAggregator) : ErrorAggregator :=
  if negb (isActive a) || isProcessing a || (map_size (errorBatch a) =? 0)%N then a
  else set_isProcessing false (set_errorBatch [] (set_isProcessing true a)).

(** [startBatchTimer()] *)
Definition arm (a : ErrorAggregator) : ErrorAggregator :=
  if negb (isActive a) || batchTimer a then a else set_batchTimer true a.

(** [stop()] *)
Definition stopped (a : ErrorAggregator) : ErrorAggregator :=
  if isActive a then flush (deactivated a) else a.

(** [start()] *)
Definition started (now : Z) (a : ErrorAggregator) : ErrorAggregator :=
  if isActive a then a
  else
    set_collectionTimer true
      (arm (set_errorBatch []
              (set_collectionStartTime (Some now)
                 (set_totalErrorCount 0 (set_isActive true a))))).

(** The group of [error] after [addError(error)] has recorded it. *)
Definition joined (error : ErrorEvent) (now : Z) (m : BatchMap) : ErrorBatch :=
  match map_get (getErrorKey error) m with
  | Some existing =>
      {| errors := errors existing ++ [error];
         firstSeen := firstSeen existing;
         lastSeen := now;
         totalCount := totalCount existing + errorCount_of error |}
  | None =>
      {| errors := [error];
         firstSeen := now;
         lastSeen := now;
         totalCount := errorCount_of error |}
  end.

(** [addError(error)] *)
Definition added (error : ErrorEvent) (now : Z) (a : ErrorAggregator) : ErrorAggregator :=
  if negb (isActive a) then a
  else
    let a1 := set_totalErrorCount (totalErrorCount a + errorCount_of error) a in
    if (maxErrorsBeforeStop a1 <=? totalErrorCount a1)%N then stopped a1
    else
      let a2 := set_errorBatch
                  (map_set (getErrorKey error) (joined error now (errorBatch a1))
                           (errorBatch a1)) a1 in
      if (maxBatchSize a2 <=? map_size (errorBatch a2))%N && negb (isProcessing a2)
      then flush a2
      else a2.

(** The callback of the batch timer. *)
Definition ticked (a : ErrorAggregator) : ErrorAggregator :=
  if isActive a then arm (set_batchTimer false (flush a)) else a.

(** An event of the host. *)
Definition step (ev : Event) (now : Z) (a : ErrorAggregator) : ErrorAggregator :=
  match ev with
  | call_start => started now a
  | call_stop => stopped a
  | call_addError error => added error now a
  | call_destroy => stopped a
  | fire_batchTimer => if batchTimer a then ticked a else a
  | fire_collectionTimer => if collectionTimer a then stopped a else a
  end.

(** A run of the host. *)
Fixpoint steps (events : list (Z * Event)) (a : ErrorAggregator) : ErrorAggregator :=
  match events with
  | [] => a
  | (t, ev) :: rest => steps rest (step ev t a)
  end.

(** A computation that returns, acts on the aggregator as [a'] says and
    leaves the clock alone. *)
Definition acts_at (m : M unit) (w : World) (a' : ErrorAggregator) : Prop :=
  fst (m w) = Returned tt
  /\ instance (after m w) = a'
  /\ clock (after m w) = clock w.

(** *** What every run of a new aggregator keeps *)

(** The timers are pending exactly while the session is active, and no
    flush is left in progress. *)
Definition timers_follow_session (a : ErrorAggregator) : Prop :=
  batchTimer a = isActive a
  /\ collectionTimer a = isActive a
  /\ isProcessing a = false.

(** A group has members, all of the signature it is filed under, and its
    count is the sum of their weights. *)
Definition group_sound (entry : string * ErrorBatch) : Prop :=
  errors (snd entry) <> []
  /\ Forall (fun e => getErrorKey e = fst entry) (errors (snd entry))
  /\ totalCount (snd entry) = weights (errors (snd entry)).

Definition groups_sound (m : BatchMap) : Prop :=
  Forall group_sound m /\ NoDup (map fst m).

(** An active aggregator has not reached its limit of errors. *)
Definition below_limit (a : ErrorAggregator) : Prop :=
  isActive a = true ->
  (totalErrorCount a < maxErrorsBeforeStop a)%N \/ totalErrorCount a = 0%N.

(** The open groups are fewer than [maxBatchSize]. *)
Definition groups_bounded (a : ErrorAggregator) : Prop :=
  errorBatch a = [] \/ (map_size (errorBatch a) < maxBatchSize a)%N.

(** An active aggregator knows when its session started. *)
Definition session_dated (a : ErrorAggregator) : Prop :=
  isActive a = true -> collectionStartTime a <> None.

Definition steady (a : ErrorAggregator) : Prop :=
  timers_follow_session a
  /\ groups_sound (errorBatch a)
  /\ below_limit a
  /\ groups_bounded a
  /\ session_dated a.

(** The text of a session summary: [early] tells which last line it has. *)
Definition summary_text (total : N) (durationSec : Z) (early : bool) : string :=
  ("📊 Error Collection Complete" ++ nl
   ++ "━━━━━━━━━━━━━━━━━━━━━━━" ++ nl
   ++ "Total Errors: " ++ show_N total ++ nl
   ++ "Collection Duration: " ++ show_Z durationSec ++ "s" ++ nl
   ++ (if early
       then "⚠️ Collection stopped early due to high error volume"
       else "✅ Collection period completed"))%string.

(** The session summary of [total] errors, over a session started at
    [startTime] and stopped at [now]. *)
Definition summary (total : N) (startTime now : Z) (early : bool) : WebGLNotification :=
  {| n_type := webgl_error_general;
     n_timestamp := now;
     n_error := GeneralError ("summary-" ++ show_Z now)
                  (Some (summary_text total (round_seconds (now - startTime)) early))
                  now 1;
     n_severity := sev_info |}.

(** The world a run of a new aggregator ends in. *)
Definition world_after (config : AggregatorConfig) (t : Z) (outcomes : list bool)
    (events : list (Z * Event)) : World :=
  after (run events) (new_world config t outcomes).

(** A session with the default configuration in which [n] errors of
    weight 1 and one signature arrived, no timer having fired. *)
Definition burst (n : nat) : list (Z * Event) :=
  (0%Z, call_start) :: repeat (10%Z, call_addError (Samples.useProgram_error 1)) n.

(** The world [w] while a flush is suspended: a tick has started
    [processBatch], which waits for the transport. *)
Definition mid_flush (w : World) : World :=
  with_instance (set_isProcessing true (instance w)) w.

(** A configuration that flushes as soon as two groups are open. *)
Definition two_groups_config : AggregatorConfig :=
  {| cfg_batchInterval := None; cfg_maxBatchSize := Some 2%N;
     cfg_collectionDuration := None; cfg_maxErrorsBeforeStop := None |}.

(** A session in which two vertex shaders failed to compile. *)
Definition two_vertex_errors : list (Z * Event) :=
  [(0%Z, call_start);
   (10%Z, call_addError (Samples.vertex_error "ERROR: 0:1: syntax error"));
   (20%Z, call_addError (Samples.vertex_error "ERROR: 0:7: undeclared identifier"))].

(** A configuration that stops at the third error. *)
Definition three_errors_config : AggregatorConfig :=
  {| cfg_batchInterval := None; cfg_maxBatchSize := None;
     cfg_collectionDuration := None; cfg_maxErrorsBeforeStop := Some 3%N |}.

End Machine.

(* ================================================================== *)
(** ** The error tracker ([src/debugger/error-tracker.ts]) and the console
       listener of [handleWebGLInjectDebugging] *)

Module Tracker.
Import Text Aggregator Observation.

Local Open Scope string_scope.

(** A [Map] with string keys, in the order of insertion: [get] and [set]. *)
Fixpoint Map_get {V : Type} (k : string) (m : list (string * V)) : option V :=
  match m with
  | [] => None
  | (k', v) :: tl => if String.eqb k' k then Some v else Map_get k tl
  end.

Fixpoint Map_set {V : Type} (k : string) (v : V) (m : list (string * V))
    : list (string * V) :=
  match m with
  | [] => [(k, v)]
  | (k', v') :: tl =>
      if String.eqb k' k then (k', v) :: tl else (k', v') :: Map_set k v tl
  end.

(** [Omit<WebGLError, "id" | "count">], as the console listener builds it. *)
Record ErrorReport : Type := {
  report_message : string;
  report_timestamp : Z;
  report_url : option string;
  report_functionName : option string
}.

(** The state of the module: the two maps, and the outcomes of the writes
    of [errors.json] and [shader-errors.json] to come ([false]: the write
    fails; when the list is used up every write succeeds). *)
Record Store : Type := {
  errorMap : list (string * WebGLError);
  shaderErrorMap : list (string * ShaderCompilationError);
  disk : list bool
}.

(** [saveErrors()] and [saveShaderErrors()]: one write, which may fail. *)
Definition saveErrors (st : Store) : Outcome unit * Store :=
  let st' := {| errorMap := errorMap st; shaderErrorMap := shaderErrorMap st;
                disk := List.tl (disk st) |} in
  match disk st with
  | false :: _ => (Thrown "EIO: write failed", st')
  | _ => (Returned tt, st')
  end.

Definition saveShaderErrors (st : Store) : Outcome unit * Store := saveErrors st.

Section WithHash.

(** [generateHash] of [src/utils/hash.ts]: the MD5 digest of the input, in
    hexadecimal. *)
Variable generateHash : string -> string.

(** [trackWebGLError(error)] when [new Date()] reads [now].  The entry of a
    known message is updated in place, before the file is written. *)
Definition trackWebGLError (error : ErrorReport) (now : Z) (st : Store)
    : Outcome WebGLError * Store :=
  let errorId := generateHash (report_message error) in
  match Map_get errorId (errorMap st) with
  | Some existingError =>
      let updated := {| we_id := we_id existingError;
                        we_message := we_message existingError;
                        we_timestamp := now;
                        we_count := we_count existingError + 1;
                        we_url := we_url existingError;
                        we_functionName := we_functionName existingError |} in
      let st1 := {| errorMap := Map_set errorId updated (errorMap st);
                    shaderErrorMap := shaderErrorMap st;
                    disk := disk st |} in
      match saveErrors st1 with
      | (Returned _, st2) => (Returned updated, st2)
      | (Thrown reason, st2) => (Thrown reason, st2)
      end
  | None =>
      let newError := {| we_id := errorId;
                         we_message := report_message error;
                         we_timestamp := now;
                         we_count := 1;
                         we_url := report_url error;
                         we_functionName := report_functionName error |} in
      let st1 := {| errorMap := Map_set errorId newError (errorMap st);
                    shaderErrorMap := shaderErrorMap st;
                    disk := disk st |} in
      match saveErrors st1 with
      | (Returned _, st2) => (Returned newError, st2)
      | (Thrown reason, st2) => (Thrown reason, st2)
      end
  end.

(** [trackShaderError(error)]; the field [id] of the argument is not read. *)
Definition trackShaderError (error : ShaderCompilationError) (now : Z) (st : Store)
    : Outcome ShaderCompilationError * Store :=
  let errorId :=
    generateHash (se_errorLog error ++ ShaderErrorType_name (se_type error)
                    ++ match se_shaderType error with
                       | Some t => ShaderType_name t
                       | None => EmptyString
                       end) in
  match Map_get errorId (shaderErrorMap st) with
  | Some existingError =>
      let updated := {| se_id := se_id existingError;
                        se_type := se_type existingError;
                        se_shaderType := se_shaderType existingError;
                        se_source := se_source existingError;
                        se_errorLog := se_errorLog existingError;
                        se_lineNumber := se_lineNumber existingError;
                        se_timestamp := now;
                        se_url := se_url existingError |} in
      let st1 := {| errorMap := errorMap st;
                    shaderErrorMap := Map_set errorId updated (shaderErrorMap st);
                    disk := disk st |} in
      match saveShaderErrors st1 with
      | (Returned _, st2) => (Returned updated, st2)
      | (Thrown reason, st2) => (Thrown reason, st2)
      end
  | None =>
      let newError := {| se_id := errorId;
                         se_type := se_type error;
                         se_shaderType := se_shaderType error;
                         se_source := se_source error;
                         se_errorLog := se_errorLog error;
                         se_lineNumber := se_lineNumber error;
                         se_timestamp := now;
                         se_url := se_url error |} in
      let st1 := {| errorMap := errorMap st;
                    shaderErrorMap := Map_set errorId newError (shaderErrorMap st);
                    disk := disk st |} in
      match saveShaderErrors st1 with
      | (Returned _, st2) => (Returned newError, st2)
      | (Thrown reason, st2) => (Thrown reason, st2)
      end
  end.

(** The reports tracked one after the other, each at its clock reading. *)
Definition track_all (reports : list (Z * ErrorReport)) (st : Store) : Store :=
  fold_left (fun st r => snd (trackWebGLError (snd r) (fst r) st)) reports st.

(** *** The console listener of [handleWebGLInjectDebugging] *)

(** A console message that the listener reacts to, already parsed. *)
Inductive ConsoleMessage : Type :=
| WEBGL_ERROR_TRACKED (errorData : ErrorReport)
| SHADER_ERROR_TRACKED (errorData : ShaderCompilationError).

(** The listener: the error is tracked and then handed to the aggregator;
    an exception of either step is logged.  The state is the store of the
    tracker and the world of the aggregator, whose clock both read.  The
    aggregator is handed the entry as it is at that moment; in the code it
    is the object of the tracker itself, whose count and timestamp later
    reports update in place, and of which the aggregator reads the count
    once, on receipt. *)
Definition on_console (msg : ConsoleMessage) (st : Store * World) : Store * World :=
  let '(store, w) := st in
  match msg with
  | WEBGL_ERROR_TRACKED errorData =>
      match trackWebGLError errorData (clock w) store with
      | (Returned error, store') =>
          (store',
           after (try_catch (addError (Runtime error))
                    (fun e => console_log ("Failed to track WebGL error: " ++ e))) w)
      | (Thrown e, store') =>
          (store', after (console_log ("Failed to track WebGL error: " ++ e)) w)
      end
  | SHADER_ERROR_TRACKED errorData =>
      match trackShaderError errorData (clock w) store with
      | (Returned error, store') =>
          (store',
           after (try_catch (addError (Shader error))
                    (fun e => console_log ("Failed to track shader error: " ++ e))) w)
      | (Thrown e, store') =>
          (store', after (console_log ("Failed to track shader error: " ++ e)) w)
      end
  end.

(** The messages of the page, handled one after the other. *)
Definition listen (msgs : list ConsoleMessage) (st : Store * World) : Store * World :=
  fold_left (fun st msg => on_console msg st) msgs st.

(** How often the tracker has seen the message of a report. *)
Definition seen (error : ErrorReport) (st : Store) : N :=
  match Map_get (generateHash (report_message error)) (errorMap st) with
  | Some e => we_count e
  | None => 0%N
  end.

(** How many of the reports have the identifier [id]. *)
Definition occurrences (id : string) (reports : list (Z * ErrorReport)) : N :=
  N.of_nat (List.length
              (filter (fun r => String.eqb (generateHash (report_message (snd r))) id)
                      reports)).

End WithHash.

(** A tracker that has seen nothing, with a disk that takes every write. *)
Definition empty_store : Store :=
  {| errorMap := []; shaderErrorMap := []; disk := [] |}.

(** A stand-in for the digest in examples: the message itself. *)
Definition plain_hash (input : string) : string := input.

(** The report of an invalid [useProgram]. *)
Definition useProgram_report : ErrorReport :=
  {| report_message := "WebGL Error in useProgram: INVALID_OPERATION";
     report_timestamp := 0;
     report_url := Some "http://localhost:8765/webgl-test/error";
     report_functionName := Some "useProgram" |}.

End Tracker.

(* ================================================================== *)
(** ** File names ([src/utils/file.ts]) *)

Module FileUtils.
Import Text.

Local Open Scope string_scope.

(** [s.replace(/[...]/g, by)]: every character of the class is replaced. *)
Fixpoint replace_all (p : ascii -> bool) (by_char : ascii) (s : string) : string :=
  match s with
  | EmptyString => EmptyString
  | String c s' => String (if p c then by_char else c) (replace_all p by_char s')
  end.

(** [s.replace(target, by)] for two one-character strings: the first
    occurrence only. *)
Fixpoint replace_first (target by_char : ascii) (s : string) : string :=
  match s with
  | EmptyString => EmptyString
  | String c s' =>
      if Ascii.eqb c target then String by_char s'
      else String c (replace_first target by_char s')
  end.

(** [s.slice(0, -n)] *)
Definition slice_off (n : nat) (s : string) : string :=
  substring 0 (String.length s - n) s.

(** The class [[:.]]. *)
Definition is_colon_or_dot (c : ascii) : bool := Ascii.eqb c ":" || Ascii.eqb c ".".

(** [generateTimestamp()], when [now.toISOString()] is [iso]. *)
Definition generateTimestamp (iso : string) : string :=
  slice_off 5 (replace_first "T" "_" (replace_all is_colon_or_dot "-" iso)).

(** The class [[a-zA-Z0-9-_]]. *)
Definition is_filename_char (c : ascii) : bool :=
  between 97 122 c || between 65 90 c || between 48 57 c
  || Ascii.eqb c "-" || Ascii.eqb c "_".

(** [sanitizeFilename(filename)] *)
Definition sanitizeFilename (filename : string) : string :=
  replace_all (fun c => negb (is_filename_char c)) "_" filename.

(** The name that [captureScreenshot] gives to its file, without the
    extension: [`${sanitizedTestCase}_${timestamp}`]. *)
Definition capture_name (testCase iso : string) : string :=
  sanitizeFilename testCase ++ "_" ++ generateTimestamp iso.

(** The classes of the characters of [toISOString()]. *)
Definition is_digit (c : ascii) : bool := between 48 57 c.

Definition is_date_char (c : ascii) : bool := is_digit c || Ascii.eqb c "-".

End FileUtils.

(* ================================================================== *)
(** ** Notions used in the statements *)

Module Notions.
Import Aggregator.

(** A computation that leaves the aggregator and the clock as they were. *)
Definition framed (w w' : World) : Prop :=
  instance w' = instance w /\ clock w' = clock w.

(** A character other than [sep]. *)
Definition is_not (sep c : ascii) : bool := negb (Ascii.eqb c sep).

(** [1 + 2 + ... + n] *)
Definition triangle (n : N) : N := (n * (n + 1) / 2)%N.

End Notions.

(* ================================================================== *)
(** ** Properties of the screenshot comparator *)

Module CompareFacts.
Import JS Compare.

Local Open Scope N_scope.

(** A channel never differs from itself, whether it is defined or not. *)
Lemma channelDiff_same (a : option N) : channelDiff a a = false.
Proof.
  destruct a as [x|]; simpl; [|reflexivity].
  rewrite Z.sub_diag. reflexivity.
Qed.

Lemma pixelDiff_same (chans : N) (buf : Buffer) (i : N) :
  pixelDiff chans buf buf i = false.
Proof.
  unfold pixelDiff.
  induction (range chans) as [|c cs IH]; simpl.
  - reflexivity.
  - rewrite channelDiff_same. exact IH.
Qed.

(** The counter only moves on a pixel that differs. *)
Lemma pixelStep_same_count chans buf st i :
  fst (pixelStep chans buf buf st i) = fst st.
Proof.
  destruct st as [n d]. unfold pixelStep.
  rewrite pixelDiff_same. reflexivity.
Qed.

Lemma pixelLoop_same_count_from chans buf (offsets : list N) st :
  fst (fold_left (pixelStep chans buf buf) offsets st) = fst st.
Proof.
  revert st. induction offsets as [|i rest IH]; intros st; simpl.
  - reflexivity.
  - rewrite IH. apply pixelStep_same_count.
Qed.

Lemma pixelLoop_same chans buf : fst (pixelLoop chans buf buf) = 0.
Proof. unfold pixelLoop. apply pixelLoop_same_count_from. Qed.

(** No differing pixel out of a positive number of pixels is 0 percent. *)
Lemma percent_zero (total : N) : total <> 0 -> percent 0 total = Fin 0.
Proof.
  destruct total as [|p]; intros H; [contradiction|].
  unfold percent. reflexivity.
Qed.

Lemma le_zero_nonneg (t : number) : nonneg t -> le (Fin 0) t = true.
Proof.
  destruct t as [q| | |]; simpl; intros H; try contradiction; try reflexivity.
  apply Qle_bool_iff. exact H.
Qed.

(** The step of the pixel loop is never 0. *)
Lemma channels_or_3_positive (m : Metadata) : channels_or_3 m <> 0.
Proof.
  unfold channels_or_3. destruct (channels m) as [c|]; [|discriminate].
  destruct (N.eqb_spec c 0); [discriminate | assumption].
Qed.

(** The loop variable of the pixel loop takes exactly the multiples of the
    step that lie below the length of the buffer. *)
Lemma strides_spec (len step i : N) :
  step <> 0 ->
  In i (strides len step) <-> (exists k, i = k * step) /\ i < len.
Proof.
  intros Hs. unfold strides. rewrite in_map_iff. split.
  - intros [k [<- Hk]]. apply in_seq in Hk. split.
    + exists (N.of_nat k). reflexivity.
    + destruct Hk as [_ Hk]. simpl in Hk.
      assert (Hlt : N.of_nat k < (len + step - 1) / step) by lia.
      assert (Hm : step * ((len + step - 1) / step) <= len + step - 1)
        by (apply N.Div0.mul_div_le).
      nia.
  - intros [[k ->] Hlt]. exists (N.to_nat k). split.
    + rewrite N2Nat.id. reflexivity.
    + apply in_seq. split; [lia|]. simpl.
      assert (Hk : k < (len + step - 1) / step).
      { destruct (N.lt_ge_cases k ((len + step - 1) / step)) as [H|H]; [exact H|].
        exfalso.
        assert (Hm : len + step - 1 < step * N.succ ((len + step - 1) / step))
          by (apply N.mul_succ_div_gt; exact Hs).
        nia. }
      lia.
Qed.

(** C4. When the widths or the heights of the two images differ, the
    comparison returns [{match: false, difference: 100}] without a diff
    image and writes no file, whatever the pixels of either image are
    (and even when they cannot be decoded). *)
Theorem compare_dimension_mismatch
    (sharp : string -> Sharp) (DIFF_DIR timestamp baselinePath currentPath : string)
    (threshold : number) (baselineMeta currentMeta : Metadata) :
  metadata (sharp baselinePath) = Some baselineMeta ->
  metadata (sharp currentPath) = Some currentMeta ->
  width baselineMeta <> width currentMeta \/ height baselineMeta <> height currentMeta ->
  compareScreenshots sharp DIFF_DIR timestamp baselinePath currentPath threshold
  = Some ({| is_match := false; difference := Fin 100;
             diffImagePath := None; diffImageData := None |}, []).
Proof.
  intros Hb Hc Hdim. unfold compareScreenshots. rewrite Hb, Hc.
  assert (Hne : negb (width baselineMeta =? width currentMeta)
                || negb (height baselineMeta =? height currentMeta) = true).
  { apply orb_true_iff.
    destruct Hdim as [H|H]; [left|right];
      apply negb_true_iff; apply N.eqb_neq; exact H. }
  rewrite Hne. reflexivity.
Qed.

(** C7. An image compared with an image of the same dimensions and the
    same pixel buffer gives [difference == 0] and [match == true], for
    every threshold that is not negative.  The image has at least one
    pixel, as every decoded image has. *)
Theorem compare_identical
    (sharp : string -> Sharp) (DIFF_DIR timestamp baselinePath currentPath : string)
    (threshold : number) (baselineMeta currentMeta : Metadata) (pixels : Buffer) :
  metadata (sharp baselinePath) = Some baselineMeta ->
  metadata (sharp currentPath) = Some currentMeta ->
  width baselineMeta = width currentMeta ->
  height baselineMeta = height currentMeta ->
  raw (sharp baselinePath) = Some pixels ->
  raw (sharp currentPath) = Some pixels ->
  width baselineMeta <> 0 ->
  height baselineMeta <> 0 ->
  nonneg threshold ->
  compareScreenshots sharp DIFF_DIR timestamp baselinePath currentPath threshold
  = Some ({| is_match := true; difference := Fin 0;
             diffImagePath := None; diffImageData := None |}, []).
Proof.
  intros Hb Hc Hw Hh Hrb Hrc Hw0 Hh0 Ht.
  unfold compareScreenshots. rewrite Hb, Hc, Hw, Hh, !N.eqb_refl. simpl.
  rewrite Hrb, Hrc.
  pose proof (pixelLoop_same (channels_or_3 baselineMeta) pixels) as Hloop.
  destruct (pixelLoop (channels_or_3 baselineMeta) pixels pixels) as [n d].
  simpl in Hloop. subst n.
  rewrite <- Hw, <- Hh.
  rewrite percent_zero by lia.
  rewrite (le_zero_nonneg _ Ht). reflexivity.
Qed.

(** C8, as the code has it.  A diff image (its path, its in-memory buffer
    and the file written) is produced exactly when the dimensions agree
    and [match] is false; on a dimension mismatch [match] is false and
    no diff image is produced. *)
Theorem compare_diff_image_iff
    (sharp : string -> Sharp) (DIFF_DIR timestamp baselinePath currentPath : string)
    (threshold : number) (baselineMeta currentMeta : Metadata)
    (result : ComparisonResult) (written : Writes) :
  metadata (sharp baselinePath) = Some baselineMeta ->
  metadata (sharp currentPath) = Some currentMeta ->
  compareScreenshots sharp DIFF_DIR timestamp baselinePath currentPath threshold
  = Some (result, written) ->
  let same_dimensions :=
    width baselineMeta = width currentMeta /\ height baselineMeta = height currentMeta in
  (diffImagePath result <> None <-> same_dimensions /\ is_match result = false)
  /\ (diffImageData result <> None <-> same_dimensions /\ is_match result = false)
  /\ (written <> [] <-> same_dimensions /\ is_match result = false)
  /\ (~ same_dimensions -> is_match result = false).
Proof.
  intros Hb Hc. unfold compareScreenshots. rewrite Hb, Hc.
  destruct (N.eqb_spec (width baselineMeta) (width currentMeta)) as [Ew|Ew];
    destruct (N.eqb_spec (height baselineMeta) (height currentMeta)) as [Eh|Eh];
    simpl.
  2-4: intros H; injection H as <- <-; simpl;
       repeat split; try congruence; try tauto;
       intros [[? ?] _]; congruence.
  destruct (raw (sharp baselinePath)) as [bb|]; [|discriminate].
  destruct (raw (sharp currentPath)) as [cb|]; [|discriminate].
  destruct (pixelLoop (channels_or_3 baselineMeta) bb cb) as [n d].
  destruct (le (percent n (width baselineMeta * height baselineMeta)) threshold) eqn:El;
    simpl; intros H; injection H as <- <-; simpl; rewrite ?El;
    repeat split; try congruence; try tauto;
    try (intros [_ ?]; congruence); try (intros _ ?; discriminate);
    intros Hn; exfalso; apply Hn; split; assumption.
Qed.

(** The sample pair of different dimensions, evaluated. *)
Lemma compare_dimension_mismatch_sample :
  compareScreenshots Samples.store "screenshots/diffs" "t0"
    "baseline.png" "small.png" (Fin (1 # 10))
  = Some ({| is_match := false; difference := Fin 100;
             diffImagePath := None; diffImageData := None |}, []).
Proof. reflexivity. Qed.

Lemma compare_dimension_mismatch_witness :
  compareScreenshots Samples.store "screenshots/diffs" "t0"
    "baseline.png" "small.png" (Fin (1 # 10))
  = Some ({| is_match := false; difference := Fin 100;
             diffImagePath := None; diffImageData := None |}, []).
Proof.
  apply (@compare_dimension_mismatch Samples.store "screenshots/diffs" "t0"
           "baseline.png" "small.png" (Fin (1 # 10))
           {| width := 4; height := 4; channels := Some 3 |}
           {| width := 2; height := 2; channels := Some 3 |}).
  - reflexivity.
  - reflexivity.
  - left. simpl. lia.
Defined.

Lemma compare_identical_witness :
  compareScreenshots Samples.store "screenshots/diffs" "t0"
    "baseline.png" "current.png" (Fin 0)
  = Some ({| is_match := true; difference := Fin 0;
             diffImagePath := None; diffImageData := None |}, []).
Proof.
  apply (@compare_identical Samples.store "screenshots/diffs" "t0"
           "baseline.png" "current.png" (Fin 0)
           {| width := 4; height := 4; channels := Some 3 |}
           {| width := 4; height := 4; channels := Some 3 |}
           (Samples.red_pixels 4)).
  - reflexivity.
  - reflexivity.
  - reflexivity.
  - reflexivity.
  - reflexivity.
  - reflexivity.
  - simpl. lia.
  - simpl. lia.
  - simpl. apply Qle_refl.
Defined.

(** One pixel out of sixteen differs: 6.25 percent, and a diff image whose
    first pixel is painted red. *)
Example compare_one_blue_pixel :
  compareScreenshots Samples.store "screenshots/diffs" "t0"
    "baseline.png" "blue.png" (Fin 0)
  = Some ({| is_match := false; difference := Fin (25 # 4);
             diffImagePath := Some "screenshots/diffs/diff_t0.png"%string;
             diffImageData :=
               Some {| raw_width := 4; raw_height := 4; raw_channels := 3;
                       raw_data := Samples.red_pixels 4 |} |},
          [("screenshots/diffs/diff_t0.png"%string,
            {| raw_width := 4; raw_height := 4; raw_channels := 3;
               raw_data := Samples.red_pixels 4 |})]).
Proof. vm_compute. reflexivity. Qed.

(** C8 as stated fails: on a dimension mismatch [match] is false and no
    diff image is produced. *)
Lemma compare_diff_image_iff_match_false_fails :
  ~ (forall (sharp : string -> Sharp) (DIFF_DIR timestamp baselinePath currentPath : string)
            (threshold : number) (result : ComparisonResult) (written : Writes),
        compareScreenshots sharp DIFF_DIR timestamp baselinePath currentPath threshold
        = Some (result, written) ->
        (diffImagePath result <> None /\ diffImageData result <> None
         <-> is_match result = false)).
Proof.
  intros H.
  specialize (H Samples.store "screenshots/diffs"%string "t0"%string
                "baseline.png"%string "small.png"%string (Fin (1 # 10))
                _ _ compare_dimension_mismatch_sample).
  simpl in H. destruct H as [_ H].
  destruct (H eq_refl) as [Hpath _]. apply Hpath. reflexivity.
Qed.

Lemma compare_diff_image_iff_witness :
  (diffImagePath
     {| is_match := false; difference := Fin (25 # 4);
        diffImagePath := Some "screenshots/diffs/diff_t0.png"%string;
        diffImageData :=
          Some {| raw_width := 4; raw_height := 4; raw_channels := 3;
                  raw_data := Samples.red_pixels 4 |} |} <> None
   <-> (4 = 4 /\ 4 = 4) /\ false = false).
Proof.
  pose proof (@compare_diff_image_iff Samples.store "screenshots/diffs"%string
                "t0"%string "baseline.png"%string "blue.png"%string (Fin 0)
                {| width := 4; height := 4; channels := Some 3 |}
                {| width := 4; height := 4; channels := Some 3 |}
                _ _ eq_refl eq_refl compare_one_blue_pixel) as H.
  exact (proj1 H).
Defined.

End CompareFacts.

(* ================================================================== *)
(** ** Properties of the error aggregator *)

Module AggregatorFacts.
Import Text Pattern Aggregator Observation.

Local Open Scope agg_scope.

(** *** Reasoning about computations *)

Section Preserved.

(** A relation between the world before and the world after that is
    reflexive and transitive is kept by a computation as soon as each
    of its steps keeps it. *)
Variable P : World -> World -> Prop.
Hypothesis P_refl : forall w, P w w.
Hypothesis P_trans : forall a b c, P a b -> P b c -> P a c.

Lemma preserves_ret {A : Type} (a : A) : preserves P (ret a).
Proof. intros w. apply P_refl. Qed.

Lemma preserves_lift {A : Type} (o : Outcome A) : preserves P (lift o).
Proof. intros w. apply P_refl. Qed.

Lemma preserves_this : preserves P this.
Proof. intros w. apply P_refl. Qed.

Lemma preserves_Date_now : preserves P Date_now.
Proof. intros w. apply P_refl. Qed.

Lemma preserves_bind {A B : Type} (m : M A) (k : A -> M B) :
  preserves P m -> (forall a, preserves P (k a)) -> preserves P (bind m k).
Proof.
  intros Hm Hk w. unfold after, bind.
  specialize (Hm w). unfold after in Hm.
  destruct (m w) as [[a|r] w1]; simpl in *.
  - apply P_trans with w1; [exact Hm | apply (Hk a w1)].
  - exact Hm.
Qed.

Lemma preserves_try_catch {A : Type} (m : M A) (h : string -> M A) :
  preserves P m -> (forall r, preserves P (h r)) -> preserves P (try_catch m h).
Proof.
  intros Hm Hh w. unfold after, try_catch.
  specialize (Hm w). unfold after in Hm.
  destruct (m w) as [[a|r] w1]; simpl in *.
  - exact Hm.
  - apply P_trans with w1; [exact Hm | apply (Hh r w1)].
Qed.

Lemma preserves_try_finally {A : Type} (m : M A) (c : M unit) :
  preserves P m -> preserves P c -> preserves P (try_finally m c).
Proof.
  intros Hm Hc w. unfold after, try_finally.
  specialize (Hm w). unfold after in Hm.
  destruct (m w) as [res w1]; simpl in *.
  specialize (Hc w1). unfold after in Hc.
  destruct (c w1) as [[u|r] w2]; simpl in *;
    apply P_trans with w1; assumption.
Qed.

Lemma preserves_for_each {A : Type} (xs : list A) (body : A -> M unit) :
  (forall x, preserves P (body x)) -> preserves P (for_each xs body).
Proof.
  intros Hb. induction xs as [|x rest IH]; simpl.
  - apply preserves_ret.
  - apply preserves_bind; [apply Hb | intros _; exact IH].
Qed.

End Preserved.

Lemma returns_ret {A : Type} (a : A) : returns (ret a).
Proof. intros w. exists a. reflexivity. Qed.

Lemma returns_this : returns this.
Proof. intros w. eexists. reflexivity. Qed.

Lemma returns_Date_now : returns Date_now.
Proof. intros w. eexists. reflexivity. Qed.

Lemma returns_assign f : returns (assign f).
Proof. intros w. eexists. reflexivity. Qed.

Lemma returns_console_log line : returns (console_log line).
Proof. intros w. eexists. reflexivity. Qed.

Lemma returns_advance_clock t : returns (advance_clock t).
Proof. intros w. eexists. reflexivity. Qed.

Lemma returns_bind {A B : Type} (m : M A) (k : A -> M B) :
  returns m -> (forall a, returns (k a)) -> returns (bind m k).
Proof.
  intros Hm Hk w. unfold bind.
  destruct (Hm w) as [a Ha].
  destruct (m w) as [[a'|r] w1]; simpl in Ha; [|discriminate].
  apply Hk.
Qed.

(** A handler that returns makes the whole [try ... catch] return. *)
Lemma returns_try_catch {A : Type} (m : M A) (h : string -> M A) :
  (forall r, returns (h r)) -> returns (try_catch m h).
Proof.
  intros Hh w. unfold try_catch.
  destruct (m w) as [[a|r] w1]; simpl.
  - exists a. reflexivity.
  - apply Hh.
Qed.

Lemma returns_try_finally {A : Type} (m : M A) (c : M unit) :
  returns m -> returns c -> returns (try_finally m c).
Proof.
  intros Hm Hc w. unfold try_finally.
  destruct (Hm w) as [a Ha].
  destruct (m w) as [res w1]; simpl in Ha. subst res.
  destruct (Hc w1) as [u Hu].
  destruct (c w1) as [[u'|r] w2]; simpl in Hu; [|discriminate].
  exists a. reflexivity.
Qed.

Lemma returns_for_each {A : Type} (xs : list A) (body : A -> M unit) :
  (forall x, returns (body x)) -> returns (for_each xs body).
Proof.
  intros Hb. induction xs as [|x rest IH]; simpl.
  - apply returns_ret.
  - apply returns_bind; [apply Hb | intros _; exact IH].
Qed.

(** The sink swallows the failure of its transport. *)
Lemma returns_sendWebGLNotification n : returns (sendWebGLNotification n).
Proof.
  intros w. unfold sendWebGLNotification, try_catch, server_notification.
  destruct (transport w) as [|[] rest]; simpl; eexists; reflexivity.
Qed.

Create HintDb returns discriminated.

#[local] Hint Resolve returns_this returns_Date_now returns_assign
  returns_console_log returns_advance_clock returns_sendWebGLNotification : returns.

(** Walks through the binds and the tests of a method. *)
Ltac walk bind_lemma leaf :=
  repeat first
    [ solve [leaf]
    | apply bind_lemma; [ | intros ? ]
    | match goal with
      | |- _ (if ?c then _ else _) => destruct c
      | |- _ (match ?x with _ => _ end) => destruct x
      end ].

Ltac returns_walk :=
  walk (@returns_bind) ltac:(first [apply returns_ret | auto with returns]).

Lemma returns_processBatch : returns processBatch.
Proof.
  unfold processBatch. returns_walk.
  apply returns_try_finally; [|auto with returns].
  apply returns_try_catch. intros r. auto with returns.
Qed.

#[local] Hint Resolve returns_processBatch : returns.

Lemma returns_sendFinalSummary : returns sendFinalSummary.
Proof. unfold sendFinalSummary. returns_walk. Qed.

Lemma returns_startBatchTimer : returns startBatchTimer.
Proof. unfold startBatchTimer. returns_walk. Qed.

#[local] Hint Resolve returns_sendFinalSummary returns_startBatchTimer : returns.

Lemma returns_start : returns start.
Proof. unfold start. returns_walk. Qed.

Lemma returns_stop : returns stop.
Proof. unfold stop. returns_walk. Qed.

#[local] Hint Resolve returns_start returns_stop : returns.

Lemma returns_addError error : returns (addError error).
Proof. unfold addError. returns_walk. Qed.

Lemma returns_handle ev : returns (handle ev).
Proof.
  destruct ev; simpl; unfold destroy, collectionTimer_callback, batchTimer_callback;
    try solve [auto with returns | apply returns_addError]; returns_walk.
Qed.

Lemma returns_run events : returns (run events).
Proof.
  unfold run. apply returns_for_each. intros [t ev]. unfold at_time. simpl.
  apply returns_bind; [auto with returns | intros _; apply returns_handle].
Qed.

(** *** The aggregator does not depend on the transport *)

Lemma robust_ret {A : Type} (a : A) : robust (ret a).
Proof. intros w1 w2 H. split; [reflexivity | exact H]. Qed.

Lemma robust_lift {A : Type} (o : Outcome A) : robust (lift o).
Proof. intros w1 w2 H. split; [reflexivity | exact H]. Qed.

Lemma robust_this : robust this.
Proof.
  intros w1 w2 [Hi Hc]. split; [|split; assumption].
  unfold this; simpl. rewrite Hi. reflexivity.
Qed.

Lemma robust_Date_now : robust Date_now.
Proof.
  intros w1 w2 [Hi Hc]. split; [|split; assumption].
  unfold Date_now; simpl. rewrite Hc. reflexivity.
Qed.

Lemma robust_assign f : robust (assign f).
Proof.
  intros w1 w2 [Hi Hc]. split; [reflexivity|].
  split; unfold after, assign; simpl; congruence.
Qed.

Lemma robust_console_log line : robust (console_log line).
Proof. intros w1 w2 [Hi Hc]. split; [reflexivity | split; assumption]. Qed.

Lemma robust_advance_clock t : robust (advance_clock t).
Proof.
  intros w1 w2 [Hi Hc]. split; [reflexivity|].
  split; unfold after, advance_clock; simpl; congruence.
Qed.

Lemma robust_bind {A B : Type} (m : M A) (k : A -> M B) :
  robust m -> (forall a, robust (k a)) -> robust (bind m k).
Proof.
  intros Hm Hk w1 w2 H. unfold after, bind.
  destruct (Hm w1 w2 H) as [Ho Hs]. unfold after in Hs.
  destruct (m w1) as [[a1|r1] u1]; destruct (m w2) as [[a2|r2] u2];
    simpl in *; try discriminate.
  - injection Ho as <-. apply (Hk a1 u1 u2 Hs).
  - injection Ho as <-. split; [reflexivity | assumption].
Qed.

Lemma robust_try_catch {A : Type} (m : M A) (h : string -> M A) :
  robust m -> (forall r, robust (h r)) -> robust (try_catch m h).
Proof.
  intros Hm Hh w1 w2 H. unfold after, try_catch.
  destruct (Hm w1 w2 H) as [Ho Hs]. unfold after in Hs.
  destruct (m w1) as [[a1|r1] u1]; destruct (m w2) as [[a2|r2] u2];
    simpl in *; try discriminate.
  - split; assumption.
  - injection Ho as <-. apply (Hh r1 u1 u2 Hs).
Qed.

Lemma robust_try_finally {A : Type} (m : M A) (c : M unit) :
  robust m -> robust c -> robust (try_finally m c).
Proof.
  intros Hm Hc w1 w2 H. unfold after, try_finally.
  destruct (Hm w1 w2 H) as [Ho Hs]. unfold after in Hs.
  destruct (m w1) as [o1 u1]; destruct (m w2) as [o2 u2]; simpl in *. subst o2.
  destruct (Hc u1 u2 Hs) as [Ho' Hs']. unfold after in Hs'.
  destruct (c u1) as [[x1|r1] v1]; destruct (c u2) as [[x2|r2] v2];
    simpl in *; try discriminate; split; try assumption; try reflexivity.
  congruence.
Qed.

Lemma robust_for_each {A : Type} (xs : list A) (body : A -> M unit) :
  (forall x, robust (body x)) -> robust (for_each xs body).
Proof.
  intros Hb. induction xs as [|x rest IH]; simpl.
  - apply robust_ret.
  - apply robust_bind; [apply Hb | intros _; exact IH].
Qed.

(** The sink hides from its caller whether the transport failed. *)
Lemma robust_sendWebGLNotification n : robust (sendWebGLNotification n).
Proof.
  intros w1 w2 [Hi Hc].
  unfold after, sendWebGLNotification, try_catch, server_notification.
  destruct (transport w1) as [|[] r1]; destruct (transport w2) as [|[] r2];
    simpl; repeat split; assumption.
Qed.

Create HintDb robust discriminated.

#[local] Hint Resolve robust_this robust_Date_now robust_assign robust_lift
  robust_console_log robust_advance_clock robust_sendWebGLNotification : robust.

Ltac robust_walk :=
  walk (@robust_bind) ltac:(first [apply robust_ret | auto with robust]).

Lemma robust_sendAggregatedNotification key batch :
  robust (sendAggregatedNotification key batch).
Proof. unfold sendAggregatedNotification. robust_walk. Qed.

#[local] Hint Resolve robust_sendAggregatedNotification : robust.

Lemma robust_processBatch : robust processBatch.
Proof.
  unfold processBatch. robust_walk.
  apply robust_try_finally; [|auto with robust].
  apply robust_try_catch; [|intros r; auto with robust].
  apply robust_for_each. intros [k b]. auto with robust.
Qed.

#[local] Hint Resolve robust_processBatch : robust.

Lemma robust_sendFinalSummary : robust sendFinalSummary.
Proof. unfold sendFinalSummary. robust_walk. Qed.

Lemma robust_startBatchTimer : robust startBatchTimer.
Proof. unfold startBatchTimer. robust_walk. Qed.

#[local] Hint Resolve robust_sendFinalSummary robust_startBatchTimer : robust.

Lemma robust_start : robust start.
Proof. unfold start. robust_walk. Qed.

Lemma robust_stop : robust stop.
Proof. unfold stop. robust_walk. Qed.

#[local] Hint Resolve robust_start robust_stop : robust.

Lemma robust_addError error : robust (addError error).
Proof. unfold addError. robust_walk. Qed.

Lemma robust_handle ev : robust (handle ev).
Proof.
  destruct ev; simpl; unfold destroy, collectionTimer_callback, batchTimer_callback;
    try solve [auto with robust | apply robust_addError]; robust_walk.
Qed.

Lemma robust_run events : robust (run events).
Proof.
  unfold run. apply robust_for_each. intros [t ev]. unfold at_time. simpl.
  apply robust_bind; [auto with robust | intros _; apply robust_handle].
Qed.

(** *** Every failed emission leaves a line on the console *)

Lemma balanced_refl w : balanced w w.
Proof. unfold balanced. lia. Qed.

Lemma balanced_trans a b c : balanced a b -> balanced b c -> balanced a c.
Proof. unfold balanced. lia. Qed.

Lemma logs_failures_bind {A B : Type} (m : M A) (k : A -> M B) :
  logs_failures m -> (forall a, logs_failures (k a)) -> logs_failures (bind m k).
Proof. apply preserves_bind. exact balanced_trans. Qed.

Lemma logs_failures_ret {A : Type} (a : A) : logs_failures (ret a).
Proof. intros w. apply balanced_refl. Qed.

Lemma logs_failures_lift {A : Type} (o : Outcome A) : logs_failures (lift o).
Proof. intros w. apply balanced_refl. Qed.

Lemma logs_failures_this : logs_failures this.
Proof. intros w. apply balanced_refl. Qed.

Lemma logs_failures_Date_now : logs_failures Date_now.
Proof. intros w. apply balanced_refl. Qed.

Lemma logs_failures_assign f : logs_failures (assign f).
Proof. intros w. unfold balanced, after, assign; simpl. lia. Qed.

Lemma logs_failures_advance_clock t : logs_failures (advance_clock t).
Proof. intros w. unfold balanced, after, advance_clock; simpl. lia. Qed.

Lemma failure_lines_app l1 l2 :
  failure_lines (l1 ++ l2) = (failure_lines l1 + failure_lines l2)%nat.
Proof. unfold failure_lines. rewrite filter_app, length_app. reflexivity. Qed.

Lemma failed_sends_app l1 l2 :
  failed_sends (l1 ++ l2) = (failed_sends l1 + failed_sends l2)%nat.
Proof. unfold failed_sends. rewrite filter_app, length_app. reflexivity. Qed.

(** A line of the aggregator itself is not a failure line. *)
Lemma logs_failures_console_log line :
  is_failure_line line = false -> logs_failures (console_log line).
Proof.
  intros Hl w. unfold balanced, after, console_log; simpl.
  rewrite failure_lines_app. unfold failure_lines at 2. simpl. rewrite Hl. simpl. lia.
Qed.

Lemma logs_failures_sendWebGLNotification n : logs_failures (sendWebGLNotification n).
Proof.
  intros w. unfold balanced, after, sendWebGLNotification, try_catch,
    server_notification, console_log.
  destruct (transport w) as [|[] rest]; simpl;
    rewrite ?failure_lines_app, ?failed_sends_app;
    unfold failure_lines, failed_sends; simpl; lia.
Qed.

Create HintDb logs discriminated.

#[local] Hint Resolve logs_failures_this logs_failures_Date_now logs_failures_assign
  logs_failures_lift logs_failures_advance_clock
  logs_failures_sendWebGLNotification : logs.

Ltac logs_walk :=
  walk (@logs_failures_bind)
       ltac:(first [ apply logs_failures_ret
                   | apply logs_failures_console_log; reflexivity
                   | auto with logs ]).

Lemma logs_failures_sendAggregatedNotification key batch :
  logs_failures (sendAggregatedNotification key batch).
Proof. unfold sendAggregatedNotification. logs_walk. Qed.

#[local] Hint Resolve logs_failures_sendAggregatedNotification : logs.

Lemma logs_failures_processBatch : logs_failures processBatch.
Proof.
  unfold processBatch. logs_walk.
  apply preserves_try_finally;
    [exact balanced_trans | | apply logs_failures_assign].
  apply preserves_try_catch; [exact balanced_trans | |].
  - apply preserves_for_each; [exact balanced_refl | exact balanced_trans |].
    intros [k b]. apply logs_failures_sendAggregatedNotification.
  - intros r. apply logs_failures_console_log. reflexivity.
Qed.

#[local] Hint Resolve logs_failures_processBatch : logs.

Lemma logs_failures_sendFinalSummary : logs_failures sendFinalSummary.
Proof. unfold sendFinalSummary. logs_walk. Qed.

Lemma logs_failures_startBatchTimer : logs_failures startBatchTimer.
Proof. unfold startBatchTimer. logs_walk. Qed.

#[local] Hint Resolve logs_failures_sendFinalSummary logs_failures_startBatchTimer : logs.

Lemma logs_failures_start : logs_failures start.
Proof. unfold start. logs_walk. Qed.

Lemma logs_failures_stop : logs_failures stop.
Proof. unfold stop. logs_walk. Qed.

#[local] Hint Resolve logs_failures_start logs_failures_stop : logs.

Lemma logs_failures_addError error : logs_failures (addError error).
Proof. unfold addError. logs_walk. Qed.

Lemma logs_failures_handle ev : logs_failures (handle ev).
Proof.
  destruct ev; simpl; unfold destroy, collectionTimer_callback, batchTimer_callback;
    try solve [auto with logs | apply logs_failures_addError]; logs_walk.
Qed.

Lemma logs_failures_run events : logs_failures (run events).
Proof.
  unfold run. apply preserves_for_each; [exact balanced_refl | exact balanced_trans |].
  intros [t ev]. unfold at_time. simpl.
  apply logs_failures_bind; [auto with logs | intros _; apply logs_failures_handle].
Qed.

(** C9. A failure of the transport under any emission (an aggregated
    notification of a flush, or the session summary) is caught by the
    sink and leaves a line on the console: no public method and no timer
    callback throws, a whole run of the host returns, the aggregator ends
    every run in the state it would have without any failure, and the
    failure lines printed match the emissions refused. *)
Theorem sink_failure_is_contained (events : list (Z * Event)) (ev : Event) (w : World) :
  (exists u, fst (handle ev w) = Returned u)
  /\ (exists u, fst (run events w) = Returned u)
  /\ instance (after (handle ev) w) = instance (after (handle ev) (reliable w))
  /\ instance (after (run events) w) = instance (after (run events) (reliable w))
  /\ balanced w (after (handle ev) w)
  /\ balanced w (after (run events) w).
Proof.
  assert (Hsame : same_aggregator w (reliable w)) by (split; reflexivity).
  split; [apply returns_handle|].
  split; [apply returns_run|].
  split; [apply robust_handle; exact Hsame|].
  split; [apply robust_run; exact Hsame|].
  split; [apply logs_failures_handle | apply logs_failures_run].
Qed.

(** Every emission of a sample run is refused, and the run goes through:
    both refusals are on the console. *)
Example refused_emissions_are_logged :
  let w := after (run (Samples.burst_then_tick ++ [(2000%Z, call_stop)]))
                 (new_world default_config 0 [false; false]) in
  map snd (sent w) = [false; false]
  /\ failure_lines (console w) = 2%nat
  /\ isActive (instance w) = false.
Proof. vm_compute. repeat split; reflexivity. Qed.

(** *** The counter *)

Lemma same_total_refl w : same_total w w.
Proof. reflexivity. Qed.

Lemma same_total_trans a b c : same_total a b -> same_total b c -> same_total a c.
Proof. unfold same_total. congruence. Qed.

Lemma keeps_total_bind {A B : Type} (m : M A) (k : A -> M B) :
  keeps_total m -> (forall a, keeps_total (k a)) -> keeps_total (bind m k).
Proof. apply preserves_bind. exact same_total_trans. Qed.

Lemma keeps_total_ret {A : Type} (a : A) : keeps_total (ret a).
Proof. intros w. reflexivity. Qed.

Lemma keeps_total_lift {A : Type} (o : Outcome A) : keeps_total (lift o).
Proof. intros w. reflexivity. Qed.

Lemma keeps_total_this : keeps_total this.
Proof. intros w. reflexivity. Qed.

Lemma keeps_total_Date_now : keeps_total Date_now.
Proof. intros w. reflexivity. Qed.

Lemma keeps_total_console_log line : keeps_total (console_log line).
Proof. intros w. reflexivity. Qed.

Lemma keeps_total_advance_clock t : keeps_total (advance_clock t).
Proof. intros w. reflexivity. Qed.

(** An assignment to another field keeps the counter. *)
Lemma keeps_total_assign f :
  (forall a, totalErrorCount (f a) = totalErrorCount a) -> keeps_total (assign f).
Proof. intros Hf w. unfold same_total, total, after, assign; simpl. apply Hf. Qed.

Lemma keeps_total_sendWebGLNotification n : keeps_total (sendWebGLNotification n).
Proof.
  intros w. unfold same_total, total, after, sendWebGLNotification, try_catch,
    server_notification.
  destruct (transport w) as [|[] rest]; reflexivity.
Qed.

Create HintDb total discriminated.

#[local] Hint Resolve keeps_total_this keeps_total_Date_now keeps_total_lift
  keeps_total_console_log keeps_total_advance_clock
  keeps_total_sendWebGLNotification : total.

Ltac total_walk :=
  walk (@keeps_total_bind)
       ltac:(first [ apply keeps_total_ret
                   | apply keeps_total_assign; intros ?; reflexivity
                   | auto with total ]).

Lemma keeps_total_sendAggregatedNotification key batch :
  keeps_total (sendAggregatedNotification key batch).
Proof. unfold sendAggregatedNotification. total_walk. Qed.

Lemma keeps_total_processBatch : keeps_total processBatch.
Proof.
  unfold processBatch. total_walk.
  apply preserves_try_finally;
    [exact same_total_trans | | apply keeps_total_assign; intros ?; reflexivity].
  apply preserves_try_catch; [exact same_total_trans | |].
  - apply preserves_for_each; [exact same_total_refl | exact same_total_trans |].
    intros [k b]. apply keeps_total_sendAggregatedNotification.
  - intros r. apply keeps_total_console_log.
Qed.

#[local] Hint Resolve keeps_total_processBatch : total.

Lemma keeps_total_sendFinalSummary : keeps_total sendFinalSummary.
Proof. unfold sendFinalSummary. total_walk. Qed.

Lemma keeps_total_startBatchTimer : keeps_total startBatchTimer.
Proof. unfold startBatchTimer. total_walk. Qed.

#[local] Hint Resolve keeps_total_sendFinalSummary keeps_total_startBatchTimer : total.

Lemma keeps_total_stop : keeps_total stop.
Proof. unfold stop. total_walk. Qed.

#[local] Hint Resolve keeps_total_stop : total.

(** What a bind does once its first computation has returned. *)
Lemma after_bind {A B : Type} (m : M A) (k : A -> M B) w a w1 :
  m w = (Returned a, w1) -> after (bind m k) w = after (k a) w1.
Proof. intros H. unfold after, bind. rewrite H. reflexivity. Qed.

Lemma bind_returned {A B : Type} (m : M A) (k : A -> M B) w a w1 :
  m w = (Returned a, w1) -> bind m k w = k a w1.
Proof. intros H. unfold bind. rewrite H. reflexivity. Qed.

(** [addError] on an aggregator that is not active does nothing at all. *)
Lemma addError_inactive error w :
  isActive (instance w) = false -> addError error w = (Returned tt, w).
Proof.
  intros H. unfold addError.
  rewrite (bind_returned this _ w (a := instance w) (w1 := w) eq_refl).
  rewrite H. reflexivity.
Qed.

(** [addError] on an active aggregator adds the weight of the event,
    whether the session goes on or stops. *)
Lemma addError_active_total error w :
  isActive (instance w) = true ->
  total (after (addError error) w) = (total w + errorCount_of error)%N.
Proof.
  intros H. unfold addError.
  rewrite (after_bind this _ w (a := instance w) (w1 := w) eq_refl).
  rewrite H. simpl negb. cbv iota.
  erewrite after_bind by reflexivity.
  erewrite after_bind by reflexivity.
  match goal with
  | |- total (after ?X ?w1) = _ =>
      assert (Hk : keeps_total X); [ | rewrite (Hk w1); reflexivity ]
  end.
  total_walk.
Qed.

(** [start] on an active aggregator does nothing. *)
Lemma start_active w :
  isActive (instance w) = true -> start w = (Returned tt, w).
Proof.
  intros H. unfold start.
  rewrite (bind_returned this _ w (a := instance w) (w1 := w) eq_refl).
  rewrite H. reflexivity.
Qed.

(** [start] on an aggregator that is not active opens a session: the
    counter is 0 and the aggregator is active. *)
Lemma start_inactive w :
  isActive (instance w) = false ->
  total (after start w) = 0%N /\ isActive (instance (after start w)) = true.
Proof.
  intros H. unfold start, startBatchTimer, after, total.
  unfold bind, this, assign, Date_now, console_log; simpl.
  rewrite H; simpl.
  destruct (batchTimer (instance w)); simpl; split; reflexivity.
Qed.

Lemma weights_app l1 l2 : weights (l1 ++ l2) = (weights l1 + weights l2)%N.
Proof.
  induction l1 as [|e l1 IH]; simpl.
  - reflexivity.
  - rewrite IH. lia.
Qed.

(** Every event of the host other than a [start] that opens a session
    leaves the counter where it is or moves it up. *)
Lemma handle_total_monotone ev w :
  (ev = call_start -> isActive (instance w) = true) ->
  (total w <= total (after (handle ev) w))%N.
Proof.
  intros Hstart.
  assert (Hkeep : forall m : M unit, keeps_total m -> (total w <= total (after m w))%N).
  { intros m Hm. rewrite (Hm w). lia. }
  destruct ev; simpl.
  - unfold after. rewrite (start_active w (Hstart eq_refl)). simpl. lia.
  - apply Hkeep. auto with total.
  - destruct (isActive (instance w)) eqn:Ha.
    + rewrite (addError_active_total error w Ha). lia.
    + unfold after. rewrite (addError_inactive error w Ha). simpl. lia.
  - apply Hkeep. unfold destroy. auto with total.
  - apply Hkeep. unfold batchTimer_callback. total_walk.
  - apply Hkeep. unfold collectionTimer_callback. total_walk.
Qed.

(** The counter is the weight of the ledger, along every run. *)
Lemma ledger_invariant events :
  forall w ledger,
    total w = weights ledger ->
    total (fst (run_with_ledger events w ledger))
    = weights (snd (run_with_ledger events w ledger)).
Proof.
  induction events as [|[t ev] rest IH]; intros w ledger Hinv; simpl.
  - exact Hinv.
  - apply IH. unfold at_time.
    rewrite (after_bind (advance_clock t) _ w (a := tt) (w1 := with_clock t w) eq_refl).
    set (w1 := with_clock t w).
    assert (Hinv1 : total w1 = weights ledger) by exact Hinv.
    assert (Hkeep : forall m : M unit, keeps_total m -> total (after m w1) = weights ledger).
    { intros m Hm. rewrite (Hm w1). exact Hinv1. }
    destruct ev; simpl.
    + destruct (isActive (instance w)) eqn:Ha0;
        assert (Ha : isActive (instance w1) = isActive (instance w)) by reflexivity;
        rewrite Ha0 in Ha.
      * unfold after. rewrite (start_active w1 Ha). exact Hinv1.
      * rewrite (proj1 (start_inactive w1 Ha)). reflexivity.
    + apply Hkeep. auto with total.
    + destruct (isActive (instance w)) eqn:Ha0;
        assert (Ha : isActive (instance w1) = isActive (instance w)) by reflexivity;
        rewrite Ha0 in Ha.
      * rewrite (addError_active_total error w1 Ha), weights_app, Hinv1.
        simpl. lia.
      * unfold after. rewrite (addError_inactive error w1 Ha). exact Hinv1.
    + apply Hkeep. unfold destroy. auto with total.
    + apply Hkeep. unfold batchTimer_callback. total_walk.
    + apply Hkeep. unfold collectionTimer_callback. total_walk.
Qed.

(** C3. Along every run of a new aggregator the counter
    [totalErrorCount] is the sum of the weights of the events passed to
    [addError] within the current session; an event of the host other than
    a [start] that opens a session never lowers it; and [addError] on an
    aggregator that is not active (before [start], after [stop]) leaves
    the counter, and the whole world, unchanged. *)
Theorem total_is_the_weight_of_the_session :
  (forall config t outcomes events,
      total (fst (run_with_ledger events (new_world config t outcomes) []))
      = weights (snd (run_with_ledger events (new_world config t outcomes) [])))
  /\ (forall ev w,
        (ev = call_start -> isActive (instance w) = true) ->
        (total w <= total (after (handle ev) w))%N)
  /\ (forall error w,
        isActive (instance w) = false ->
        addError error w = (Returned tt, w)
        /\ total (after (addError error) w) = total w).
Proof.
  split; [|split].
  - intros config t outcomes events. apply ledger_invariant. reflexivity.
  - exact handle_total_monotone.
  - intros error w H. unfold after. rewrite (addError_inactive error w H).
    split; reflexivity.
Qed.

Lemma total_is_the_weight_of_the_session_witness :
  total (fst (run_with_ledger Samples.two_sessions Samples.quiet_world []))
  = weights (snd (run_with_ledger Samples.two_sessions Samples.quiet_world []))
  /\ (total Samples.one_error_recorded
      <= total (after (handle call_start) Samples.one_error_recorded))%N
  /\ addError (Samples.useProgram_error 1) Samples.quiet_world
     = (Returned tt, Samples.quiet_world).
Proof.
  destruct total_is_the_weight_of_the_session as [Hsum [Hmono Hidle]].
  split; [apply (Hsum default_config 0%Z [] Samples.two_sessions)|].
  split.
  - apply Hmono. intros _. reflexivity.
  - apply (Hidle (Samples.useProgram_error 1) Samples.quiet_world). reflexivity.
Defined.

(** In the second of two sessions the counter has the weight of that
    session only. *)
Example total_of_two_sessions :
  total (after (run Samples.two_sessions) Samples.quiet_world) = 5%N
  /\ snd (run_with_ledger Samples.two_sessions Samples.quiet_world [])
     = [Samples.useProgram_error 5].
Proof. vm_compute. split; reflexivity. Qed.

(** *** Stopping *)

Lemma processBatch_skips w :
  negb (isActive (instance w)) || isProcessing (instance w)
  || (map_size (errorBatch (instance w)) =? 0)%N = true ->
  processBatch w = (Returned tt, w).
Proof.
  intros H. unfold processBatch.
  rewrite (bind_returned this _ w (a := instance w) (w1 := w) eq_refl).
  rewrite H. reflexivity.
Qed.

(** What [stop] does to an active aggregator: the flag and the timers are
    cleared, nothing else of the aggregator changes, and the only
    emission is the session summary. *)
Lemma stop_active w :
  isActive (instance w) = true ->
  exists w',
    stop w = (Returned tt, w')
    /\ instance w' = deactivated (instance w)
    /\ notifications (sent w') = notifications (sent w) ++ summary_of w.
Proof.
  intros H. unfold stop.
  rewrite (bind_returned this _ w (a := instance w) (w1 := w) eq_refl).
  rewrite H. change (negb true) with false. cbv iota.
  erewrite bind_returned by reflexivity.
  erewrite bind_returned by reflexivity.
  erewrite bind_returned by reflexivity.
  erewrite (bind_returned processBatch) by (apply processBatch_skips; reflexivity).
  unfold notifications, summary_of, deactivated.
  unfold sendFinalSummary, sendWebGLNotification, try_catch, server_notification.
  unfold bind, this, Date_now, console_log, assign. simpl.
  destruct (collectionStartTime (instance w)) as [startTime|]; simpl.
  - destruct (totalErrorCount (instance w) =? 0)%N; simpl.
    + eexists. rewrite app_nil_r. repeat split; reflexivity.
    + destruct (transport w) as [|[] rest]; simpl; eexists;
        (split; [reflexivity|]); simpl; rewrite map_app; split; reflexivity.
  - eexists. rewrite app_nil_r. repeat split; reflexivity.
Qed.

(** An aggregated notification is never of severity [info]; the session
    summary always is. *)
Lemma aggregated_severity key batch now n :
  aggregatedNotification key batch now = Returned n -> n_severity n <> sev_info.
Proof.
  unfold aggregatedNotification.
  destruct (String.eqb (key_category key) "shader").
  - destruct (errors batch) as [|first rest];
      destruct (createShaderErrorSummary _ _); intros H;
      try discriminate; injection H as <-; discriminate.
  - intros H. injection H as <-. simpl.
    destruct (100 <? totalCount batch)%N; discriminate.
Qed.

Lemma summary_severity w n : In n (summary_of w) -> n_severity n = sev_info.
Proof.
  unfold summary_of.
  destruct (collectionStartTime (instance w)); [|intros []].
  destruct (totalErrorCount (instance w) =? 0)%N; [intros []|].
  intros [<-|[]]. reflexivity.
Qed.

(** No group that is open when [stop] is called is flushed by it: the
    groups stay in [errorBatch] and none of their notifications is among
    the emissions of [stop]. *)
Lemma stop_flushes_nothing w :
  isActive (instance w) = true ->
  exists w',
    stop w = (Returned tt, w')
    /\ errorBatch (instance w') = errorBatch (instance w)
    /\ notifications (sent w') = notifications (sent w) ++ summary_of w
    /\ (errorBatch (instance w) <> [] -> ~ groups_flushed w (summary_of w)).
Proof.
  intros H. destruct (stop_active w H) as [w' [Hs [Hi Hn]]].
  exists w'. split; [exact Hs|]. split; [rewrite Hi; reflexivity|].
  split; [exact Hn|].
  intros Hopen Hflushed.
  destruct (errorBatch (instance w)) as [|[key batch] rest] eqn:E; [congruence|].
  destruct (Hflushed key batch) as [n [Hbuilt Hin]].
  - rewrite E. left. reflexivity.
  - apply (aggregated_severity _ _ _ Hbuilt). apply (summary_severity w n Hin).
Qed.

(** C1, on the code.  A session receives one error and is stopped: [stop]
    clears the flag and both timers and emits the session summary, and
    nothing else.  The open group is not flushed: it is still in
    [errorBatch] and no notification was emitted for it, because
    [processBatch] returns at once when [isActive] is false, and [stop]
    clears [isActive] before it calls [processBatch]. *)
Theorem stop_skips_the_final_flush :
  let open := after (run [(0%Z, call_start);
                          (10%Z, call_addError (Samples.useProgram_error 1))])
                    Samples.quiet_world in
  let stopped := after (at_time 20 call_stop) open in
  map fst (errorBatch (instance open)) = ["webgl:INVALID_OPERATION:useProgram"%string]
  /\ isActive (instance open) = true
  /\ isActive (instance stopped) = false
  /\ batchTimer (instance stopped) = false
  /\ collectionTimer (instance stopped) = false
  /\ notifications (sent stopped) = summary_of (with_clock 20 open)
  /\ List.length (notifications (sent stopped)) = 1%nat
  /\ errorBatch (instance stopped) = errorBatch (instance open)
  /\ ~ groups_flushed (with_clock 20 open) (notifications (sent stopped)).
Proof.
  cbv zeta.
  repeat (split; [vm_compute; reflexivity|]).
  intros Hflushed.
  set (open := after (run [(0%Z, call_start);
                           (10%Z, call_addError (Samples.useProgram_error 1))])
                     Samples.quiet_world) in *.
  assert (Hactive : isActive (instance (with_clock 20 open)) = true)
    by (vm_compute; reflexivity).
  destruct (stop_flushes_nothing (with_clock 20 open) Hactive)
    as [w' [Hs [_ [Hn Hnot]]]].
  apply Hnot.
  - vm_compute. discriminate.
  - assert (Hsame : notifications (sent (after (at_time 20 call_stop) open))
                    = summary_of (with_clock 20 open))
      by (vm_compute; reflexivity).
    rewrite Hsame in Hflushed. exact Hflushed.
Qed.

(** C2, as the code has it.  When the weight of an event takes the
    counter to [maxErrorsBeforeStop] or beyond, [addError] counts the
    weight and calls [stop] at once: when it returns the aggregator is not
    active and both timers are cleared.  The event is not recorded: every
    group of the aggregator is a group it had before the call,
    unchanged. *)
Theorem addError_at_limit_stops (error : ErrorEvent) (w : World) :
  isActive (instance w) = true ->
  (maxErrorsBeforeStop (instance w) <= total w + errorCount_of error)%N ->
  exists w',
    addError error w = (Returned tt, w')
    /\ isActive (instance w') = false
    /\ batchTimer (instance w') = false
    /\ collectionTimer (instance w') = false
    /\ total w' = (total w + errorCount_of error)%N
    /\ (forall key batch,
          map_get key (errorBatch (instance w')) = Some batch ->
          map_get key (errorBatch (instance w)) = Some batch).
Proof.
  intros H Hlimit. unfold total in Hlimit. unfold addError.
  rewrite (bind_returned this _ w (a := instance w) (w1 := w) eq_refl).
  rewrite H. change (negb true) with false. cbv iota.
  erewrite bind_returned by reflexivity.
  erewrite bind_returned by reflexivity.
  cbn [instance with_instance set_totalErrorCount maxErrorsBeforeStop totalErrorCount].
  rewrite (proj2 (N.leb_le _ _) Hlimit).
  erewrite bind_returned by reflexivity.
  match goal with
  | |- exists w', stop ?w2 = _ /\ _ =>
      assert (H2 : isActive (instance w2) = true) by exact H;
      destruct (stop_active w2 H2) as [w' [Hs [Hi _]]]
  end.
  exists w'. split; [exact Hs|].
  unfold total. rewrite Hi. simpl.
  repeat split; try reflexivity.
  intros key batch Hget. exact Hget.
Qed.

Lemma addError_at_limit_stops_witness :
  exists w',
    addError Samples.bare_drawElements_error Samples.started_at_limit_1 = (Returned tt, w')
    /\ isActive (instance w') = false
    /\ batchTimer (instance w') = false
    /\ collectionTimer (instance w') = false
    /\ total w' = (total Samples.started_at_limit_1
                   + errorCount_of Samples.bare_drawElements_error)%N
    /\ (forall key batch,
          map_get key (errorBatch (instance w')) = Some batch ->
          map_get key (errorBatch (instance Samples.started_at_limit_1)) = Some batch).
Proof.
  apply (addError_at_limit_stops Samples.bare_drawElements_error
           Samples.started_at_limit_1).
  - reflexivity.
  - vm_compute. discriminate.
Defined.

(** C2 as stated fails: the event that takes the counter to the limit is
    in no group and in no aggregated notification.  The session below
    stops at its first error; the only emission is the summary. *)
Lemma triggering_event_is_not_flushed :
  let w := after (addError Samples.bare_drawElements_error) Samples.started_at_limit_1 in
  isActive (instance w) = false
  /\ errorBatch (instance w) = []
  /\ ~ flushed_once Samples.bare_drawElements_error (notifications (sent w)).
Proof.
  cbv zeta. split; [vm_compute; reflexivity|]. split; [vm_compute; reflexivity|].
  intros [batch [now [n [before [behind [_ [Hbuilt [Hlog _]]]]]]]].
  apply (aggregated_severity _ _ _ Hbuilt).
  assert (Hin : In n (notifications
                        (sent (after (addError Samples.bare_drawElements_error)
                                     Samples.started_at_limit_1)))).
  { rewrite Hlog. apply in_or_app. right. left. reflexivity. }
  assert (Hall : forallb (fun m => match n_severity m with
                                   | sev_info => true
                                   | _ => false
                                   end)
                         (notifications
                            (sent (after (addError Samples.bare_drawElements_error)
                                         Samples.started_at_limit_1))) = true)
    by (vm_compute; reflexivity).
  pose proof (proj1 (forallb_forall _ _) Hall n Hin) as Hn. cbv beta in Hn.
  destruct (n_severity n); [discriminate Hn | discriminate Hn | reflexivity].
Qed.

(** *** Flushing *)

(** The notification of a group with at least one member can be built. *)
Lemma aggregated_returns key batch now :
  errors batch <> [] -> exists n, aggregatedNotification key batch now = Returned n.
Proof.
  intros Hne. unfold aggregatedNotification.
  destruct (String.eqb (key_category key) "shader"); [|eexists; reflexivity].
  destruct (errors batch) as [|first rest]; [congruence|].
  unfold createShaderErrorSummary.
  destruct (N.of_nat (List.length (first :: rest)) =? 1)%N; eexists; reflexivity.
Qed.

(** Sending the notification of a group appends it to the log of
    emissions and leaves the aggregator and the clock alone. *)
Lemma sendAggregatedNotification_sends key batch w n :
  aggregatedNotification key batch (clock w) = Returned n ->
  exists w' ok,
    sendAggregatedNotification key batch w = (Returned tt, w')
    /\ instance w' = instance w /\ clock w' = clock w
    /\ sent w' = sent w ++ [(n, ok)].
Proof.
  intros Hn. unfold sendAggregatedNotification.
  rewrite (bind_returned Date_now _ w (a := clock w) (w1 := w) eq_refl).
  rewrite Hn.
  rewrite (bind_returned (lift (Returned n)) _ w (a := n) (w1 := w) eq_refl).
  unfold sendWebGLNotification, try_catch, server_notification, console_log.
  destruct (transport w) as [|[] rest]; simpl; eexists; eexists;
    repeat split; reflexivity.
Qed.

(** The loop of a flush over groups that all have members: one emission
    per group, in the order of the map. *)
Lemma for_each_group_sends (groups : BatchMap) :
  groups_inhabited groups ->
  forall w,
  exists w' extra,
    for_each groups (fun entry => sendAggregatedNotification (fst entry) (snd entry)) w
    = (Returned tt, w')
    /\ instance w' = instance w /\ clock w' = clock w
    /\ sent w' = sent w ++ extra
    /\ Forall2 (fun entry e =>
                  aggregatedNotification (fst entry) (snd entry) (clock w)
                  = Returned (fst e))
               groups extra.
Proof.
  induction 1 as [|[key batch] rest Hne Hrest IH]; intros w; simpl.
  - exists w, []. rewrite app_nil_r. repeat split; constructor.
  - destruct (aggregated_returns key batch (clock w) Hne) as [n Hn].
    destruct (sendAggregatedNotification_sends key batch w Hn)
      as [w1 [ok [Hsend [Hi1 [Hc1 Hs1]]]]].
    rewrite (bind_returned _ _ w Hsend).
    destruct (IH w1) as [w' [extra [Hloop [Hi [Hc [Hs Hall]]]]]].
    exists w', ((n, ok) :: extra).
    split; [exact Hloop|].
    split; [congruence|]. split; [congruence|].
    split; [rewrite Hs, Hs1, <- app_assoc; reflexivity|].
    constructor; [exact Hn|]. rewrite <- Hc1. exact Hall.
Qed.

(** A flush of an active aggregator that is not already flushing: every
    open group is emitted once and the map of open groups is emptied. *)
Lemma processBatch_flushes w :
  isActive (instance w) = true ->
  isProcessing (instance w) = false ->
  groups_inhabited (errorBatch (instance w)) ->
  exists w' extra,
    processBatch w = (Returned tt, w')
    /\ errorBatch (instance w') = []
    /\ isProcessing (instance w') = false
    /\ sent w' = sent w ++ extra
    /\ Forall2 (fun entry e =>
                  aggregatedNotification (fst entry) (snd entry) (clock w)
                  = Returned (fst e))
               (errorBatch (instance w)) extra.
Proof.
  intros Ha Hp Hne.
  destruct (errorBatch (instance w)) as [|g rest] eqn:E.
  - exists w, []. rewrite processBatch_skips.
    + rewrite app_nil_r. repeat split; try assumption. constructor.
    + rewrite E. rewrite Ha, Hp. reflexivity.
  - unfold processBatch.
    rewrite (bind_returned this _ w (a := instance w) (w1 := w) eq_refl).
    rewrite Ha, Hp, E. change (negb true || false || _) with false. cbv iota.
    erewrite bind_returned by reflexivity.
    erewrite bind_returned by reflexivity.
    match goal with
    | |- exists w' extra, try_finally (try_catch (for_each _ ?body) _) _ ?w1 = _ /\ _ =>
        destruct (for_each_group_sends Hne w1) as [w2 [extra [Hloop [Hi [Hc [Hs Hall]]]]]]
    end.
    unfold try_finally, try_catch. rewrite Hloop. simpl.
    exists (with_instance (set_isProcessing false (instance w2)) w2), extra.
    split; [reflexivity|]. simpl. rewrite Hi. simpl.
    repeat split; try reflexivity; assumption.
Qed.

(** The key of a shader group has the category [shader], the key of a
    runtime group the category [webgl]. *)
Lemma key_category_shader rest : key_category ("shader:" ++ rest) = "shader"%string.
Proof. reflexivity. Qed.

Lemma key_category_webgl rest : key_category ("webgl:" ++ rest) = "webgl"%string.
Proof. reflexivity. Qed.

(** C10. Every notification built or emitted for a group whose signature
    begins with [shader:] has the severity [error], whatever the members
    and the total count of the group; the rule on the count (above 100
    [error], else [warning]) is the one of the groups whose signature
    begins with [webgl:].  Shader events get the first kind of signature
    and runtime events the second. *)
Theorem shader_groups_have_severity_error (rest : string) (batch : ErrorBatch) (w : World) :
  (forall n,
      aggregatedNotification ("shader:" ++ rest) batch (clock w) = Returned n ->
      n_severity n = sev_error)
  /\ (exists extra,
        sent (after (sendAggregatedNotification ("shader:" ++ rest) batch) w)
        = sent w ++ extra
        /\ Forall (fun e => n_severity (fst e) = sev_error) extra)
  /\ (exists n,
        aggregatedNotification ("webgl:" ++ rest) batch (clock w) = Returned n
        /\ n_severity n
           = if (100 <? totalCount batch)%N then sev_error else sev_warning)
  /\ (forall s, exists tail, getErrorKey (Shader s) = ("shader:" ++ tail)%string)
  /\ (forall r, exists tail, getErrorKey (Runtime r) = ("webgl:" ++ tail)%string).
Proof.
  assert (Hbuilt : forall n,
             aggregatedNotification ("shader:" ++ rest) batch (clock w) = Returned n ->
             n_severity n = sev_error).
  { intros n. unfold aggregatedNotification. rewrite key_category_shader. simpl String.eqb.
    cbv iota.
    destruct (errors batch) as [|first others];
      destruct (createShaderErrorSummary _ _); intros H;
      try discriminate; injection H as <-; reflexivity. }
  split; [exact Hbuilt|]. split; [|split; [|split]].
  - destruct (aggregatedNotification ("shader:" ++ rest) batch (clock w)) as [n|r] eqn:E.
    + destruct (sendAggregatedNotification_sends _ _ w E) as [w' [ok [Hs [_ [_ Hsent]]]]].
      exists [(n, ok)]. unfold after. rewrite Hs. split; [exact Hsent|].
      constructor; [apply Hbuilt; reflexivity | constructor].
    + exists []. unfold after, sendAggregatedNotification.
      rewrite (bind_returned Date_now _ w (a := clock w) (w1 := w) eq_refl).
      rewrite E. unfold bind, lift. simpl. rewrite app_nil_r.
      split; [reflexivity | constructor].
  - unfold aggregatedNotification. rewrite key_category_webgl.
    eexists. split; reflexivity.
  - intros s. eexists. reflexivity.
  - intros r. eexists. reflexivity.
Qed.

(** A group of two vertex shader errors: one notification, of type
    [shader_compilation] and severity [error], whose text counts 2. *)
Example vertex_group_notification :
  aggregatedNotification "shader:shader_compilation:vertex" Samples.vertex_batch 30
  = Returned
      {| n_type := webgl_error_shader_compilation;
         n_timestamp := 30;
         n_error :=
           ShaderSummary (Samples.vertex_error "ERROR: 0:1: syntax error")
             (Some ("2 vertex shader_compilation:vertex errors:" ++ nl
                      ++ "ERROR: 0:1: syntax error" ++ nl
                      ++ "ERROR: 0:7: undeclared identifier")%string);
         n_severity := sev_error |}.
Proof. vm_compute. reflexivity. Qed.

Lemma shader_groups_have_severity_error_witness :
  n_severity
    {| n_type := webgl_error_shader_compilation;
       n_timestamp := 0;
       n_error :=
         ShaderSummary (Samples.vertex_error "ERROR: 0:1: syntax error")
           (Some ("2 vertex shader_compilation:vertex errors:" ++ nl
                    ++ "ERROR: 0:1: syntax error" ++ nl
                    ++ "ERROR: 0:7: undeclared identifier")%string);
       n_severity := sev_error |}
  = sev_error.
Proof.
  apply (proj1 (shader_groups_have_severity_error "shader_compilation:vertex"
                  Samples.vertex_batch Samples.quiet_world)).
  vm_compute. reflexivity.
Defined.

(** The notification of a runtime group of signature
    [INVALID_OPERATION:useProgram] that counts more than one occurrence. *)
Lemma useProgram_group_notification batch now :
  totalCount batch <> 1%N ->
  aggregatedNotification "webgl:INVALID_OPERATION:useProgram" batch now
  = Returned (useProgram_notification (totalCount batch) now
                (if (100 <? totalCount batch)%N then sev_error else sev_warning)).
Proof.
  intros Hc. unfold aggregatedNotification, useProgram_notification.
  change (key_category "webgl:INVALID_OPERATION:useProgram") with "webgl"%string.
  change (key_errorType "webgl:INVALID_OPERATION:useProgram")
    with "INVALID_OPERATION:useProgram"%string.
  change (String.eqb "webgl" "shader") with false. cbv iota.
  unfold createWebGLErrorSummary.
  change (split ":" "INVALID_OPERATION:useProgram")
    with ["INVALID_OPERATION"%string; "useProgram"%string].
  apply N.eqb_neq in Hc. rewrite Hc. reflexivity.
Qed.

(** C5. A flush of an active aggregator whose open groups include the
    runtime group of signature [INVALID_OPERATION:useProgram] with 150
    occurrences emits one notification per open group, in the order of the
    groups; the one of that group has the severity [error] and the text
    [... (150 occurrences)].  With a count from 2 to 100 the same group
    gets the severity [warning]. *)
Theorem flush_of_150_useProgram_errors
    (w : World) (before behind : BatchMap) (batch : ErrorBatch) :
  isActive (instance w) = true ->
  isProcessing (instance w) = false ->
  errorBatch (instance w)
  = before ++ ("webgl:INVALID_OPERATION:useProgram"%string, batch) :: behind ->
  groups_inhabited (errorBatch (instance w)) ->
  totalCount batch = 150%N ->
  (exists w' first ok last,
      processBatch w = (Returned tt, w')
      /\ errorBatch (instance w') = []
      /\ sent w' = sent w ++ first
                     ++ (useProgram_notification 150 (clock w) sev_error, ok) :: last
      /\ List.length first = List.length before
      /\ List.length last = List.length behind)
  /\ (forall other now,
        (2 <= totalCount other <= 100)%N ->
        aggregatedNotification "webgl:INVALID_OPERATION:useProgram" other now
        = Returned (useProgram_notification (totalCount other) now sev_warning)).
Proof.
  intros Ha Hp Hmap Hne Hcount. split.
  - destruct (processBatch_flushes w Ha Hp Hne) as [w' [extra [Hrun [He [_ [Hs Hall]]]]]].
    rewrite Hmap in Hall.
    apply Forall2_app_inv_l in Hall.
    destruct Hall as [first [tail [Hfirst [Htail ->]]]].
    inversion Htail as [|g e gs last Hg Hlast]; subst.
    destruct e as [n ok]. simpl in Hg.
    rewrite useProgram_group_notification in Hg by (rewrite Hcount; discriminate).
    rewrite Hcount in Hg. injection Hg as <-.
    exists w', first, ok, last.
    split; [exact Hrun|]. split; [exact He|]. split; [exact Hs|].
    split; [symmetry; apply (Forall2_length Hfirst)
           | symmetry; apply (Forall2_length Hlast)].
  - intros other now [Hlo Hhi].
    rewrite useProgram_group_notification by lia.
    assert (Hw : (100 <? totalCount other)%N = false) by (apply N.ltb_ge; exact Hhi).
    rewrite Hw. reflexivity.
Qed.

Lemma flush_of_150_useProgram_errors_witness :
  (exists w' first ok last,
      processBatch Samples.burst_world = (Returned tt, w')
      /\ errorBatch (instance w') = []
      /\ sent w' = sent Samples.burst_world ++ first
                     ++ (useProgram_notification 150 (clock Samples.burst_world) sev_error,
                         ok) :: last
      /\ List.length first = List.length (@nil (string * ErrorBatch))
      /\ List.length last = List.length (@nil (string * ErrorBatch)))
  /\ (forall other now,
        (2 <= totalCount other <= 100)%N ->
        aggregatedNotification "webgl:INVALID_OPERATION:useProgram" other now
        = Returned (useProgram_notification (totalCount other) now sev_warning)).
Proof.
  apply (@flush_of_150_useProgram_errors Samples.burst_world [] [] Samples.burst_batch).
  - vm_compute. reflexivity.
  - vm_compute. reflexivity.
  - vm_compute. reflexivity.
  - unfold groups_inhabited. vm_compute. constructor; [discriminate | constructor].
  - reflexivity.
Defined.

(** The session of 150 errors, run from the start to the first tick of
    the batch timer: one notification. *)
Example burst_then_tick_sends_one :
  notifications (sent (after (run Samples.burst_then_tick) Samples.quiet_world))
  = [useProgram_notification 150 1000 sev_error].
Proof. vm_compute. reflexivity. Qed.

End AggregatorFacts.

(* ================================================================== *)
(** ** Properties of the group signatures *)

Module SignatureFacts.
Import Text Pattern Aggregator.

Local Open Scope string_scope.

(** *** Strings *)

Lemma append_assoc (a b c : string) : (a ++ b) ++ c = a ++ (b ++ c).
Proof. induction a as [|x a IH]; simpl; [reflexivity | rewrite IH; reflexivity]. Qed.

Lemma append_nil_r (a : string) : a ++ "" = a.
Proof. induction a as [|x a IH]; simpl; [reflexivity | rewrite IH; reflexivity]. Qed.

Lemma strip_prefix_sound pre : forall s r, strip_prefix pre s = Some r -> s = pre ++ r.
Proof.
  induction pre as [|a pre IH]; intros s r; simpl.
  - intros H. injection H as ->. reflexivity.
  - destruct s as [|b s]; [discriminate|].
    destruct (Ascii.eqb_spec a b) as [->|]; [|discriminate].
    intros H. rewrite (IH s r H). reflexivity.
Qed.

Lemma strip_prefix_complete pre r : strip_prefix pre (pre ++ r) = Some r.
Proof.
  induction pre as [|a pre IH]; simpl; [reflexivity|].
  rewrite Ascii.eqb_refl. exact IH.
Qed.

(** A greedy run is a prefix made of the class, followed by something
    that does not go on with the class. *)
Lemma span_sound p : forall s a b,
  span p s = (a, b) -> s = a ++ b /\ all_chars p a = true /\ stops p b = true.
Proof.
  induction s as [|c s IH]; intros a b; simpl.
  - intros H. injection H as <- <-. repeat split.
  - destruct (p c) eqn:Ec.
    + destruct (span p s) as [a' b'] eqn:Es. intros H. injection H as <- <-.
      destruct (IH a' b' eq_refl) as [-> [Ha Hb]].
      simpl. rewrite Ec, Ha. repeat split. exact Hb.
    + intros H. injection H as <- <-. simpl. rewrite Ec. repeat split.
Qed.

Lemma span_complete p a b :
  all_chars p a = true -> stops p b = true -> span p (a ++ b) = (a, b).
Proof.
  induction a as [|c a IH]; simpl; intros Ha Hb.
  - destruct b as [|d b]; simpl in *; [reflexivity|].
    apply negb_true_iff in Hb. rewrite Hb. reflexivity.
  - apply andb_true_iff in Ha. destruct Ha as [Hc Ha].
    rewrite Hc, (IH Ha Hb). reflexivity.
Qed.

Lemma span_prefix p a b :
  all_chars p a = true ->
  span p (a ++ b) = (a ++ fst (span p b), snd (span p b)).
Proof.
  induction a as [|c a IH]; simpl; intros Ha.
  - destruct (span p b). reflexivity.
  - apply andb_true_iff in Ha. destruct Ha as [Hc Ha].
    rewrite Hc, (IH Ha). reflexivity.
Qed.

(** *** The character classes *)

Ltac by_cases_on_char c :=
  destruct c as [[] [] [] [] [] [] [] []]; try reflexivity; try discriminate.

Lemma code_char_is_no_space c : is_code_char c = true -> is_space c = false.
Proof. by_cases_on_char c. Qed.

Lemma word_char_is_no_space c : is_word_char c = true -> is_space c = false.
Proof. by_cases_on_char c. Qed.

Lemma code_char_is_word_char c : is_code_char c = true -> is_word_char c = true.
Proof. by_cases_on_char c. Qed.

(** A string that begins with a character outside the class stops it. *)
Lemma stops_at_head (p q : ascii -> bool) (s rest : string) :
  (forall c, q c = true -> p c = false) ->
  all_chars q s = true -> s <> EmptyString -> stops p (s ++ rest) = true.
Proof.
  intros Hpq Hs Hne. destruct s as [|c s]; [congruence|]. simpl in *.
  apply andb_true_iff in Hs. destruct Hs as [Hc _].
  rewrite (Hpq c Hc). reflexivity.
Qed.

Lemma length_append (a b : string) :
  String.length (a ++ b) = (String.length a + String.length b)%nat.
Proof. induction a as [|x a IH]; simpl; [reflexivity | rewrite IH; reflexivity]. Qed.

(** Two ways of cutting one string: the shorter first part is a prefix of
    the longer one. *)
Lemma append_cut : forall a x b y : string,
  a ++ x = b ++ y ->
  (String.length b <= String.length a)%nat ->
  exists p, a = b ++ p /\ y = p ++ x.
Proof.
  induction a as [|c a IH]; intros x b y H Hlen.
  - destruct b as [|d b]; simpl in *; [|lia].
    exists EmptyString. split; [reflexivity | symmetry; exact H].
  - destruct b as [|d b]; simpl in *.
    + exists (String c a). split; [reflexivity | symmetry; exact H].
    + injection H as -> H.
      destruct (IH x b y H) as [p [-> ->]]; [lia|].
      exists p. split; reflexivity.
Qed.

(** *** The matcher of the code and the operation *)

Lemma match_code_operation_sound s code operation :
  match_code_operation s = Some (code, operation) ->
  exists rest, code_operation_at s code operation rest /\ stops is_word_char rest = true.
Proof.
  unfold match_code_operation.
  destruct s as [|c s1]; [discriminate|].
  destruct (Ascii.eqb_spec c ":") as [->|]; [|discriminate].
  destruct (span is_space s1) as [space1 s2] eqn:E1.
  destruct (span is_code_char s2) as [code' s3] eqn:E2.
  destruct code' as [|k code']; [discriminate|].
  destruct s3 as [|c' s4]; [discriminate|].
  destruct (Ascii.eqb_spec c' ":") as [->|]; [|discriminate].
  destruct (span is_space s4) as [space2 s5] eqn:E3.
  destruct (span is_word_char s5) as [operation' rest] eqn:E4.
  destruct operation' as [|o operation']; [discriminate|].
  intros H. injection H as <- <-.
  apply span_sound in E1, E2, E3, E4.
  destruct E1 as [-> [H1 _]]. destruct E2 as [-> [H2 _]].
  destruct E3 as [-> [H3 _]]. destruct E4 as [-> [H4 Hstop]].
  exists rest. split; [|exact Hstop].
  exists space1, space2. repeat split; try assumption; try discriminate.
Qed.

Lemma match_code_operation_complete s code operation rest :
  code_operation_at s code operation rest ->
  exists operation', match_code_operation s = Some (code, operation').
Proof.
  intros [space1 [space2 [-> [H1 [H2 [Hc [H3 [H4 Ho]]]]]]]].
  unfold match_code_operation. simpl append.
  change (Ascii.eqb ":" ":") with true. cbv iota.
  rewrite (span_complete is_space space1 _ H1)
    by (apply (stops_at_head is_space is_code_char);
        [exact code_char_is_no_space | exact H2 | exact Hc]).
  rewrite (span_complete is_code_char code _ H2) by reflexivity.
  destruct code as [|k code]; [congruence|]. simpl append.
  change (Ascii.eqb ":" ":") with true. cbv iota.
  rewrite (span_complete is_space space2 _ H3)
    by (apply (stops_at_head is_space is_word_char);
        [exact word_char_is_no_space | exact H4 | exact Ho]).
  rewrite (span_prefix is_word_char operation rest H4).
  destruct operation as [|o operation]; [congruence|]. simpl append.
  eexists. reflexivity.
Qed.

(** *** The lazy [.*?] *)

Lemma match_lazy_tail_eq s :
  match_lazy_tail s
  = match match_code_operation s with
    | Some r => Some r
    | None =>
        match s with
        | EmptyString => None
        | String c s' => if is_line_terminator c then None else match_lazy_tail s'
        end
    end.
Proof. destruct s; reflexivity. Qed.

Lemma match_lazy_tail_sound : forall s r,
  match_lazy_tail s = Some r ->
  exists between1 tail,
    s = between1 ++ tail
    /\ all_chars not_line_terminator between1 = true
    /\ match_code_operation tail = Some r
    /\ forall m1 m2, between1 = m1 ++ m2 -> m2 <> EmptyString ->
                     match_code_operation (m2 ++ tail) = None.
Proof.
  assert (Hhere : forall s r,
             match_code_operation s = Some r ->
             exists between1 tail,
               s = between1 ++ tail
               /\ all_chars not_line_terminator between1 = true
               /\ match_code_operation tail = Some r
               /\ forall m1 m2, between1 = m1 ++ m2 -> m2 <> EmptyString ->
                                match_code_operation (m2 ++ tail) = None).
  { intros s r E. exists EmptyString, s. repeat split; try assumption.
    intros m1 m2 Hm Hne. destruct m1; destruct m2; simpl in Hm; congruence. }
  induction s as [|c s IH]; intros r; rewrite match_lazy_tail_eq.
  - destruct (match_code_operation "") as [r'|] eqn:E; [|discriminate].
    intros H. injection H as ->. apply Hhere. exact E.
  - destruct (match_code_operation (String c s)) as [r'|] eqn:E.
    + intros H. injection H as ->. apply Hhere. exact E.
    + destruct (is_line_terminator c) eqn:El; [discriminate|].
      intros H. destruct (IH r H) as [between1 [tail [-> [Hb [Ht Hmin]]]]].
      exists (String c between1), tail.
      split; [reflexivity|]. split.
      { simpl. unfold not_line_terminator at 1. rewrite El. exact Hb. }
      split; [exact Ht|].
      intros m1 m2 Hm Hne. destruct m1 as [|d m1]; simpl in Hm.
      * subst m2. exact E.
      * injection Hm as _ Hm. apply (Hmin m1 m2 Hm Hne).
Qed.

Lemma match_lazy_tail_complete : forall between1 tail r,
  all_chars not_line_terminator between1 = true ->
  match_code_operation tail = Some r ->
  exists r', match_lazy_tail (between1 ++ tail) = Some r'.
Proof.
  induction between1 as [|c between1 IH]; intros tail r Hb Ht.
  - exists r. simpl append. rewrite match_lazy_tail_eq, Ht. reflexivity.
  - simpl append. rewrite match_lazy_tail_eq.
    destruct (match_code_operation (String c (between1 ++ tail))) as [r'|];
      [exists r'; reflexivity|].
    simpl in Hb. apply andb_true_iff in Hb. destruct Hb as [Hc Hb].
    unfold not_line_terminator in Hc. apply negb_true_iff in Hc. rewrite Hc.
    apply (IH tail r Hb Ht).
Qed.

(** *** The search for the leftmost match *)

Lemma match_webgl_eq s :
  match_webgl s
  = match match_webgl_at s with
    | Some r => Some r
    | None =>
        match s with
        | EmptyString => None
        | String _ s' => match_webgl s'
        end
    end.
Proof. destruct s; reflexivity. Qed.

Lemma match_webgl_sound : forall s r,
  match_webgl s = Some r ->
  exists before s',
    s = before ++ s'
    /\ match_webgl_at s' = Some r
    /\ forall p1 p2, before = p1 ++ p2 -> p2 <> EmptyString ->
                     match_webgl_at (p2 ++ s') = None.
Proof.
  assert (Hhere : forall s r,
             match_webgl_at s = Some r ->
             exists before s',
               s = before ++ s'
               /\ match_webgl_at s' = Some r
               /\ forall p1 p2, before = p1 ++ p2 -> p2 <> EmptyString ->
                                match_webgl_at (p2 ++ s') = None).
  { intros s r E. exists EmptyString, s. repeat split; try assumption.
    intros p1 p2 Hp Hne. destruct p1; destruct p2; simpl in Hp; congruence. }
  induction s as [|c s IH]; intros r; rewrite match_webgl_eq.
  - destruct (match_webgl_at "") as [r'|] eqn:E; [|discriminate].
    intros H. injection H as ->. apply Hhere. exact E.
  - destruct (match_webgl_at (String c s)) as [r'|] eqn:E.
    + intros H. injection H as ->. apply Hhere. exact E.
    + intros H. destruct (IH r H) as [before [s' [-> [Hs Hmin]]]].
      exists (String c before), s'.
      split; [reflexivity|]. split; [exact Hs|].
      intros p1 p2 Hp Hne. destruct p1 as [|d p1]; simpl in Hp.
      * subst p2. exact E.
      * injection Hp as _ Hp. apply (Hmin p1 p2 Hp Hne).
Qed.

Lemma match_webgl_complete : forall before s' r,
  match_webgl_at s' = Some r ->
  exists r', match_webgl (before ++ s') = Some r'.
Proof.
  induction before as [|c before IH]; intros s' r Hs.
  - exists r. simpl append. rewrite match_webgl_eq, Hs. reflexivity.
  - simpl append. rewrite match_webgl_eq.
    destruct (match_webgl_at (String c (before ++ s'))) as [r'|];
      [exists r'; reflexivity|].
    apply (IH s' r Hs).
Qed.

(** A match of the pattern at the start of [s] makes the matcher succeed
    there, and conversely. *)
Lemma match_webgl_at_complete s between1 code operation rest :
  webgl_match s EmptyString between1 code operation rest ->
  exists r, match_webgl_at s = Some r.
Proof.
  intros [tail [-> [Hb Ht]]]. unfold match_webgl_at.
  change ("" ++ "WebGL" ++ between1 ++ tail) with ("WebGL" ++ (between1 ++ tail)).
  rewrite strip_prefix_complete.
  destruct (match_code_operation_complete Ht) as [operation' Hm].
  apply (match_lazy_tail_complete between1 tail Hb Hm).
Qed.

(** What [match_webgl] returns is the first match: leftmost start,
    shortest [.*?], longest operation. *)
Lemma match_webgl_is_first message code operation :
  match_webgl message = Some (code, operation) ->
  first_webgl_match message code operation.
Proof.
  intros H.
  destruct (match_webgl_sound _ H) as [before [s' [-> [Hat Hmin1]]]].
  unfold match_webgl_at in Hat.
  destruct (strip_prefix "WebGL" s') as [s''|] eqn:Ep; [|discriminate].
  apply strip_prefix_sound in Ep. subst s'.
  destruct (match_lazy_tail_sound _ Hat) as [between1 [tail [-> [Hb [Hm Hmin2]]]]].
  destruct (match_code_operation_sound _ Hm) as [rest [Hco Hstop]].
  exists before, between1, rest.
  split; [exists tail; repeat split; assumption|].
  split; [exact Hstop|].
  intros before' between' code' operation' rest' [tail' [Heq [Hb' Hco']]].
  destruct (Nat.lt_trichotomy (String.length before) (String.length before'))
    as [Hlt|[Hlen|Hgt]].
  - left. exact Hlt.
  - right. split; [exact Hlen|].
    destruct (append_cut _ _ _ _ Heq) as [p [Hp Hy]]; [lia|].
    assert (p = EmptyString).
    { apply (f_equal String.length) in Hp. rewrite length_append in Hp.
      destruct p; [reflexivity | simpl in Hp; lia]. }
    subst p. simpl in Hy. injection Hy as Hy.
    destruct (Nat.le_gt_cases (String.length between1) (String.length between'))
      as [Hle|Hlt]; [exact Hle|exfalso].
    symmetry in Hy.
    destruct (append_cut _ _ _ _ Hy) as [p2 [Hp2 Ht2]]; [lia|].
    assert (Hne : p2 <> EmptyString).
    { intros ->. rewrite append_nil_r in Hp2. subst between1. lia. }
    pose proof (Hmin2 between' p2 Hp2 Hne) as Hnone.
    rewrite <- Ht2 in Hnone.
    destruct (match_code_operation_complete Hco') as [o' Ho']. congruence.
  - exfalso.
    destruct (append_cut _ _ _ _ Heq) as [p [Hp Hy]]; [lia|].
    assert (Hne : p <> EmptyString).
    { intros ->. rewrite append_nil_r in Hp. subst before. lia. }
    pose proof (Hmin1 before' p Hp Hne) as Hnone.
    rewrite <- Hy in Hnone.
    assert (Hm' : webgl_match ("WebGL" ++ between' ++ tail') EmptyString between'
                              code' operation' rest')
      by (exists tail'; repeat split; assumption).
    destruct (match_webgl_at_complete Hm') as [r' Hr']. congruence.
Qed.

(** The matcher finds a match whenever the message contains the pattern. *)
Lemma match_webgl_finds message code operation :
  webgl_pattern message code operation ->
  exists code' operation', match_webgl message = Some (code', operation').
Proof.
  intros [before [between1 [rest [tail [-> [Hb Hco]]]]]].
  assert (Hm : webgl_match ("WebGL" ++ between1 ++ tail) EmptyString between1
                           code operation rest)
    by (exists tail; repeat split; assumption).
  destruct (match_webgl_at_complete Hm) as [r Hr].
  destruct (match_webgl_complete before _ Hr) as [[code' operation'] Hr'].
  exists code', operation'. exact Hr'.
Qed.

(** *** The fallback *)

Lemma match_caps_first : forall message run,
  first_caps_run message run -> match_caps message = Some run.
Proof.
  intros message run [before [rest [-> [Hbefore [Hrun [Hne Hstop]]]]]].
  induction before as [|c before IH]; simpl.
  - destruct run as [|k run]; [congruence|].
    simpl in Hrun. apply andb_true_iff in Hrun. destruct Hrun as [Hk Hrun].
    simpl append. unfold match_caps. rewrite Hk.
    change (String k (run ++ rest)) with (String k run ++ rest).
    rewrite span_complete; [reflexivity | simpl; rewrite Hk, Hrun; reflexivity | exact Hstop].
  - simpl in Hbefore. apply andb_true_iff in Hbefore. destruct Hbefore as [Hc Hbefore].
    unfold not_code_char in Hc. apply negb_true_iff in Hc. rewrite Hc.
    apply (IH Hbefore).
Qed.

Lemma match_caps_none : forall message,
  all_chars not_code_char message = true -> match_caps message = None.
Proof.
  induction message as [|c message IH]; simpl; intros H; [reflexivity|].
  apply andb_true_iff in H. destruct H as [Hc H].
  unfold not_code_char in Hc. apply negb_true_iff in Hc. rewrite Hc.
  apply (IH H).
Qed.

(** C6, as the code has it.  When the message of a runtime error contains
    [WebGL], then on the same line a colon, optional white space, a code
    of capitals and underscores, a colon, optional white space and an
    operation, the signature is ["webgl:" + code + ":" + operation] for
    the first such match.  When the message contains no such match, the
    signature is ["webgl:"] followed by the first run of capitals and
    underscores of the message, and ["webgl:UNKNOWN"] when the message has
    no capital and no underscore. *)
Theorem signature_of_runtime_error (e : WebGLError) :
  ((exists code operation, webgl_pattern (we_message e) code operation) ->
   exists code operation,
     first_webgl_match (we_message e) code operation
     /\ getErrorKey (Runtime e) = "webgl:" ++ code ++ ":" ++ operation)
  /\ ((forall code operation, ~ webgl_pattern (we_message e) code operation) ->
      (forall run, first_caps_run (we_message e) run ->
                   getErrorKey (Runtime e) = "webgl:" ++ run)
      /\ (all_chars not_code_char (we_message e) = true ->
          getErrorKey (Runtime e) = "webgl:UNKNOWN")).
Proof.
  split.
  - intros [code [operation Hp]].
    destruct (match_webgl_finds Hp) as [code' [operation' Hm]].
    exists code', operation'. split; [apply match_webgl_is_first; exact Hm|].
    simpl. unfold extractErrorType. rewrite Hm. reflexivity.
  - intros Hnone.
    assert (Hm : match_webgl (we_message e) = None).
    { destruct (match_webgl (we_message e)) as [[code operation]|] eqn:E; [|reflexivity].
      exfalso. apply (Hnone code operation).
      destruct (match_webgl_is_first _ E) as [before [between1 [rest [Hw _]]]].
      exists before, between1, rest. exact Hw. }
    split.
    + intros run Hrun. simpl. unfold extractErrorType.
      rewrite Hm, (match_caps_first Hrun). reflexivity.
    + intros Hcaps. simpl. unfold extractErrorType.
      rewrite Hm, (match_caps_none _ Hcaps). reflexivity.
Qed.

Lemma signature_of_runtime_error_witness :
  exists code operation,
    first_webgl_match "WebGL: INVALID_OPERATION: useProgram: program not valid"
                      code operation
    /\ getErrorKey (Samples.useProgram_error 1) = "webgl:" ++ code ++ ":" ++ operation.
Proof.
  apply (proj1 (signature_of_runtime_error
                  {| we_id := "8f14e45fceea167a5a36dedd4bea2543";
                     we_message := "WebGL: INVALID_OPERATION: useProgram: program not valid";
                     we_timestamp := 0;
                     we_count := 1;
                     we_url := Some "http://localhost:8765/webgl-test/error";
                     we_functionName := Some "useProgram" |})).
  exists "INVALID_OPERATION", "useProgram".
  exists "", "", ": program not valid".
  exists ": INVALID_OPERATION: useProgram: program not valid".
  split; [reflexivity|]. split; [reflexivity|].
  exists " ", " ". repeat split; try reflexivity; discriminate.
Defined.

(** C6 as stated fails: the message [INVALID_OPERATION: drawElements]
    contains the code and the operation of the specification, and its
    signature is not ["webgl:INVALID_OPERATION:drawElements"]: without
    [WebGL] before them the code and the operation are not recognised, and
    the signature falls back to the first run of capitals. *)
Lemma bare_code_operation_is_not_recognised :
  code_operation_pattern "INVALID_OPERATION: drawElements"
                         "INVALID_OPERATION" "drawElements"
  /\ getErrorKey Samples.bare_drawElements_error = "webgl:INVALID_OPERATION"
  /\ getErrorKey Samples.bare_drawElements_error
     <> "webgl:" ++ "INVALID_OPERATION" ++ ":" ++ "drawElements".
Proof.
  split; [|split; [vm_compute; reflexivity | vm_compute; discriminate]].
  exists "", " ", "". split; [reflexivity|].
  split.
  { intros b c Hb. destruct b; discriminate. }
  repeat split; try reflexivity; discriminate.
Qed.

(** The messages that the injected tracking script builds have [WebGL] at
    their head and no colon before the code: their signature is that of
    the fallback, the first capital of [WebGL]. *)
Example signature_of_a_tracked_error :
  extractErrorType "WebGL Error in useProgram: INVALID_OPERATION" = "W".
Proof. vm_compute. reflexivity. Qed.

(** The lazy [.*?] runs on, past colons that no code follows, and past a
    second [WebGL], up to the first colon from which the rest matches. *)
Example signature_after_a_long_prefix :
  extractErrorType "WebGL: a: b: INVALID_ENUM : x WebGL: INVALID_VALUE:  texImage2D"
  = "INVALID_VALUE:texImage2D".
Proof. vm_compute. reflexivity. Qed.

(** The white space of the pattern includes the no-break space. *)
Example signature_after_a_no_break_space :
  extractErrorType ("WebGL:" ++ String (ascii_of_nat 160) "INVALID_OPERATION: useProgram")
  = "INVALID_OPERATION:useProgram".
Proof. vm_compute. reflexivity. Qed.

Example first_match_after_a_no_break_space :
  extractErrorType ("WebGL:" ++ String (ascii_of_nat 160) "AAA: bbb WebGL: CCC: ddd")
  = "AAA:bbb".
Proof. vm_compute. reflexivity. Qed.

End SignatureFacts.

(* ================================================================== *)
(** ** The methods of the aggregator act as the state machine *)

Module MachineFacts.
Import Text Aggregator Observation Machine Notions AggregatorFacts.

Local Open Scope agg_scope.

(** *** Composing computations that act on the aggregator *)

Lemma acts_at_ret w : acts_at (ret tt) w (instance w).
Proof. repeat split. Qed.

Lemma acts_at_assign f w : acts_at (assign f) w (f (instance w)).
Proof. repeat split. Qed.

Lemma acts_at_console_log line w : acts_at (console_log line) w (instance w).
Proof. repeat split. Qed.

Lemma acts_at_sendWebGLNotification n w :
  acts_at (sendWebGLNotification n) w (instance w).
Proof.
  unfold acts_at, after, sendWebGLNotification, try_catch, server_notification.
  destruct (transport w) as [|[] rest]; repeat split.
Qed.

Lemma acts_at_this (k : ErrorAggregator -> M unit) w a' :
  acts_at (k (instance w)) w a' -> acts_at (bind this k) w a'.
Proof. intros H. exact H. Qed.

Lemma acts_at_Date_now (k : Z -> M unit) w a' :
  acts_at (k (clock w)) w a' -> acts_at (bind Date_now k) w a'.
Proof. intros H. exact H. Qed.

Lemma acts_at_seq (m k : M unit) w a1 a' :
  acts_at m w a1 ->
  (forall w1, instance w1 = a1 -> clock w1 = clock w -> acts_at k w1 a') ->
  acts_at (bind m (fun _ => k)) w a'.
Proof.
  intros [Hr [Hi Hc]] Hk. unfold acts_at, after, bind in *.
  destruct (m w) as [o w1]. simpl in *. subst o.
  destruct (Hk w1 Hi Hc) as [Hr' [Hi' Hc']].
  repeat split; try assumption. congruence.
Qed.

(** *** Emissions leave the aggregator and the clock alone *)

Lemma framed_refl w : framed w w.
Proof. split; reflexivity. Qed.

Lemma framed_trans a b c : framed a b -> framed b c -> framed a c.
Proof. unfold framed. intros [? ?] [? ?]. split; congruence. Qed.

Lemma framed_sendWebGLNotification n : preserves framed (sendWebGLNotification n).
Proof.
  intros w. unfold framed, after, sendWebGLNotification, try_catch, server_notification.
  destruct (transport w) as [|[] rest]; split; reflexivity.
Qed.

Lemma framed_sendAggregatedNotification key batch :
  preserves framed (sendAggregatedNotification key batch).
Proof.
  unfold sendAggregatedNotification.
  apply preserves_bind; [exact framed_trans | intros w; apply framed_refl |].
  intros now. apply preserves_bind; [exact framed_trans | intros w; apply framed_refl |].
  intros n. apply framed_sendWebGLNotification.
Qed.

(** The body of a flush, whatever the groups are and whatever the
    transport does: it returns, and only [isProcessing] is assigned. *)
Lemma acts_at_flush_body (groups : BatchMap) f w :
  acts_at
    (try_finally
       (try_catch
          (for_each groups
             (fun entry => sendAggregatedNotification (fst entry) (snd entry)))
          (fun error => console_log ("Failed to process error batch: " ++ error)))
       (assign f))
    w (f (instance w)).
Proof.
  set (loop := try_catch _ _).
  assert (Hret : returns loop).
  { apply returns_try_catch. intros r. apply returns_console_log. }
  assert (Hframe : preserves framed loop).
  { apply preserves_try_catch; [exact framed_trans | |].
    - apply preserves_for_each; [exact framed_refl | exact framed_trans |].
      intros [k b]. apply framed_sendAggregatedNotification.
    - intros r w0. split; reflexivity. }
  destruct (Hret w) as [u Hu]. destruct (Hframe w) as [Hi Hc].
  unfold acts_at, after, try_finally, assign in *.
  destruct (loop w) as [o w1]. simpl in *. subst o. destruct u.
  repeat split; simpl; congruence.
Qed.

(** *** The methods *)

Lemma acts_at_processBatch w : acts_at processBatch w (flush (instance w)).
Proof.
  unfold processBatch, flush. apply acts_at_this.
  destruct (negb (isActive (instance w)) || isProcessing (instance w)
            || (map_size (errorBatch (instance w)) =? 0)%N).
  - apply acts_at_ret.
  - eapply acts_at_seq; [apply acts_at_assign|]. intros w1 Hi1 Hc1.
    eapply acts_at_seq; [apply acts_at_assign|]. intros w2 Hi2 Hc2.
    pose proof (acts_at_flush_body (errorBatch (instance w))
                  (set_isProcessing false) w2) as H.
    rewrite Hi2, Hi1 in H. exact H.
Qed.

Lemma acts_at_sendFinalSummary w : acts_at sendFinalSummary w (instance w).
Proof.
  unfold sendFinalSummary. apply acts_at_this.
  destruct (collectionStartTime (instance w)); [|apply acts_at_ret].
  destruct (totalErrorCount (instance w) =? 0)%N; [apply acts_at_ret|].
  apply acts_at_Date_now. apply acts_at_sendWebGLNotification.
Qed.

Lemma acts_at_startBatchTimer w : acts_at startBatchTimer w (arm (instance w)).
Proof.
  unfold startBatchTimer, arm. apply acts_at_this.
  destruct (negb (isActive (instance w)) || batchTimer (instance w));
    [apply acts_at_ret | apply acts_at_assign].
Qed.

(** Rewrites the aggregator of an intermediate world to what the steps
    before made of it. *)
Ltac chain :=
  repeat match goal with
         | H : instance ?w1 = _ |- context [instance ?w1] => rewrite H
         | H : clock ?w1 = _ |- context [clock ?w1] => rewrite H
         end.

Lemma acts_at_stop w : acts_at stop w (stopped (instance w)).
Proof.
  unfold stop, stopped. apply acts_at_this.
  destruct (isActive (instance w)); simpl negb; cbv iota; [|apply acts_at_ret].
  eapply acts_at_seq; [apply acts_at_assign|]. intros w1 Hi1 Hc1.
  eapply acts_at_seq; [apply acts_at_assign|]. intros w2 Hi2 Hc2.
  eapply acts_at_seq; [apply acts_at_assign|]. intros w3 Hi3 Hc3.
  eapply acts_at_seq; [apply acts_at_processBatch|]. intros w4 Hi4 Hc4.
  eapply acts_at_seq; [apply acts_at_sendFinalSummary|]. intros w5 Hi5 Hc5.
  apply acts_at_this.
  pose proof (acts_at_console_log
                ("[ErrorAggregator] Stopped. Total errors collected: "
                   ++ show_N (totalErrorCount (instance w5))) w5) as [Hr [Hi Hc]].
  repeat split; try assumption.
  rewrite Hi, Hi5, Hi4, Hi3, Hi2, Hi1. reflexivity.
Qed.

Lemma acts_at_start w : acts_at start w (started (clock w) (instance w)).
Proof.
  unfold start, started. apply acts_at_this.
  destruct (isActive (instance w)); [apply acts_at_ret|].
  eapply acts_at_seq; [apply acts_at_assign|]. intros w1 Hi1 Hc1.
  eapply acts_at_seq; [apply acts_at_assign|]. intros w2 Hi2 Hc2.
  apply acts_at_Date_now.
  eapply acts_at_seq; [apply acts_at_assign|]. intros w3 Hi3 Hc3.
  eapply acts_at_seq; [apply acts_at_assign|]. intros w4 Hi4 Hc4.
  eapply acts_at_seq; [apply acts_at_console_log|]. intros w5 Hi5 Hc5.
  eapply acts_at_seq; [apply acts_at_startBatchTimer|]. intros w6 Hi6 Hc6.
  pose proof (acts_at_assign (set_collectionTimer true) w6) as [Hr [Hi Hc]].
  repeat split; try assumption.
  rewrite Hi, Hi6, Hi5, Hi4, Hi3, Hi2, Hi1, Hc2, Hc1. reflexivity.
Qed.

Lemma acts_at_addError error w :
  acts_at (addError error) w (added error (clock w) (instance w)).
Proof.
  unfold addError, added. apply acts_at_this.
  destruct (negb (isActive (instance w))); [apply acts_at_ret|].
  eapply acts_at_seq; [apply acts_at_assign|]. intros w1 Hi1 Hc1.
  apply acts_at_this. rewrite Hi1.
  match goal with
  | |- context [(maxErrorsBeforeStop ?a <=? totalErrorCount ?a)%N] =>
      destruct (maxErrorsBeforeStop a <=? totalErrorCount a)%N
  end.
  - eapply acts_at_seq; [apply acts_at_console_log|]. intros w2 Hi2 Hc2.
    pose proof (acts_at_stop w2) as [Hr [Hi Hc]].
    repeat split; try assumption. rewrite Hi, Hi2, Hi1. reflexivity.
  - apply acts_at_Date_now. rewrite Hc1. unfold joined.
    destruct (map_get (getErrorKey error)
                (errorBatch
                   (set_totalErrorCount
                      (totalErrorCount (instance w) + errorCount_of error)
                      (instance w)))) as [existing|];
      (eapply acts_at_seq; [apply acts_at_assign|]); intros w2 Hi2 Hc2;
      apply acts_at_this; rewrite Hi1 in Hi2; cbv zeta;
      rewrite Hi2;
      match goal with
      | |- acts_at (if ?c then _ else _) _ _ => destruct c
      end;
      [ pose proof (acts_at_processBatch w2) as H; rewrite Hi2 in H; exact H
      | pose proof (acts_at_ret w2) as H; rewrite Hi2 in H; exact H
      | pose proof (acts_at_processBatch w2) as H; rewrite Hi2 in H; exact H
      | pose proof (acts_at_ret w2) as H; rewrite Hi2 in H; exact H ].
Qed.

Lemma acts_at_batchTimer_callback w :
  acts_at batchTimer_callback w (ticked (instance w)).
Proof.
  unfold batchTimer_callback, ticked. apply acts_at_this.
  destruct (isActive (instance w)); [|apply acts_at_ret].
  eapply acts_at_seq; [apply acts_at_processBatch|]. intros w1 Hi1 Hc1.
  eapply acts_at_seq; [apply acts_at_assign|]. intros w2 Hi2 Hc2.
  pose proof (acts_at_startBatchTimer w2) as [Hr [Hi Hc]].
  repeat split; try assumption. rewrite Hi, Hi2, Hi1. reflexivity.
Qed.

(** Every event of the host acts on the aggregator as [step] says. *)
Lemma acts_at_handle ev w : acts_at (handle ev) w (step ev (clock w) (instance w)).
Proof.
  destruct ev; simpl.
  - apply acts_at_start.
  - apply acts_at_stop.
  - apply acts_at_addError.
  - apply acts_at_stop.
  - apply acts_at_this. destruct (batchTimer (instance w));
      [apply acts_at_batchTimer_callback | apply acts_at_ret].
  - apply acts_at_this. destruct (collectionTimer (instance w));
      [apply acts_at_stop | apply acts_at_ret].
Qed.

(** *** Runs *)

Lemma after_seq (m k : M unit) w :
  (exists u, fst (m w) = Returned u) ->
  after (bind m (fun _ => k)) w = after k (after m w).
Proof.
  intros [u Hu]. unfold after, bind.
  destruct (m w) as [o w1]. simpl in *. subst o. reflexivity.
Qed.

(** A run of the host acts on the aggregator as [steps] says. *)
Lemma run_instance events : forall w,
  instance (after (run events) w) = steps events (instance w).
Proof.
  induction events as [|[t ev] rest IH]; intros w; [reflexivity|].
  change (run ((t, ev) :: rest)) with (bind (at_time t ev) (fun _ => run rest)).
  rewrite after_seq.
  - rewrite IH. simpl steps. f_equal.
    unfold at_time.
    rewrite (after_bind (advance_clock t) _ w (a := tt) (w1 := with_clock t w) eq_refl).
    destruct (acts_at_handle ev (with_clock t w)) as [_ [Hi _]]. exact Hi.
  - unfold at_time. apply returns_bind;
      [apply returns_advance_clock | intros _; apply returns_handle].
Qed.

(** *** The map of open groups *)

Lemma map_get_in k : forall (m : BatchMap) v, map_get k m = Some v -> In (k, v) m.
Proof.
  induction m as [|[k' v'] m IH]; intros v; simpl; [discriminate|].
  destruct (String.eqb_spec k' k) as [->|].
  - intros H. injection H as ->. left. reflexivity.
  - intros H. right. apply IH. exact H.
Qed.

Lemma map_set_forall (P : string * ErrorBatch -> Prop) k v : forall m : BatchMap,
  Forall P m -> P (k, v) -> Forall P (map_set k v m).
Proof.
  induction m as [|[k' v'] m IH]; intros Hm Hv; simpl.
  - constructor; [exact Hv | constructor].
  - inversion Hm as [|x l Hx Hl]; subst.
    destruct (String.eqb_spec k' k) as [->|].
    + constructor; assumption.
    + constructor; [exact Hx | apply IH; assumption].
Qed.

Lemma map_set_keys k v : forall (m : BatchMap) x,
  In x (map fst (map_set k v m)) -> x = k \/ In x (map fst m).
Proof.
  induction m as [|[k' v'] m IH]; intros x; simpl.
  - intros [<-|[]]. left. reflexivity.
  - destruct (String.eqb_spec k' k) as [->|]; simpl.
    + intros [<-|H]; [left; reflexivity | right; right; exact H].
    + intros [<-|H]; [right; left; reflexivity|].
      destruct (IH x H) as [->|Hin]; [left; reflexivity | right; right; exact Hin].
Qed.

Lemma map_set_nodup k v : forall m : BatchMap,
  NoDup (map fst m) -> NoDup (map fst (map_set k v m)).
Proof.
  induction m as [|[k' v'] m IH]; intros Hm; simpl.
  - constructor; [intros [] | constructor].
  - inversion Hm as [|x l Hx Hl]; subst.
    destruct (String.eqb_spec k' k) as [->|Hne]; simpl.
    + constructor; assumption.
    + constructor; [|apply IH; exact Hl].
      intros Hin. destruct (map_set_keys _ _ _ _ Hin) as [->|Hin']; [congruence|].
      apply Hx. exact Hin'.
Qed.

(** Looking up a key that was just set gives what was set; the other
    keys are as before. *)
Lemma map_get_set_same k v : forall m : BatchMap, map_get k (map_set k v m) = Some v.
Proof.
  induction m as [|[k' v'] m IH]; simpl.
  - rewrite String.eqb_refl. reflexivity.
  - destruct (String.eqb_spec k' k) as [->|Hne]; simpl.
    + rewrite String.eqb_refl. reflexivity.
    + apply String.eqb_neq in Hne. rewrite Hne. exact IH.
Qed.

Lemma map_get_set_other k v k0 : forall m : BatchMap,
  k0 <> k -> map_get k0 (map_set k v m) = map_get k0 m.
Proof.
  intros m Hne. induction m as [|[k' v'] m IH]; simpl.
  - destruct (String.eqb_spec k k0); [congruence | reflexivity].
  - destruct (String.eqb_spec k' k) as [->|Hk]; simpl.
    + destruct (String.eqb_spec k k0); [congruence | reflexivity].
    + destruct (String.eqb_spec k' k0); [reflexivity | exact IH].
Qed.

Lemma map_size_zero (m : BatchMap) : (map_size m =? 0)%N = true -> m = [].
Proof.
  destruct m; [reflexivity|]. unfold map_size. simpl. discriminate.
Qed.

(** Recording an event keeps the groups sound. *)
Lemma groups_sound_joined error now (m : BatchMap) :
  groups_sound m ->
  groups_sound (map_set (getErrorKey error) (joined error now m) m).
Proof.
  intros [Hall Hnd]. split; [|apply map_set_nodup; exact Hnd].
  apply map_set_forall; [exact Hall|].
  unfold joined, group_sound.
  destruct (map_get (getErrorKey error) m) as [existing|] eqn:Eg; simpl.
  - apply map_get_in in Eg.
    pose proof (proj1 (Forall_forall _ _) Hall _ Eg) as [Hne [Hkeys Hcount]].
    simpl in *. split; [|split].
    + intros H. apply app_eq_nil in H. destruct H as [_ H]. discriminate.
    + apply Forall_app. split; [exact Hkeys | constructor; [reflexivity | constructor]].
    + rewrite weights_app, Hcount. simpl. lia.
  - split; [discriminate|]. split; [constructor; [reflexivity | constructor] | lia].
Qed.

(** *** The invariant *)

Lemma steady_new config : steady (createErrorAggregator config).
Proof.
  unfold steady, timers_follow_session, groups_sound, below_limit, groups_bounded,
    session_dated. simpl.
  repeat split; try discriminate; try (left; reflexivity); try constructor.
Qed.

Lemma flush_cases a :
  (flush a = a
   /\ (isActive a = false \/ isProcessing a = true \/ errorBatch a = []))
  \/ (isActive a = true /\ isProcessing a = false
      /\ flush a = set_isProcessing false (set_errorBatch [] (set_isProcessing true a))).
Proof.
  unfold flush.
  destruct (isActive a) eqn:Ea; simpl; [|left; split; [reflexivity | left; reflexivity]].
  destruct (isProcessing a) eqn:Ep; simpl;
    [left; split; [reflexivity | right; left; reflexivity]|].
  destruct (map_size (errorBatch a) =? 0)%N eqn:E0.
  - left. split; [reflexivity|]. right. right. apply map_size_zero. exact E0.
  - right. repeat split.
Qed.

Lemma steady_flush a : steady a -> steady (flush a).
Proof.
  intros Hs. destruct (flush_cases a) as [[-> _]|[Ha [Hp ->]]]; [exact Hs|].
  destruct Hs as [[Hb [Hc _]] [_ [Hl [_ Hd]]]].
  unfold steady, timers_follow_session, groups_sound, below_limit, groups_bounded,
    session_dated. simpl.
  repeat split; try assumption; try (left; reflexivity); try constructor.
Qed.

Lemma steady_stopped a : steady a -> steady (stopped a).
Proof.
  intros Hs. unfold stopped. destruct (isActive a) eqn:Ea; [|exact Hs].
  assert (Hf : flush (deactivated a) = deactivated a) by reflexivity.
  rewrite Hf.
  destruct Hs as [[Hb [Hc Hp]] [Hg [Hl [Hn Hd]]]].
  unfold steady, timers_follow_session, below_limit, groups_bounded, session_dated.
  simpl. repeat split; try assumption; try discriminate; try apply Hg.
Qed.

Lemma steady_started now a : steady a -> steady (started now a).
Proof.
  intros Hs. unfold started. destruct (isActive a) eqn:Ea; [exact Hs|].
  destruct Hs as [[Hb [Hc Hp]] _].
  unfold steady, timers_follow_session, groups_sound, below_limit, groups_bounded,
    session_dated, arm. simpl.
  destruct (batchTimer a); simpl;
    repeat split; try assumption; try discriminate; try congruence;
    try (left; reflexivity); try (right; reflexivity); try constructor.
Qed.

Lemma steady_added error now a : steady a -> steady (added error now a).
Proof.
  intros Hs. unfold added. destruct (isActive a) eqn:Ea; simpl negb; cbv iota;
    [|exact Hs].
  cbv zeta.
  set (a1 := set_totalErrorCount (totalErrorCount a + errorCount_of error) a).
  assert (Hs1 : timers_follow_session a1 /\ groups_sound (errorBatch a1)
                /\ groups_bounded a1 /\ session_dated a1).
  { destruct Hs as [Ht [Hg [_ [Hn Hd]]]]. repeat split; try apply Ht; try apply Hg;
      assumption. }
  destruct (maxErrorsBeforeStop a1 <=? totalErrorCount a1)%N eqn:El.
  - assert (Ha1 : isActive a1 = true) by exact Ea.
    unfold stopped. rewrite Ha1.
    assert (Hf : flush (deactivated a1) = deactivated a1) by reflexivity.
    rewrite Hf. destruct Hs1 as [[Hb [Hc Hp]] [Hg [Hn Hd]]].
    unfold steady, timers_follow_session, below_limit, groups_bounded, session_dated.
    simpl. repeat split; try assumption; try discriminate; try apply Hg.
  - set (a2 := set_errorBatch _ a1).
    assert (Hs2 : steady a2 \/
                  (timers_follow_session a2 /\ groups_sound (errorBatch a2)
                   /\ below_limit a2 /\ session_dated a2
                   /\ (maxBatchSize a2 <=? map_size (errorBatch a2))%N = true)).
    { destruct Hs1 as [Ht [Hg [Hn Hd]]].
      assert (Hg2 : groups_sound (errorBatch a2))
        by (apply groups_sound_joined; exact Hg).
      assert (Hl2 : below_limit a2).
      { intros _. left. apply N.leb_gt in El. exact El. }
      destruct (maxBatchSize a2 <=? map_size (errorBatch a2))%N eqn:Eb.
      - right. repeat split; try apply Ht; try apply Hg2; assumption.
      - left. repeat split; try apply Ht; try apply Hg2; try assumption.
        right. apply N.leb_gt in Eb. exact Eb. }
    destruct Hs2 as [Hs2|[Ht [Hg [Hl [Hd Eb]]]]].
    + destruct (_ && _); [apply steady_flush|]; exact Hs2.
    + rewrite Eb. destruct Ht as [Hb [Hc Hp]].
      assert (Hp' : isProcessing a = false) by exact Hp.
      rewrite Hp'. simpl andb. cbv iota.
      assert (Ha2 : isActive a2 = true) by exact Ea.
      destruct (flush_cases a2) as [[-> [H|[H|H]]]|[_ [_ ->]]]; try congruence.
      * repeat split; try assumption; try apply Hg. left. exact H.
      * unfold steady, timers_follow_session, groups_sound, below_limit,
          groups_bounded, session_dated. simpl.
        repeat split; try assumption; try (left; reflexivity); try constructor.
Qed.

Lemma steady_ticked a : steady a -> steady (ticked a).
Proof.
  intros Hs. unfold ticked. destruct (isActive a) eqn:Ea; [|exact Hs].
  pose proof (steady_flush Hs) as Hf.
  assert (Haf : isActive (flush a) = true).
  { destruct (flush_cases a) as [[-> _]|[_ [_ ->]]]; exact Ea. }
  destruct Hf as [[Hb [Hc Hp]] [Hg [Hl [Hn Hd]]]].
  unfold arm. simpl. rewrite Haf. simpl.
  unfold steady, timers_follow_session, below_limit, groups_bounded, session_dated.
  simpl. rewrite Haf. repeat split; try assumption; try apply Hg.
  - congruence.
  - intros _. apply Hl. exact Haf.
  - intros _. apply Hd. exact Haf.
Qed.

Lemma steady_step ev now a : steady a -> steady (step ev now a).
Proof.
  intros Hs. destruct ev; simpl.
  - apply steady_started; exact Hs.
  - apply steady_stopped; exact Hs.
  - apply steady_added; exact Hs.
  - apply steady_stopped; exact Hs.
  - destruct (batchTimer a); [apply steady_ticked|]; exact Hs.
  - destruct (collectionTimer a); [apply steady_stopped|]; exact Hs.
Qed.

Lemma steady_steps events : forall a, steady a -> steady (steps events a).
Proof.
  induction events as [|[t ev] rest IH]; intros a Hs; simpl; [exact Hs|].
  apply IH. apply steady_step. exact Hs.
Qed.

(** Every world that a run of a new aggregator ends in is steady. *)
Lemma steady_run config t outcomes events :
  steady (instance (after (run events) (new_world config t outcomes))).
Proof.
  rewrite run_instance. apply steady_steps. apply steady_new.
Qed.

(** *** What every run of a new aggregator keeps *)

(** *** The timers *)

Lemma flush_keeps_timers a :
  batchTimer (flush a) = batchTimer a
  /\ collectionTimer (flush a) = collectionTimer a
  /\ isActive (flush a) = isActive a.
Proof.
  unfold flush.
  destruct (negb (isActive a) || isProcessing a || (map_size (errorBatch a) =? 0)%N);
    repeat split.
Qed.

Lemma timers_stopped a :
  batchTimer a = isActive a /\ collectionTimer a = isActive a ->
  batchTimer (stopped a) = isActive (stopped a)
  /\ collectionTimer (stopped a) = isActive (stopped a).
Proof.
  intros H. unfold stopped. destruct (isActive a) eqn:Ea; [|rewrite ?Ea; exact H].
  destruct (flush_keeps_timers (deactivated a)) as [-> [-> ->]]. split; reflexivity.
Qed.

Lemma timers_started now a :
  batchTimer a = isActive a /\ collectionTimer a = isActive a ->
  batchTimer (started now a) = isActive (started now a)
  /\ collectionTimer (started now a) = isActive (started now a).
Proof.
  intros H. unfold started, arm. destruct (isActive a) eqn:Ea; [rewrite ?Ea; exact H|].
  simpl. destruct (batchTimer a) eqn:Eb; simpl; rewrite ?Eb; split; reflexivity.
Qed.

Lemma timers_added error now a :
  batchTimer a = isActive a /\ collectionTimer a = isActive a ->
  batchTimer (added error now a) = isActive (added error now a)
  /\ collectionTimer (added error now a) = isActive (added error now a).
Proof.
  intros H. unfold added. destruct (negb (isActive a)); [exact H|]. cbv zeta.
  match goal with
  | |- context [if ?c then stopped ?a1 else _] =>
      destruct c; [apply (timers_stopped a1); exact H|]
  end.
  match goal with
  | |- context [if ?c then flush ?a2 else ?a2] =>
      destruct c; [destruct (flush_keeps_timers a2) as [-> [-> ->]]|]; exact H
  end.
Qed.

Lemma timers_ticked a :
  batchTimer a = isActive a /\ collectionTimer a = isActive a ->
  batchTimer (ticked a) = isActive (ticked a)
  /\ collectionTimer (ticked a) = isActive (ticked a).
Proof.
  intros [Hb Hc]. unfold ticked.
  destruct (isActive a) eqn:Ea; [|rewrite ?Ea; split; assumption].
  destruct (flush_keeps_timers a) as [_ [Hfc Hfa]].
  unfold arm. simpl. rewrite Hfa, Ea. simpl. rewrite ?Hfa, ?Hfc, ?Hc, ?Ea.
  split; reflexivity.
Qed.

Lemma timers_step ev now a :
  batchTimer a = isActive a /\ collectionTimer a = isActive a ->
  batchTimer (step ev now a) = isActive (step ev now a)
  /\ collectionTimer (step ev now a) = isActive (step ev now a).
Proof.
  intros H. destruct ev; simpl.
  - apply timers_started; exact H.
  - apply timers_stopped; exact H.
  - apply timers_added; exact H.
  - apply timers_stopped; exact H.
  - destruct (batchTimer a) eqn:Eb; [apply timers_ticked|]; rewrite ?Eb; exact H.
  - destruct (collectionTimer a) eqn:Ec; [apply timers_stopped|]; rewrite ?Ec; exact H.
Qed.

(** X1. Each of the two timers is pending exactly when the session is
    active.  Every event of the host keeps this, from whatever state it
    is taken, a state in which a flush is suspended included; so it holds
    after every run of a new aggregator: [stop] leaves no timer behind,
    and the batch timer is armed again by each tick. *)
Theorem timers_are_pending_while_active :
  (forall (ev : Event) (w : World),
      batchTimer (instance w) = isActive (instance w)
      /\ collectionTimer (instance w) = isActive (instance w) ->
      batchTimer (instance (after (handle ev) w))
      = isActive (instance (after (handle ev) w))
      /\ collectionTimer (instance (after (handle ev) w))
         = isActive (instance (after (handle ev) w)))
  /\ (forall (config : AggregatorConfig) (t : Z) (outcomes : list bool)
             (events : list (Z * Event)),
        batchTimer (instance (world_after config t outcomes events))
        = isActive (instance (world_after config t outcomes events))
        /\ collectionTimer (instance (world_after config t outcomes events))
           = isActive (instance (world_after config t outcomes events))).
Proof.
  split.
  - intros ev w H. destruct (acts_at_handle ev w) as [_ [-> _]].
    apply timers_step. exact H.
  - intros config t outcomes events.
    destruct (steady_run config t outcomes events) as [[Hb [Hc _]] _].
    split; assumption.
Qed.

Lemma timers_are_pending_while_active_witness :
  batchTimer (instance (after (handle fire_batchTimer)
                          (mid_flush (world_after default_config 0 [] (burst 3)))))
  = isActive (instance (after (handle fire_batchTimer)
                          (mid_flush (world_after default_config 0 [] (burst 3)))))
  /\ collectionTimer (instance (after (handle fire_batchTimer)
                                  (mid_flush (world_after default_config 0 [] (burst 3)))))
     = isActive (instance (after (handle fire_batchTimer)
                             (mid_flush (world_after default_config 0 [] (burst 3))))).
Proof.
  apply (proj1 timers_are_pending_while_active fire_batchTimer
           (mid_flush (world_after default_config 0 [] (burst 3)))).
  vm_compute. split; reflexivity.
Defined.

(** X2. After every run of a new aggregator, every open group has at
    least one member, every member of a group has the signature the group
    is filed under, the count of a group is the sum of the weights of its
    members, and no two groups have the same signature. *)
Theorem open_groups_are_sound
    (config : AggregatorConfig) (t : Z) (outcomes : list bool)
    (events : list (Z * Event)) :
  let m := errorBatch (instance (world_after config t outcomes events)) in
  Forall (fun entry =>
            errors (snd entry) <> []
            /\ Forall (fun e => getErrorKey e = fst entry) (errors (snd entry))
            /\ totalCount (snd entry) = weights (errors (snd entry))) m
  /\ NoDup (map fst m).
Proof. exact (proj1 (proj2 (steady_run config t outcomes events))). Qed.

(** X3. After every run of a new aggregator, an aggregator that is still
    active has counted fewer errors than [maxErrorsBeforeStop] (or none at
    all): the session does not outlive the limit. *)
Theorem active_aggregator_is_below_its_limit
    (config : AggregatorConfig) (t : Z) (outcomes : list bool)
    (events : list (Z * Event)) :
  let a := instance (world_after config t outcomes events) in
  isActive a = false
  \/ (totalErrorCount a < maxErrorsBeforeStop a)%N
  \/ totalErrorCount a = 0%N.
Proof.
  cbv zeta.
  pose proof (proj1 (proj2 (proj2 (steady_run config t outcomes events)))) as Hl.
  unfold world_after.
  destruct (isActive (instance (after (run events) (new_world config t outcomes))))
    eqn:Ea; [right; apply Hl; exact Ea | left; reflexivity].
Qed.

(** *** Ticks of the batch timer *)

Lemma startBatchTimer_sent w : sent (after startBatchTimer w) = sent w.
Proof.
  unfold after, startBatchTimer, bind, this.
  destruct (negb (isActive (instance w)) || batchTimer (instance w)); reflexivity.
Qed.

(** X5. The tick of the batch timer on an active aggregator whose groups
    have members.  With no flush in progress, and no other event before
    the flush is through, it emits one notification per open group, in the
    order in which the groups were opened, whatever the transport does
    with them, and leaves no group open.  While an earlier flush is
    suspended it emits nothing and leaves the groups open.  Either way it
    returns, arms the batch timer again and leaves the session active. *)
Theorem tick_flushes_every_open_group (w : World) :
  isActive (instance w) = true ->
  batchTimer (instance w) = true ->
  groups_inhabited (errorBatch (instance w)) ->
  fst (handle fire_batchTimer w) = Returned tt
  /\ batchTimer (instance (after (handle fire_batchTimer) w)) = true
  /\ isActive (instance (after (handle fire_batchTimer) w)) = true
  /\ if isProcessing (instance w)
     then sent (after (handle fire_batchTimer) w) = sent w
          /\ errorBatch (instance (after (handle fire_batchTimer) w))
             = errorBatch (instance w)
          /\ isProcessing (instance (after (handle fire_batchTimer) w)) = true
     else exists extra,
            sent (after (handle fire_batchTimer) w) = sent w ++ extra
            /\ Forall2 (fun entry e =>
                          aggregatedNotification (fst entry) (snd entry) (clock w)
                          = Returned (fst e))
                       (errorBatch (instance w)) extra
            /\ errorBatch (instance (after (handle fire_batchTimer) w)) = []
            /\ isProcessing (instance (after (handle fire_batchTimer) w)) = false.
Proof.
  intros Ha Hb Hne.
  destruct (acts_at_handle fire_batchTimer w) as [Hr [Hi _]].
  split; [exact Hr|].
  assert (Hstep : step fire_batchTimer (clock w) (instance w)
                  = set_batchTimer true (set_batchTimer false (flush (instance w)))).
  { simpl step. rewrite Hb. unfold ticked. rewrite Ha.
    destruct (flush_keeps_timers (instance w)) as [_ [_ Hfa]].
    unfold arm. simpl. rewrite Hfa, Ha. reflexivity. }
  rewrite Hstep in Hi.
  destruct (flush_keeps_timers (instance w)) as [_ [_ Hfa]].
  split; [rewrite Hi; reflexivity|].
  split; [rewrite Hi; simpl; rewrite Hfa; exact Ha|].
  assert (Hsent : forall w1, processBatch w = (Returned tt, w1) ->
                             sent (after (handle fire_batchTimer) w) = sent w1).
  { intros w1 Hrun. simpl handle. unfold after.
    rewrite (bind_returned this _ w (a := instance w) (w1 := w) eq_refl).
    rewrite Hb. unfold batchTimer_callback.
    rewrite (bind_returned this _ w (a := instance w) (w1 := w) eq_refl).
    rewrite Ha.
    rewrite (bind_returned processBatch _ w Hrun).
    erewrite bind_returned by reflexivity.
    pose proof (startBatchTimer_sent (with_instance (set_batchTimer false (instance w1)) w1))
      as Hq.
    unfold after in Hq. rewrite Hq. reflexivity. }
  destruct (isProcessing (instance w)) eqn:Hp.
  - assert (Hskip : processBatch w = (Returned tt, w)).
    { apply processBatch_skips. rewrite Hp, Bool.orb_true_r. reflexivity. }
    assert (Hf : flush (instance w) = instance w).
    { unfold flush. rewrite Hp, Bool.orb_true_r. reflexivity. }
    rewrite (Hsent w Hskip), Hi, Hf. simpl.
    split; [reflexivity|]. split; [reflexivity | exact Hp].
  - destruct (processBatch_flushes w Ha Hp Hne) as [w1 [extra [Hrun [_ [_ [Hs Hall]]]]]].
    exists extra. rewrite (Hsent w1 Hrun), Hi.
    split; [exact Hs|]. split; [exact Hall|].
    destruct (flush_cases (instance w)) as [[H [H'|[H'|H']]]|[_ [_ H]]];
      try congruence; rewrite H; simpl; try rewrite H'; split; try reflexivity;
      exact Hp.
Qed.

Lemma tick_flushes_every_open_group_witness :
  fst (handle fire_batchTimer (world_after default_config 0 [] (burst 150))) = Returned tt
  /\ batchTimer (instance (after (handle fire_batchTimer)
                             (world_after default_config 0 [] (burst 150)))) = true
  /\ isActive (instance (after (handle fire_batchTimer)
                           (world_after default_config 0 [] (burst 150)))) = true
  /\ if isProcessing (instance (world_after default_config 0 [] (burst 150)))
     then sent (after (handle fire_batchTimer)
                      (world_after default_config 0 [] (burst 150)))
          = sent (world_after default_config 0 [] (burst 150))
          /\ errorBatch (instance (after (handle fire_batchTimer)
                                     (world_after default_config 0 [] (burst 150))))
             = errorBatch (instance (world_after default_config 0 [] (burst 150)))
          /\ isProcessing (instance (after (handle fire_batchTimer)
                                       (world_after default_config 0 [] (burst 150))))
             = true
     else exists extra,
            sent (after (handle fire_batchTimer)
                        (world_after default_config 0 [] (burst 150)))
            = sent (world_after default_config 0 [] (burst 150)) ++ extra
            /\ Forall2 (fun entry e =>
                          aggregatedNotification (fst entry) (snd entry)
                            (clock (world_after default_config 0 [] (burst 150)))
                          = Returned (fst e))
                       (errorBatch (instance (world_after default_config 0 [] (burst 150))))
                       extra
            /\ errorBatch (instance (after (handle fire_batchTimer)
                                       (world_after default_config 0 [] (burst 150))))
               = []
            /\ isProcessing (instance (after (handle fire_batchTimer)
                                         (world_after default_config 0 [] (burst 150))))
               = false.
Proof.
  apply (tick_flushes_every_open_group (world_after default_config 0 [] (burst 150))).
  - vm_compute. reflexivity.
  - vm_compute. reflexivity.
  - unfold groups_inhabited. vm_compute. constructor; [discriminate | constructor].
Defined.

(** A tick while a flush is suspended: the three errors stay in their
    group and nothing is emitted. *)
Example tick_during_a_flush_is_deferred :
  let w := mid_flush (world_after default_config 0 [] (burst 3)) in
  sent (after (handle fire_batchTimer) w) = sent w
  /\ errorBatch (instance (after (handle fire_batchTimer) w)) = errorBatch (instance w)
  /\ map_size (errorBatch (instance w)) = 1%N.
Proof. vm_compute. repeat split. Qed.

(** *** Stopping and starting again *)

(** The summary that [stop] builds, in terms of its text. *)
Lemma summaryNotification_is_summary a startTime now :
  summaryNotification a startTime now
  = summary (totalErrorCount a) startTime now
            (maxErrorsBeforeStop a <=? totalErrorCount a)%N.
Proof.
  unfold summaryNotification, summary, summary_text.
  destruct (maxErrorsBeforeStop a <=? totalErrorCount a)%N; reflexivity.
Qed.

(** X6. In every world that a run of a new aggregator ends in with the
    session active, [stop] emits nothing when no error was counted and
    otherwise exactly one notification, the session summary, whose last
    line says that the collection period completed: a [stop] that does
    not come from [addError] never reports a stop on volume. *)
Theorem stop_reports_a_completed_period
    (config : AggregatorConfig) (t : Z) (outcomes : list bool)
    (events : list (Z * Event)) :
  let w := world_after config t outcomes events in
  isActive (instance w) = true ->
  exists startTime,
    collectionStartTime (instance w) = Some startTime
    /\ fst (stop w) = Returned tt
    /\ notifications (sent (after stop w))
       = notifications (sent w)
         ++ (if (total w =? 0)%N then []
             else [summary (total w) startTime (clock w) false]).
Proof.
  cbv zeta. unfold world_after.
  set (w := after (run events) (new_world config t outcomes)).
  intros Ha.
  destruct (steady_run config t outcomes events) as [_ [_ [Hl [_ Hd]]]].
  fold w in Hl, Hd.
  destruct (collectionStartTime (instance w)) as [startTime|] eqn:Es;
    [|exfalso; apply (Hd Ha); exact Es].
  exists startTime. split; [reflexivity|].
  destruct (stop_active w Ha) as [w' [Hs [_ Hn]]].
  unfold after. rewrite Hs. split; [reflexivity|]. simpl snd. rewrite Hn.
  f_equal. unfold summary_of, total. rewrite Es.
  destruct (totalErrorCount (instance w) =? 0)%N eqn:E0; [reflexivity|].
  rewrite summaryNotification_is_summary. simpl.
  destruct (Hl Ha) as [Hlt|H0].
  - apply N.leb_gt in Hlt. rewrite Hlt. reflexivity.
  - apply N.eqb_neq in E0. contradiction.
Qed.

Lemma stop_reports_a_completed_period_witness :
  exists startTime,
    collectionStartTime (instance (world_after default_config 0 [] (burst 3)))
    = Some startTime
    /\ fst (stop (world_after default_config 0 [] (burst 3))) = Returned tt
    /\ notifications (sent (after stop (world_after default_config 0 [] (burst 3))))
       = notifications (sent (world_after default_config 0 [] (burst 3)))
         ++ (if (total (world_after default_config 0 [] (burst 3)) =? 0)%N then []
             else [summary (total (world_after default_config 0 [] (burst 3))) startTime
                           (clock (world_after default_config 0 [] (burst 3))) false]).
Proof.
  apply (stop_reports_a_completed_period default_config 0 [] (burst 3)).
  vm_compute. reflexivity.
Defined.

(** X7. In every world that a run of a new aggregator ends in with the
    session active, an [addError] whose weight takes the counter to the
    limit emits exactly one notification, the session summary, with the
    new total and the last line that says that the collection stopped
    early on volume. *)
Theorem limit_is_reported_in_the_summary
    (config : AggregatorConfig) (t : Z) (outcomes : list bool)
    (events : list (Z * Event)) (error : ErrorEvent) :
  let w := world_after config t outcomes events in
  isActive (instance w) = true ->
  (maxErrorsBeforeStop (instance w) <= total w + errorCount_of error)%N ->
  (total w + errorCount_of error <> 0)%N ->
  exists startTime,
    collectionStartTime (instance w) = Some startTime
    /\ notifications (sent (after (addError error) w))
       = notifications (sent w)
         ++ [summary (total w + errorCount_of error) startTime (clock w) true].
Proof.
  cbv zeta. unfold world_after.
  set (w := after (run events) (new_world config t outcomes)).
  intros Ha Hlimit Hne.
  destruct (steady_run config t outcomes events) as [_ [_ [_ [_ Hd]]]].
  fold w in Hd.
  destruct (collectionStartTime (instance w)) as [startTime|] eqn:Es;
    [|exfalso; apply (Hd Ha); exact Es].
  exists startTime. split; [reflexivity|].
  unfold total in *. unfold after, addError.
  rewrite (bind_returned this _ w (a := instance w) (w1 := w) eq_refl).
  rewrite Ha. change (negb true) with false. cbv iota.
  erewrite bind_returned by reflexivity.
  erewrite bind_returned by reflexivity.
  cbn [instance with_instance set_totalErrorCount maxErrorsBeforeStop totalErrorCount].
  rewrite (proj2 (N.leb_le _ _) Hlimit).
  erewrite bind_returned by reflexivity.
  match goal with
  | |- notifications (sent (snd (stop ?w2))) = _ =>
      assert (H2 : isActive (instance w2) = true) by exact Ha;
      destruct (stop_active w2 H2) as [w' [Hs [_ Hn]]]
  end.
  rewrite Hs. simpl snd. rewrite Hn. simpl sent. f_equal.
  unfold summary_of. simpl. rewrite Es.
  apply N.eqb_neq in Hne. rewrite Hne.
  rewrite summaryNotification_is_summary. simpl.
  rewrite (proj2 (N.leb_le _ _) Hlimit). reflexivity.
Qed.

Lemma limit_is_reported_in_the_summary_witness :
  exists startTime,
    collectionStartTime (instance (world_after three_errors_config 0 [] (burst 2)))
    = Some startTime
    /\ notifications
         (sent (after (addError (Samples.useProgram_error 1))
                      (world_after three_errors_config 0 [] (burst 2))))
       = notifications (sent (world_after three_errors_config 0 [] (burst 2)))
         ++ [summary (total (world_after three_errors_config 0 [] (burst 2))
                      + errorCount_of (Samples.useProgram_error 1))
                     startTime
                     (clock (world_after three_errors_config 0 [] (burst 2))) true].
Proof.
  apply (limit_is_reported_in_the_summary three_errors_config 0 [] (burst 2)
           (Samples.useProgram_error 1)).
  - vm_compute. reflexivity.
  - vm_compute. discriminate.
  - vm_compute. discriminate.
Defined.

(** [stop] leaves the aggregator inactive, whatever it was. *)
Lemma stop_deactivates w : isActive (instance (after stop w)) = false.
Proof.
  destruct (acts_at_stop w) as [_ [Hi _]]. rewrite Hi. unfold stopped.
  destruct (isActive (instance w)) eqn:Ea; [reflexivity | exact Ea].
Qed.

Lemma stop_inactive w :
  isActive (instance w) = false -> stop w = (Returned tt, w).
Proof.
  intros H. unfold stop.
  rewrite (bind_returned this _ w (a := instance w) (w1 := w) eq_refl).
  rewrite H. reflexivity.
Qed.

(** X8. [stop] can be called any number of times: after a first [stop],
    whatever the world was, a second [stop], a [destroy] and the callbacks
    of both timers return without changing the aggregator, the console or
    the emissions. *)
Theorem stop_twice_is_stop_once (w : World) :
  let w' := after stop w in
  isActive (instance w') = false
  /\ stop w' = (Returned tt, w')
  /\ destroy w' = (Returned tt, w')
  /\ batchTimer_callback w' = (Returned tt, w')
  /\ collectionTimer_callback w' = (Returned tt, w').
Proof.
  cbv zeta. pose proof (stop_deactivates w) as Hd.
  split; [exact Hd|].
  split; [apply stop_inactive; exact Hd|].
  split; [apply stop_inactive; exact Hd|].
  split; [|apply stop_inactive; exact Hd].
  unfold batchTimer_callback.
  rewrite (bind_returned this _ (after stop w) (a := instance (after stop w))
             (w1 := after stop w) eq_refl).
  rewrite Hd. reflexivity.
Qed.

(** X9. [start] on an aggregator that is not active opens a new session:
    the counter is 0, the start time is the reading of the clock, both
    timers are pending, and the groups that an earlier session left open
    are dropped without any emission. *)
Theorem start_opens_a_new_session (w : World) :
  isActive (instance w) = false ->
  let w' := after start w in
  fst (start w) = Returned tt
  /\ isActive (instance w') = true
  /\ totalErrorCount (instance w') = 0%N
  /\ collectionStartTime (instance w') = Some (clock w)
  /\ errorBatch (instance w') = []
  /\ batchTimer (instance w') = true
  /\ collectionTimer (instance w') = true
  /\ maxErrorsBeforeStop (instance w') = maxErrorsBeforeStop (instance w)
  /\ maxBatchSize (instance w') = maxBatchSize (instance w)
  /\ sent w' = sent w.
Proof.
  intros H. cbv zeta. unfold start, startBatchTimer, after.
  unfold bind, this, assign, Date_now, console_log; simpl.
  rewrite H; simpl.
  destruct (batchTimer (instance w)) eqn:Eb; simpl; rewrite ?Eb;
    repeat split; reflexivity.
Qed.

Lemma start_opens_a_new_session_witness :
  fst (start (after (run Samples.one_error_then_stop) Samples.quiet_world)) = Returned tt
  /\ isActive (instance (after start (after (run Samples.one_error_then_stop)
                                            Samples.quiet_world))) = true
  /\ totalErrorCount (instance (after start (after (run Samples.one_error_then_stop)
                                                   Samples.quiet_world))) = 0%N
  /\ collectionStartTime (instance (after start (after (run Samples.one_error_then_stop)
                                                       Samples.quiet_world)))
     = Some (clock (after (run Samples.one_error_then_stop) Samples.quiet_world))
  /\ errorBatch (instance (after start (after (run Samples.one_error_then_stop)
                                              Samples.quiet_world))) = []
  /\ batchTimer (instance (after start (after (run Samples.one_error_then_stop)
                                              Samples.quiet_world))) = true
  /\ collectionTimer (instance (after start (after (run Samples.one_error_then_stop)
                                                   Samples.quiet_world))) = true
  /\ maxErrorsBeforeStop (instance (after start (after (run Samples.one_error_then_stop)
                                                       Samples.quiet_world)))
     = maxErrorsBeforeStop (instance (after (run Samples.one_error_then_stop)
                                            Samples.quiet_world))
  /\ maxBatchSize (instance (after start (after (run Samples.one_error_then_stop)
                                                Samples.quiet_world)))
     = maxBatchSize (instance (after (run Samples.one_error_then_stop) Samples.quiet_world))
  /\ sent (after start (after (run Samples.one_error_then_stop) Samples.quiet_world))
     = sent (after (run Samples.one_error_then_stop) Samples.quiet_world).
Proof.
  apply (start_opens_a_new_session
           (after (run Samples.one_error_then_stop) Samples.quiet_world)).
  vm_compute. reflexivity.
Defined.

(** *** Errors below the limit *)

(** [addError] below the limit, with no flush in progress: the error is
    counted and filed, and the groups are flushed if they have become
    [maxBatchSize]. *)
Lemma addError_below_limit error w :
  isActive (instance w) = true ->
  (totalErrorCount (instance w) + errorCount_of error
   < maxErrorsBeforeStop (instance w))%N ->
  isProcessing (instance w) = false ->
  let groups := map_set (getErrorKey error)
                        (joined error (clock w) (errorBatch (instance w)))
                        (errorBatch (instance w)) in
  let a2 := set_errorBatch groups
              (set_totalErrorCount
                 (totalErrorCount (instance w) + errorCount_of error) (instance w)) in
  addError error w
  = (if (maxBatchSize (instance w) <=? map_size groups)%N
     then processBatch else ret tt) (with_instance a2 w).
Proof.
  intros Ha Hlt Hp. cbv zeta. unfold addError.
  rewrite (bind_returned this _ w (a := instance w) (w1 := w) eq_refl).
  rewrite Ha. change (negb true) with false. cbv iota.
  erewrite bind_returned by reflexivity.
  erewrite bind_returned by reflexivity.
  cbn [instance with_instance set_totalErrorCount maxErrorsBeforeStop totalErrorCount].
  rewrite (proj2 (N.leb_gt _ _) Hlt).
  erewrite bind_returned by reflexivity.
  cbn [errorBatch clock with_instance set_totalErrorCount].
  unfold joined.
  destruct (map_get (getErrorKey error) (errorBatch (instance w))) as [existing|];
    (erewrite bind_returned by reflexivity);
    (erewrite bind_returned by reflexivity);
    cbn [instance with_instance set_errorBatch maxBatchSize errorBatch isProcessing
         set_totalErrorCount];
    rewrite Hp; change (negb false) with true; rewrite Bool.andb_true_r;
    reflexivity.
Qed.

(** X10. In every world that a run of a new aggregator ends in with the
    session active, an [addError] that stays below the limit and leaves
    fewer than [maxBatchSize] groups returns, adds the weight of the error
    to the counter, files the error in the group of its signature (a new
    group dated now, or the existing group with the error appended, its
    count raised and its first date kept), leaves every other group as it
    was, and neither emits nor logs anything. *)
Theorem addError_files_the_error
    (config : AggregatorConfig) (t : Z) (outcomes : list bool)
    (events : list (Z * Event)) (error : ErrorEvent) :
  let w := world_after config t outcomes events in
  let w' := after (addError error) w in
  isActive (instance w) = true ->
  (total w + errorCount_of error < maxErrorsBeforeStop (instance w))%N ->
  (map_size (map_set (getErrorKey error)
                     (joined error (clock w) (errorBatch (instance w)))
                     (errorBatch (instance w)))
   < maxBatchSize (instance w))%N ->
  fst (addError error w) = Returned tt
  /\ total w' = (total w + errorCount_of error)%N
  /\ map_get (getErrorKey error) (errorBatch (instance w'))
     = Some (match map_get (getErrorKey error) (errorBatch (instance w)) with
             | Some existing =>
                 {| errors := errors existing ++ [error];
                    firstSeen := firstSeen existing;
                    lastSeen := clock w;
                    totalCount := totalCount existing + errorCount_of error |}
             | None =>
                 {| errors := [error]; firstSeen := clock w; lastSeen := clock w;
                    totalCount := errorCount_of error |}
             end)
  /\ (forall key, key <> getErrorKey error ->
        map_get key (errorBatch (instance w'))
        = map_get key (errorBatch (instance w)))
  /\ isActive (instance w') = true
  /\ sent w' = sent w
  /\ console w' = console w.
Proof.
  cbv zeta. unfold world_after.
  set (w := after (run events) (new_world config t outcomes)).
  intros Ha Hlt Hsize.
  destruct (steady_run config t outcomes events) as [[_ [_ Hp]] _].
  fold w in Hp. unfold total in *. unfold after.
  rewrite (addError_below_limit error w Ha Hlt Hp).
  rewrite (proj2 (N.leb_gt _ _) Hsize). unfold ret. simpl.
  split; [reflexivity|]. split; [reflexivity|].
  split; [rewrite map_get_set_same; reflexivity|].
  split; [intros key Hkey; apply map_get_set_other; exact Hkey|].
  split; [exact Ha|]. split; reflexivity.
Qed.

Lemma addError_files_the_error_witness :
  fst (addError (Samples.useProgram_error 1)
                (world_after default_config 0 [] (burst 2))) = Returned tt
  /\ total (after (addError (Samples.useProgram_error 1))
                  (world_after default_config 0 [] (burst 2)))
     = (total (world_after default_config 0 [] (burst 2))
        + errorCount_of (Samples.useProgram_error 1))%N
  /\ map_get (getErrorKey (Samples.useProgram_error 1))
       (errorBatch (instance (after (addError (Samples.useProgram_error 1))
                                    (world_after default_config 0 [] (burst 2)))))
     = Some (match map_get (getErrorKey (Samples.useProgram_error 1))
                     (errorBatch (instance (world_after default_config 0 [] (burst 2)))) with
             | Some existing =>
                 {| errors := errors existing ++ [Samples.useProgram_error 1];
                    firstSeen := firstSeen existing;
                    lastSeen := clock (world_after default_config 0 [] (burst 2));
                    totalCount := totalCount existing
                                  + errorCount_of (Samples.useProgram_error 1) |}
             | None =>
                 {| errors := [Samples.useProgram_error 1];
                    firstSeen := clock (world_after default_config 0 [] (burst 2));
                    lastSeen := clock (world_after default_config 0 [] (burst 2));
                    totalCount := errorCount_of (Samples.useProgram_error 1) |}
             end)
  /\ (forall key, key <> getErrorKey (Samples.useProgram_error 1) ->
        map_get key
          (errorBatch (instance (after (addError (Samples.useProgram_error 1))
                                       (world_after default_config 0 [] (burst 2)))))
        = map_get key (errorBatch (instance (world_after default_config 0 [] (burst 2)))))
  /\ isActive (instance (after (addError (Samples.useProgram_error 1))
                               (world_after default_config 0 [] (burst 2)))) = true
  /\ sent (after (addError (Samples.useProgram_error 1))
                 (world_after default_config 0 [] (burst 2)))
     = sent (world_after default_config 0 [] (burst 2))
  /\ console (after (addError (Samples.useProgram_error 1))
                    (world_after default_config 0 [] (burst 2)))
     = console (world_after default_config 0 [] (burst 2)).
Proof.
  apply (addError_files_the_error default_config 0 [] (burst 2)
           (Samples.useProgram_error 1)).
  - vm_compute. reflexivity.
  - vm_compute. reflexivity.
  - vm_compute. reflexivity.
Defined.

Lemma flush_keeps_total a : totalErrorCount (flush a) = totalErrorCount a.
Proof.
  unfold flush.
  destruct (negb (isActive a) || isProcessing a || (map_size (errorBatch a) =? 0)%N);
    reflexivity.
Qed.

Lemma flush_keeps_session a : isActive (flush a) = isActive a.
Proof.
  unfold flush.
  destruct (negb (isActive a) || isProcessing a || (map_size (errorBatch a) =? 0)%N);
    reflexivity.
Qed.

(** [addError] below the limit, whether a flush is in progress or not. *)
Lemma addError_below_limit_any error w :
  isActive (instance w) = true ->
  (totalErrorCount (instance w) + errorCount_of error
   < maxErrorsBeforeStop (instance w))%N ->
  let groups := map_set (getErrorKey error)
                        (joined error (clock w) (errorBatch (instance w)))
                        (errorBatch (instance w)) in
  let a2 := set_errorBatch groups
              (set_totalErrorCount
                 (totalErrorCount (instance w) + errorCount_of error) (instance w)) in
  addError error w
  = (if (maxBatchSize (instance w) <=? map_size groups)%N
        && negb (isProcessing (instance w))
     then processBatch else ret tt) (with_instance a2 w).
Proof.
  intros Ha Hlt. cbv zeta. unfold addError.
  rewrite (bind_returned this _ w (a := instance w) (w1 := w) eq_refl).
  rewrite Ha. change (negb true) with false. cbv iota.
  erewrite bind_returned by reflexivity.
  erewrite bind_returned by reflexivity.
  cbn [instance with_instance set_totalErrorCount maxErrorsBeforeStop totalErrorCount].
  rewrite (proj2 (N.leb_gt _ _) Hlt).
  erewrite bind_returned by reflexivity.
  cbn [errorBatch clock with_instance set_totalErrorCount].
  unfold joined.
  destruct (map_get (getErrorKey error) (errorBatch (instance w))) as [existing|];
    (erewrite bind_returned by reflexivity);
    (erewrite bind_returned by reflexivity);
    cbn [instance with_instance set_errorBatch maxBatchSize errorBatch isProcessing
         set_totalErrorCount];
    reflexivity.
Qed.

(** The group that [addError] files an error in has members. *)
Lemma groups_inhabited_joined error now (m : BatchMap) :
  groups_inhabited m ->
  groups_inhabited (map_set (getErrorKey error) (joined error now m) m).
Proof.
  intros H. unfold groups_inhabited. apply map_set_forall; [exact H|].
  unfold joined. destruct (map_get (getErrorKey error) m) as [existing|]; simpl.
  - intros E. apply app_eq_nil in E. destruct E as [_ E]. discriminate E.
  - discriminate.
Qed.

(** X4. The back-pressure of [addError], on an active aggregator below
    its limit.  With no flush in progress the call leaves no group open or
    fewer than [maxBatchSize]: a group that makes them reach
    [maxBatchSize] is flushed with all the others.  While a flush is
    suspended the call only files the error and emits nothing: the flush
    is deferred, and [maxBatchSize] groups or more can stay open. *)
Theorem open_groups_stay_below_maxBatchSize (error : ErrorEvent) (w : World) :
  isActive (instance w) = true ->
  (total w + errorCount_of error < maxErrorsBeforeStop (instance w))%N ->
  fst (addError error w) = Returned tt
  /\ if isProcessing (instance w)
     then errorBatch (instance (after (addError error) w))
          = map_set (getErrorKey error)
                    (joined error (clock w) (errorBatch (instance w)))
                    (errorBatch (instance w))
          /\ sent (after (addError error) w) = sent w
          /\ isProcessing (instance (after (addError error) w)) = true
     else errorBatch (instance (after (addError error) w)) = []
          \/ (map_size (errorBatch (instance (after (addError error) w)))
              < maxBatchSize (instance (after (addError error) w)))%N.
Proof.
  intros Ha Hlt. unfold total in Hlt.
  destruct (acts_at_addError error w) as [Hr _]. split; [exact Hr|].
  unfold after. rewrite (addError_below_limit_any error w Ha Hlt).
  destruct (isProcessing (instance w)) eqn:Hp.
  - change (negb true) with false. rewrite Bool.andb_false_r. unfold ret. simpl.
    split; [reflexivity|]. split; [reflexivity | exact Hp].
  - change (negb false) with true. rewrite Bool.andb_true_r.
    match goal with
    | |- context [(maxBatchSize ?a <=? map_size ?g)%N] =>
        destruct (N.leb_spec (maxBatchSize a) (map_size g)) as [Hfull|Hroom]
    end.
    + left.
      match goal with
      | |- errorBatch (instance (snd (processBatch ?w2))) = [] =>
          pose proof (acts_at_processBatch w2) as [_ [Hi _]];
          unfold after in Hi; rewrite Hi;
          destruct (flush_cases (instance w2)) as [[_ [H|[H|H]]]|[_ [_ H]]]
      end.
      * simpl in H. congruence.
      * simpl in H. congruence.
      * unfold flush. simpl. simpl in H. rewrite H.
        rewrite Ha, Hp. reflexivity.
      * rewrite H. reflexivity.
    + right. unfold ret. simpl. exact Hroom.
Qed.

Lemma open_groups_stay_below_maxBatchSize_witness :
  fst (addError (Samples.vertex_error "ERROR: 0:1: syntax error")
                (mid_flush (world_after two_groups_config 0 [] (burst 3)))) = Returned tt
  /\ if isProcessing (instance (mid_flush (world_after two_groups_config 0 [] (burst 3))))
     then errorBatch
            (instance (after (addError (Samples.vertex_error "ERROR: 0:1: syntax error"))
                             (mid_flush (world_after two_groups_config 0 [] (burst 3)))))
          = map_set (getErrorKey (Samples.vertex_error "ERROR: 0:1: syntax error"))
              (joined (Samples.vertex_error "ERROR: 0:1: syntax error")
                 (clock (mid_flush (world_after two_groups_config 0 [] (burst 3))))
                 (errorBatch
                    (instance (mid_flush (world_after two_groups_config 0 [] (burst 3))))))
              (errorBatch
                 (instance (mid_flush (world_after two_groups_config 0 [] (burst 3)))))
          /\ sent (after (addError (Samples.vertex_error "ERROR: 0:1: syntax error"))
                         (mid_flush (world_after two_groups_config 0 [] (burst 3))))
             = sent (mid_flush (world_after two_groups_config 0 [] (burst 3)))
          /\ isProcessing
               (instance (after (addError (Samples.vertex_error "ERROR: 0:1: syntax error"))
                                (mid_flush (world_after two_groups_config 0 [] (burst 3)))))
             = true
     else errorBatch
            (instance (after (addError (Samples.vertex_error "ERROR: 0:1: syntax error"))
                             (mid_flush (world_after two_groups_config 0 [] (burst 3)))))
          = []
          \/ (map_size
                (errorBatch
                   (instance
                      (after (addError (Samples.vertex_error "ERROR: 0:1: syntax error"))
                             (mid_flush (world_after two_groups_config 0 [] (burst 3))))))
              < maxBatchSize
                  (instance
                     (after (addError (Samples.vertex_error "ERROR: 0:1: syntax error"))
                            (mid_flush (world_after two_groups_config 0 [] (burst 3))))))%N.
Proof.
  apply (open_groups_stay_below_maxBatchSize
           (Samples.vertex_error "ERROR: 0:1: syntax error")
           (mid_flush (world_after two_groups_config 0 [] (burst 3)))).
  - vm_compute. reflexivity.
  - vm_compute. reflexivity.
Defined.

(** With a flush suspended, the second group stays open although
    [maxBatchSize] is 2. *)
Example full_batch_during_a_flush_stays_open :
  let w := mid_flush (world_after two_groups_config 0 [] (burst 3)) in
  let w' := after (addError (Samples.vertex_error "ERROR: 0:1: syntax error")) w in
  map_size (errorBatch (instance w')) = 2%N
  /\ maxBatchSize (instance w') = 2%N
  /\ sent w' = sent w.
Proof. vm_compute. repeat split. Qed.

(** X11. On an active aggregator with no flush in progress, whose groups
    have members, an [addError] that stays below the limit and brings the
    number of groups to [maxBatchSize] flushes at once: with no other
    event before the flush is through, it emits one notification for each
    group, the group of the new error included and in the order of the
    map, and leaves no group open; the session stays active. *)
Theorem full_batch_is_flushed_at_once (error : ErrorEvent) (w : World) :
  let w' := after (addError error) w in
  let groups := map_set (getErrorKey error)
                        (joined error (clock w) (errorBatch (instance w)))
                        (errorBatch (instance w)) in
  isActive (instance w) = true ->
  isProcessing (instance w) = false ->
  groups_inhabited (errorBatch (instance w)) ->
  (total w + errorCount_of error < maxErrorsBeforeStop (instance w))%N ->
  (maxBatchSize (instance w) <= map_size groups)%N ->
  exists extra,
    fst (addError error w) = Returned tt
    /\ sent w' = sent w ++ extra
    /\ Forall2 (fun entry e =>
                  aggregatedNotification (fst entry) (snd entry) (clock w)
                  = Returned (fst e))
               groups extra
    /\ errorBatch (instance w') = []
    /\ total w' = (total w + errorCount_of error)%N
    /\ isActive (instance w') = true
    /\ isProcessing (instance w') = false.
Proof.
  cbv zeta. intros Ha Hp Hg Hlt Hsize.
  unfold total in *. unfold after.
  rewrite (addError_below_limit error w Ha Hlt Hp).
  rewrite (proj2 (N.leb_le _ _) Hsize).
  match goal with
  | |- exists extra, fst (processBatch ?w2) = _ /\ _ =>
      destruct (processBatch_flushes w2) as [w' [extra [Hr [He [Hp' [Hs Hf]]]]]];
        [exact Ha | exact Hp | |
         pose proof (acts_at_processBatch w2) as [_ [Hi _]]]
  end.
  - simpl. apply groups_inhabited_joined. exact Hg.
  - exists extra. rewrite Hr. simpl fst. simpl snd.
    split; [reflexivity|]. split; [exact Hs|]. split; [exact Hf|].
    split; [exact He|].
    unfold after in Hi. rewrite Hr in Hi. simpl snd in Hi.
    split; [|split; [|exact Hp']]; rewrite Hi.
    + rewrite flush_keeps_total. reflexivity.
    + rewrite flush_keeps_session. exact Ha.
Qed.

Lemma full_batch_is_flushed_at_once_witness :
  exists extra,
    fst (addError (Samples.vertex_error "ERROR: 0:1: syntax error")
                  (world_after two_groups_config 0 [] (burst 3))) = Returned tt
    /\ sent (after (addError (Samples.vertex_error "ERROR: 0:1: syntax error"))
                   (world_after two_groups_config 0 [] (burst 3)))
       = sent (world_after two_groups_config 0 [] (burst 3)) ++ extra
    /\ Forall2 (fun entry e =>
                  aggregatedNotification (fst entry) (snd entry)
                    (clock (world_after two_groups_config 0 [] (burst 3)))
                  = Returned (fst e))
               (map_set (getErrorKey (Samples.vertex_error "ERROR: 0:1: syntax error"))
                  (joined (Samples.vertex_error "ERROR: 0:1: syntax error")
                     (clock (world_after two_groups_config 0 [] (burst 3)))
                     (errorBatch (instance (world_after two_groups_config 0 [] (burst 3)))))
                  (errorBatch (instance (world_after two_groups_config 0 [] (burst 3)))))
               extra
    /\ errorBatch (instance (after (addError (Samples.vertex_error "ERROR: 0:1: syntax error"))
                                   (world_after two_groups_config 0 [] (burst 3)))) = []
    /\ total (after (addError (Samples.vertex_error "ERROR: 0:1: syntax error"))
                    (world_after two_groups_config 0 [] (burst 3)))
       = (total (world_after two_groups_config 0 [] (burst 3))
          + errorCount_of (Samples.vertex_error "ERROR: 0:1: syntax error"))%N
    /\ isActive (instance (after (addError (Samples.vertex_error "ERROR: 0:1: syntax error"))
                                 (world_after two_groups_config 0 [] (burst 3)))) = true
    /\ isProcessing
         (instance (after (addError (Samples.vertex_error "ERROR: 0:1: syntax error"))
                          (world_after two_groups_config 0 [] (burst 3)))) = false.
Proof.
  apply (full_batch_is_flushed_at_once
           (Samples.vertex_error "ERROR: 0:1: syntax error")
           (world_after two_groups_config 0 [] (burst 3))).
  - vm_compute. reflexivity.
  - vm_compute. reflexivity.
  - unfold groups_inhabited. vm_compute. constructor; [discriminate | constructor].
  - vm_compute. reflexivity.
  - vm_compute. discriminate.
Defined.

End MachineFacts.

(* ================================================================== *)
(** ** The pixel loop of the comparator *)

Module CompareLoopFacts.
Import JS Compare.

Local Open Scope N_scope.

(** *** Writes to a buffer *)

Lemma length_set_nat v : forall (buf : Buffer) i,
  List.length (set_nat i v buf) = List.length buf.
Proof.
  induction buf as [|x tl IH]; intros [|j]; simpl; try reflexivity.
  rewrite IH. reflexivity.
Qed.

Lemma nth_set_nat_same v : forall (buf : Buffer) i,
  (i < List.length buf)%nat -> nth_error (set_nat i v buf) i = Some v.
Proof.
  induction buf as [|x tl IH]; intros [|j] H; simpl in *; try lia; try reflexivity.
  apply IH. lia.
Qed.

Lemma nth_set_nat_other v : forall (buf : Buffer) i j,
  i <> j -> nth_error (set_nat i v buf) j = nth_error buf j.
Proof.
  induction buf as [|x tl IH]; intros [|i] [|j] H; simpl;
    try reflexivity; try congruence.
  apply IH. congruence.
Qed.

Lemma length_set i v (buf : Buffer) : List.length (set i v buf) = List.length buf.
Proof. apply length_set_nat. Qed.

Lemma get_set_same i v (buf : Buffer) :
  i < N.of_nat (List.length buf) -> get (set i v buf) i = Some v.
Proof. intros H. unfold get, set. apply nth_set_nat_same. lia. Qed.

Lemma get_set_other i j v (buf : Buffer) :
  i <> j -> get (set i v buf) j = get buf j.
Proof. intros H. unfold get, set. apply nth_set_nat_other. lia. Qed.

Lemma in_range c n : In c (range n) <-> c < n.
Proof.
  unfold range. rewrite in_map_iff. split.
  - intros [k [<- Hk]]. apply in_seq in Hk. lia.
  - intros H. exists (N.to_nat c). split; [apply N2Nat.id|].
    apply in_seq. lia.
Qed.

(** *** The copy of a pixel that does not differ *)

Section Copy.

Variable currentBuffer : Buffer.
Variable i : N.

Let copy (buf : Buffer) (c : N) : Buffer :=
  set (i + c) (to_byte (get currentBuffer (i + c))) buf.

Lemma copy_length : forall l buf,
  List.length (fold_left copy l buf) = List.length buf.
Proof.
  induction l as [|c l IH]; intros buf; simpl; [reflexivity|].
  rewrite IH. apply length_set.
Qed.

Lemma copy_below j : j < i -> forall l buf,
  get (fold_left copy l buf) j = get buf j.
Proof.
  intros Hj. induction l as [|c l IH]; intros buf; simpl; [reflexivity|].
  rewrite IH. apply get_set_other. lia.
Qed.

Lemma copy_keeps c : forall l buf,
  get buf (i + c) = Some (to_byte (get currentBuffer (i + c))) ->
  get (fold_left copy l buf) (i + c) = Some (to_byte (get currentBuffer (i + c))).
Proof.
  induction l as [|c' l IH]; intros buf H; simpl; [exact H|].
  apply IH. unfold copy.
  destruct (N.eq_dec c' c) as [->|Hne].
  - apply get_set_same.
    unfold get in H.
    assert (Hsome : nth_error buf (N.to_nat (i + c)) <> None) by congruence.
    apply nth_error_Some in Hsome. lia.
  - rewrite get_set_other by lia. exact H.
Qed.

Lemma copy_writes c : forall l buf,
  In c l -> i + c < N.of_nat (List.length buf) ->
  get (fold_left copy l buf) (i + c) = Some (to_byte (get currentBuffer (i + c))).
Proof.
  induction l as [|c' l IH]; intros buf Hin Hlen; simpl; [destruct Hin|].
  destruct (N.eq_dec c' c) as [->|Hne].
  - apply copy_keeps. apply get_set_same. exact Hlen.
  - destruct Hin as [->|Hin]; [congruence|].
    apply IH; [exact Hin|]. unfold copy. rewrite length_set. exact Hlen.
Qed.

End Copy.

(** *** One iteration *)

Section Loop.

Variable chans : N.
Variables baselineBuffer currentBuffer : Buffer.

Let step := pixelStep chans baselineBuffer currentBuffer.
Let differs := pixelDiff chans baselineBuffer currentBuffer.

Lemma pixelStep_count st i :
  fst (step st i) = fst st + (if differs i then 1 else 0).
Proof.
  destruct st as [n d]. unfold step, differs, pixelStep.
  destruct (pixelDiff chans baselineBuffer currentBuffer i); simpl; lia.
Qed.

Lemma pixelStep_length st i :
  List.length (snd (step st i)) = List.length (snd st).
Proof.
  destruct st as [n d]. unfold step, pixelStep.
  destruct (pixelDiff chans baselineBuffer currentBuffer i); simpl.
  - destruct (chans =? 4); rewrite ?length_set; reflexivity.
  - apply copy_length.
Qed.

Lemma pixelStep_below st i j :
  j < i -> get (snd (step st i)) j = get (snd st) j.
Proof.
  intros Hj. destruct st as [n d]. unfold step, pixelStep.
  destruct (pixelDiff chans baselineBuffer currentBuffer i); simpl.
  - destruct (chans =? 4); repeat (rewrite get_set_other by lia); reflexivity.
  - apply copy_below. exact Hj.
Qed.

Lemma pixelStep_pixel st i c :
  1 <= chans <= 4 -> c < chans -> i + c < N.of_nat (List.length (snd st)) ->
  get (snd (step st i)) (i + c)
  = Some (if differs i
          then (if (c =? 0) || (c =? 3) then 255 else 0)
          else to_byte (get currentBuffer (i + c))).
Proof.
  intros Hch Hc Hlen. destruct st as [n d]. unfold step, differs, pixelStep.
  simpl in Hlen.
  destruct (pixelDiff chans baselineBuffer currentBuffer i); simpl.
  - assert (Hcases : c = 0 \/ c = 1 \/ c = 2 \/ c = 3) by lia.
    destruct (N.eqb_spec chans 4) as [E4|E4];
      destruct Hcases as [-> | [-> | [-> | ->]]]; simpl;
      try (exfalso; lia);
      rewrite ?N.add_0_r in *;
      repeat (rewrite get_set_other by lia);
      apply get_set_same; rewrite ?length_set; lia.
  - apply copy_writes; [apply in_range; exact Hc | exact Hlen].
Qed.

(** *** The whole loop *)

Lemma loop_count : forall l st,
  fst (fold_left step l st)
  = fst st + N.of_nat (List.length (filter differs l)).
Proof.
  induction l as [|i l IH]; intros st; simpl; [lia|].
  rewrite IH, pixelStep_count. destruct (differs i); simpl List.length; lia.
Qed.

Lemma loop_length : forall l st,
  List.length (snd (fold_left step l st)) = List.length (snd st).
Proof.
  induction l as [|i l IH]; intros st; simpl; [reflexivity|].
  rewrite IH. apply pixelStep_length.
Qed.

Lemma loop_below j : forall l st,
  Forall (fun i => j < i) l ->
  get (snd (fold_left step l st)) j = get (snd st) j.
Proof.
  induction l as [|i l IH]; intros st H; simpl; [reflexivity|].
  inversion H as [|x xs Hi Hl]; subst.
  rewrite IH by exact Hl. apply pixelStep_below. exact Hi.
Qed.

End Loop.

Lemma length_alloc n : List.length (alloc n) = n.
Proof. apply repeat_length. Qed.

Lemma length_strides len step : List.length (strides len step)
                                = N.to_nat ((len + step - 1) / step).
Proof. unfold strides. rewrite length_map, length_seq. reflexivity. Qed.

(** X12. The pixel loop as a count: [diffPixels] is the number of offsets
    [0, channels, 2 channels, ...] below the length of the baseline
    buffer at which some channel of the two buffers differs by more than
    5, and the diff buffer has the length of the baseline buffer. *)
Theorem diffPixels_counts_the_differing_pixels
    (chans : N) (baselineBuffer currentBuffer : Buffer) :
  fst (pixelLoop chans baselineBuffer currentBuffer)
  = N.of_nat (List.length
                (filter (pixelDiff chans baselineBuffer currentBuffer)
                        (strides (N.of_nat (List.length baselineBuffer)) chans)))
  /\ List.length (snd (pixelLoop chans baselineBuffer currentBuffer))
     = List.length baselineBuffer.
Proof.
  unfold pixelLoop. split.
  - rewrite loop_count. reflexivity.
  - rewrite loop_length. apply length_alloc.
Qed.

(** X13. The pixels of the diff image, for images of one to four
    channels.  Every pixel that lies whole within the baseline buffer is,
    in the diff buffer, red (255, 0, 0, and alpha 255 with four channels;
    255 alone with one channel) when some channel differs by more than 5,
    and otherwise the pixel of the current buffer, a byte that the current
    buffer lacks being 0. *)
Theorem diff_image_pixels
    (chans : N) (baselineBuffer currentBuffer : Buffer) (k c : N) :
  1 <= chans <= 4 ->
  k * chans + chans <= N.of_nat (List.length baselineBuffer) ->
  c < chans ->
  get (snd (pixelLoop chans baselineBuffer currentBuffer)) (k * chans + c)
  = Some (if pixelDiff chans baselineBuffer currentBuffer (k * chans)
          then (if (c =? 0) || (c =? 3) then 255 else 0)
          else to_byte (get currentBuffer (k * chans + c))).
Proof.
  intros Hch Hk Hc. unfold pixelLoop, strides.
  set (len := N.of_nat (List.length baselineBuffer)) in *.
  set (n := N.to_nat ((len + chans - 1) / chans)).
  assert (Hn : (N.to_nat k < n)%nat).
  { unfold n.
    assert (k + 1 <= (len + chans - 1) / chans).
    { apply N.div_le_lower_bound; [lia | nia]. }
    lia. }
  replace n with (N.to_nat k + S (n - S (N.to_nat k)))%nat by lia.
  rewrite seq_app, map_app, fold_left_app. simpl seq. simpl map.
  rewrite N2Nat.id. simpl fold_left.
  rewrite loop_below.
  - apply pixelStep_pixel; [exact Hch | exact Hc |].
    rewrite loop_length. simpl. rewrite length_alloc. fold len. lia.
  - apply Forall_forall. intros i Hi. apply in_map_iff in Hi.
    destruct Hi as [m [<- Hm]]. apply in_seq in Hm. nia.
Qed.

Lemma diff_image_pixels_witness :
  get (snd (pixelLoop 3 (Samples.red_pixels 4)
              ([0; 0; 255] ++ List.tl (List.tl (List.tl (Samples.red_pixels 4))))%list))
      (0 * 3 + 2)
  = Some (if pixelDiff 3 (Samples.red_pixels 4)
               ([0; 0; 255] ++ List.tl (List.tl (List.tl (Samples.red_pixels 4))))%list
               (0 * 3)
          then (if (2 =? 0) || (2 =? 3) then 255 else 0)
          else to_byte (get ([0; 0; 255]
                               ++ List.tl (List.tl (List.tl (Samples.red_pixels 4))))%list
                            (0 * 3 + 2))).
Proof.
  apply (@diff_image_pixels 3 (Samples.red_pixels 4)
           ([0; 0; 255] ++ List.tl (List.tl (List.tl (Samples.red_pixels 4))))%list 0 2).
  - lia.
  - simpl. lia.
  - lia.
Defined.

(** *** The difference and the threshold *)

Lemma percent_bounded (n total : N) :
  total <> 0 -> n <= total ->
  exists q, percent n total = Fin q /\ (0 <= q)%Q /\ (q <= 100)%Q.
Proof.
  intros Ht Hn. destruct total as [|p]; [contradiction|].
  unfold percent. eexists. split; [reflexivity|].
  rewrite Qred_correct. unfold Qle, Qmult. cbn [Qnum Qden]. rewrite Pos.mul_1_r. split; lia.
Qed.

Lemma strides_of_whole_pixels (pixels chans : N) :
  chans <> 0 -> (pixels * chans + chans - 1) / chans = pixels.
Proof.
  intros Hc. symmetry. apply N.div_unique with (r := chans - 1); lia.
Qed.

(** X14. With a baseline buffer of [width * height * channels] bytes, as
    the decoder gives for an image that has pixels, every comparison that
    returns gives a [difference] that is a number between 0 and 100. *)
Theorem difference_is_a_percentage
    (sharp : string -> Sharp) (DIFF_DIR timestamp baselinePath currentPath : string)
    (threshold : number) (baselineMeta : Metadata)
    (result : ComparisonResult) (written : Writes) :
  metadata (sharp baselinePath) = Some baselineMeta ->
  width baselineMeta * height baselineMeta <> 0 ->
  (forall baselineBuffer, raw (sharp baselinePath) = Some baselineBuffer ->
     N.of_nat (List.length baselineBuffer)
     = width baselineMeta * height baselineMeta * channels_or_3 baselineMeta) ->
  compareScreenshots sharp DIFF_DIR timestamp baselinePath currentPath threshold
  = Some (result, written) ->
  exists q, difference result = Fin q /\ (0 <= q)%Q /\ (q <= 100)%Q.
Proof.
  intros Hb Hpix Hlen. unfold compareScreenshots. rewrite Hb.
  destruct (metadata (sharp currentPath)) as [currentMeta|]; [|discriminate].
  destruct (negb (width baselineMeta =? width currentMeta)
            || negb (height baselineMeta =? height currentMeta)).
  - intros H. injection H as <- _. exists 100%Q. simpl.
    split; [reflexivity|]. split; unfold Qle; simpl; lia.
  - destruct (raw (sharp baselinePath)) as [bb|]; [|discriminate].
    destruct (raw (sharp currentPath)) as [cb|]; [|discriminate].
    specialize (Hlen bb eq_refl).
    pose proof (loop_count (channels_or_3 baselineMeta) bb cb
                  (strides (N.of_nat (List.length bb)) (channels_or_3 baselineMeta))
                  (0, alloc (List.length bb))) as Hcount.
    fold (pixelLoop (channels_or_3 baselineMeta) bb cb) in Hcount.
    pose proof (filter_length_le (pixelDiff (channels_or_3 baselineMeta) bb cb)
                  (strides (N.of_nat (List.length bb)) (channels_or_3 baselineMeta)))
      as Hle.
    rewrite length_strides, Hlen, strides_of_whole_pixels in Hle
      by apply CompareFacts.channels_or_3_positive.
    destruct (pixelLoop (channels_or_3 baselineMeta) bb cb) as [n d].
    cbn [fst] in Hcount. rewrite Hlen in Hcount.
    destruct (percent_bounded (n := n)
                (total := width baselineMeta * height baselineMeta))
      as [q [Hq Hrange]]; [exact Hpix | lia |].
    destruct (negb (le (percent n (width baselineMeta * height baselineMeta)) threshold));
      intros H; injection H as <- _; exists q; simpl; split; assumption.
Qed.

Lemma difference_is_a_percentage_witness :
  exists q,
    difference
      {| is_match := false; difference := Fin (25 # 4);
         diffImagePath := Some "screenshots/diffs/diff_t0.png"%string;
         diffImageData :=
           Some {| raw_width := 4; raw_height := 4; raw_channels := 3;
                   raw_data := Samples.red_pixels 4 |} |} = Fin q
    /\ (0 <= q)%Q /\ (q <= 100)%Q.
Proof.
  apply (@difference_is_a_percentage Samples.store "screenshots/diffs"%string
           "t0"%string "baseline.png"%string "blue.png"%string (Fin 0)
           {| width := 4; height := 4; channels := Some 3 |}
           _
           [("screenshots/diffs/diff_t0.png"%string,
             {| raw_width := 4; raw_height := 4; raw_channels := 3;
                raw_data := Samples.red_pixels 4 |})]).
  - reflexivity.
  - simpl. lia.
  - intros baselineBuffer H. injection H as <-. reflexivity.
  - vm_compute. reflexivity.
Defined.

(** The order of numbers is transitive. *)
Lemma le_trans (a b c : number) : le a b = true -> le b c = true -> le a c = true.
Proof.
  destruct a as [x| | |], b as [y| | |], c as [z| | |]; simpl;
    try discriminate; try reflexivity.
  intros Hxy Hyz. apply Qle_bool_iff. apply Qle_bool_iff in Hxy, Hyz.
  eapply Qle_trans; eassumption.
Qed.

(** X15. A comparison that matches at a threshold matches, with the same
    result and without writing a file, at every larger threshold. *)
Theorem match_is_monotone_in_the_threshold
    (sharp : string -> Sharp) (DIFF_DIR timestamp baselinePath currentPath : string)
    (threshold larger : number) (result : ComparisonResult) (written : Writes) :
  compareScreenshots sharp DIFF_DIR timestamp baselinePath currentPath threshold
  = Some (result, written) ->
  is_match result = true ->
  le threshold larger = true ->
  compareScreenshots sharp DIFF_DIR timestamp baselinePath currentPath larger
  = Some (result, written) /\ written = [].
Proof.
  unfold compareScreenshots.
  destruct (metadata (sharp baselinePath)) as [baselineMeta|]; [|discriminate].
  destruct (metadata (sharp currentPath)) as [currentMeta|]; [|discriminate].
  destruct (negb (width baselineMeta =? width currentMeta)
            || negb (height baselineMeta =? height currentMeta)).
  - intros H Hm. injection H as <- _. discriminate.
  - destruct (raw (sharp baselinePath)) as [bb|]; [|discriminate].
    destruct (raw (sharp currentPath)) as [cb|]; [|discriminate].
    destruct (pixelLoop (channels_or_3 baselineMeta) bb cb) as [n d].
    destruct (le (percent n (width baselineMeta * height baselineMeta)) threshold)
      eqn:El; simpl.
    + intros H _ Hlarger. rewrite (le_trans _ _ _ El Hlarger). simpl.
      injection H as <- <-. split; reflexivity.
    + intros H Hm. injection H as <- _. discriminate.
Qed.

Lemma match_is_monotone_in_the_threshold_witness :
  compareScreenshots Samples.store "screenshots/diffs" "t0"
    "baseline.png" "blue.png" (Fin 50)
  = Some ({| is_match := true; difference := Fin (25 # 4);
             diffImagePath := None; diffImageData := None |}, [])
  /\ @nil (string * RawImage) = [].
Proof.
  apply (@match_is_monotone_in_the_threshold Samples.store "screenshots/diffs"%string
           "t0"%string "baseline.png"%string "blue.png"%string
           (Fin (25 # 4)) (Fin 50)).
  - vm_compute. reflexivity.
  - reflexivity.
  - reflexivity.
Defined.

(** *** The two directions of a comparison *)

Lemma channelDiff_sym (a b : option N) : channelDiff a b = channelDiff b a.
Proof.
  destruct a as [x|], b as [y|]; simpl; try reflexivity.
  replace (Z.of_N y - Z.of_N x)%Z with (- (Z.of_N x - Z.of_N y))%Z by lia.
  rewrite Z.abs_opp. reflexivity.
Qed.

Lemma pixelDiff_sym chans (a b : Buffer) i :
  pixelDiff chans a b i = pixelDiff chans b a i.
Proof.
  unfold pixelDiff. induction (range chans) as [|c cs IH]; simpl; [reflexivity|].
  rewrite channelDiff_sym, IH. reflexivity.
Qed.

Lemma diffPixels_sym chans (a b : Buffer) :
  List.length a = List.length b ->
  fst (pixelLoop chans a b) = fst (pixelLoop chans b a).
Proof.
  intros Hlen. unfold pixelLoop. rewrite !loop_count, Hlen. simpl. f_equal. f_equal.
  apply filter_ext. intros i. apply pixelDiff_sym.
Qed.

(** X16. For two images that decode, with buffers of one length and the
    same number of channels, the comparison gives the same [match] and
    the same [difference] in both directions. *)
Theorem comparison_is_symmetric
    (sharp : string -> Sharp) (DIFF_DIR timestamp first second : string)
    (threshold : number) (firstMeta secondMeta : Metadata)
    (firstBuffer secondBuffer : Buffer) :
  metadata (sharp first) = Some firstMeta ->
  metadata (sharp second) = Some secondMeta ->
  raw (sharp first) = Some firstBuffer ->
  raw (sharp second) = Some secondBuffer ->
  channels_or_3 firstMeta = channels_or_3 secondMeta ->
  List.length firstBuffer = List.length secondBuffer ->
  exists forth back,
    compareScreenshots sharp DIFF_DIR timestamp first second threshold = Some forth
    /\ compareScreenshots sharp DIFF_DIR timestamp second first threshold = Some back
    /\ is_match (fst forth) = is_match (fst back)
    /\ difference (fst forth) = difference (fst back).
Proof.
  intros Hm1 Hm2 Hr1 Hr2 Hch Hlen. unfold compareScreenshots.
  rewrite Hm1, Hm2, Hr1, Hr2.
  rewrite (N.eqb_sym (width secondMeta)), (N.eqb_sym (height secondMeta)).
  destruct (N.eqb_spec (width firstMeta) (width secondMeta)) as [Ew|Ew];
    destruct (N.eqb_spec (height firstMeta) (height secondMeta)) as [Eh|Eh];
    simpl.
  2-4: eexists; eexists; repeat split; reflexivity.
  pose proof (diffPixels_sym (channels_or_3 firstMeta) firstBuffer secondBuffer Hlen)
    as Hcount.
  rewrite <- Hch, <- Ew, <- Eh.
  destruct (pixelLoop (channels_or_3 firstMeta) firstBuffer secondBuffer) as [n d].
  destruct (pixelLoop (channels_or_3 firstMeta) secondBuffer firstBuffer) as [n' d'].
  simpl in Hcount. subst n'.
  destruct (le (percent n (width firstMeta * height firstMeta)) threshold); simpl;
    eexists; eexists; repeat split; reflexivity.
Qed.

Lemma comparison_is_symmetric_witness :
  exists forth back,
    compareScreenshots Samples.store "screenshots/diffs" "t0"
      "baseline.png" "blue.png" (Fin 0) = Some forth
    /\ compareScreenshots Samples.store "screenshots/diffs" "t0"
         "blue.png" "baseline.png" (Fin 0) = Some back
    /\ is_match (fst forth) = is_match (fst back)
    /\ difference (fst forth) = difference (fst back).
Proof.
  apply (@comparison_is_symmetric Samples.store "screenshots/diffs"%string
           "t0"%string "baseline.png"%string "blue.png"%string (Fin 0)
           {| width := 4; height := 4; channels := Some 3 |}
           {| width := 4; height := 4; channels := Some 3 |}
           (Samples.red_pixels 4)
           ([0; 0; 255] ++ List.tl (List.tl (List.tl (Samples.red_pixels 4))))%list).
  - reflexivity.
  - reflexivity.
  - reflexivity.
  - reflexivity.
  - reflexivity.
  - reflexivity.
Defined.

End CompareLoopFacts.

(* ================================================================== *)
(** ** Signatures taken apart again *)

Module KeyFacts.
Import Text Aggregator Pattern Observation Machine Notions SignatureFacts MachineFacts.

Local Open Scope string_scope.

(** *** [split] and [join] *)

Lemma split_not_nil sep s : split sep s <> [].
Proof.
  induction s as [|c s IH]; simpl; [discriminate|].
  destruct (Ascii.eqb c sep); [discriminate|].
  destruct (split sep s); discriminate.
Qed.

Lemma join_split sep s : join (String sep EmptyString) (split sep s) = s.
Proof.
  induction s as [|c s IH]; simpl; [reflexivity|].
  pose proof (split_not_nil sep s) as Hne.
  destruct (Ascii.eqb_spec c sep) as [->|Hc];
    destruct (split sep s) as [|hd [|y tl]]; try congruence; simpl in *;
    rewrite IH; reflexivity.
Qed.

Lemma split_prefix sep a b :
  all_chars (is_not sep) a = true ->
  split sep (a ++ String sep b) = a :: split sep b.
Proof.
  induction a as [|c a IH]; simpl; intros Ha.
  - rewrite Ascii.eqb_refl. reflexivity.
  - apply andb_true_iff in Ha. destruct Ha as [Hc Ha].
    unfold is_not in Hc. apply negb_true_iff in Hc. rewrite Hc, (IH Ha). reflexivity.
Qed.

Lemma split_whole sep a : all_chars (is_not sep) a = true -> split sep a = [a].
Proof.
  induction a as [|c a IH]; simpl; intros Ha; [reflexivity|].
  apply andb_true_iff in Ha. destruct Ha as [Hc Ha].
  unfold is_not in Hc. apply negb_true_iff in Hc. rewrite Hc, (IH Ha). reflexivity.
Qed.

Lemma all_chars_weaken (p q : ascii -> bool) s :
  (forall c, p c = true -> q c = true) ->
  all_chars p s = true -> all_chars q s = true.
Proof.
  intros Hpq. induction s as [|c s IH]; simpl; intros H; [reflexivity|].
  apply andb_true_iff in H. destruct H as [Hc H].
  rewrite (Hpq c Hc), (IH H). reflexivity.
Qed.

Lemma word_char_is_no_colon c : is_word_char c = true -> is_not ":" c = true.
Proof. by_cases_on_char c. Qed.

Lemma code_char_is_no_colon c : is_code_char c = true -> is_not ":" c = true.
Proof. by_cases_on_char c. Qed.

(** *** The two parts of a key *)

Lemma key_of_shader s :
  key_category (getErrorKey (Shader s)) = "shader"
  /\ key_errorType (getErrorKey (Shader s))
     = ShaderErrorType_name (se_type s) ++ ":"
       ++ match se_shaderType s with
          | Some t => ShaderType_name t
          | None => "program"
          end.
Proof.
  split; [reflexivity|].
  unfold key_errorType, getErrorKey.
  match goal with
  | |- join ":" (List.tl (split ":" ("shader:" ++ ?x))) = _ =>
      change ("shader:" ++ x) with ("shader" ++ String ":" x)
  end.
  rewrite split_prefix by reflexivity. simpl List.tl. apply join_split.
Qed.

Lemma key_of_runtime r :
  key_category (getErrorKey (Runtime r)) = "webgl"
  /\ key_errorType (getErrorKey (Runtime r)) = extractErrorType (we_message r).
Proof.
  split; [reflexivity|].
  unfold key_errorType, getErrorKey.
  match goal with
  | |- join ":" (List.tl (split ":" ("webgl:" ++ ?x))) = _ =>
      change ("webgl:" ++ x) with ("webgl" ++ String ":" x)
  end.
  rewrite split_prefix by reflexivity. simpl List.tl. apply join_split.
Qed.

(** X17. The key that [getErrorKey] builds is taken apart again by
    [sendAggregatedNotification] without loss: the category is [shader]
    for a shader event and [webgl] for a runtime event, and the error type
    is the part after the first colon, that is the type and the shader
    type of a shader event, and the signature that [extractErrorType]
    gave for a runtime event, colons included. *)
Theorem key_is_taken_apart_without_loss (error : ErrorEvent) :
  key_category (getErrorKey error)
  = match error with Shader _ => "shader" | Runtime _ => "webgl" end
  /\ key_errorType (getErrorKey error)
     = match error with
       | Shader s =>
           ShaderErrorType_name (se_type s) ++ ":"
           ++ match se_shaderType s with
              | Some t => ShaderType_name t
              | None => "program"
              end
       | Runtime r => extractErrorType (we_message r)
       end
  /\ getErrorKey error
     = key_category (getErrorKey error) ++ ":" ++ key_errorType (getErrorKey error).
Proof.
  destruct error as [r|s].
  - destruct (key_of_runtime r) as [Hc Ht]. rewrite Hc, Ht.
    repeat split; reflexivity.
  - destruct (key_of_shader s) as [Hc Ht]. rewrite Hc, Ht.
    repeat split; reflexivity.
Qed.

(** *** Groups of one kind *)

Lemma keys_of_two_kinds r s : getErrorKey (Runtime r) <> getErrorKey (Shader s).
Proof. unfold getErrorKey. intros H. discriminate H. Qed.

(** X18. After every run of a new aggregator, every open group is of one
    kind: its key has the category [shader] and all its members are shader
    events, or its key has the category [webgl] and all its members are
    runtime events.  The casts of [sendAggregatedNotification] are never
    wrong. *)
Theorem open_groups_are_of_one_kind
    (config : AggregatorConfig) (t : Z) (outcomes : list bool)
    (events : list (Z * Event)) :
  Forall (fun entry =>
            (key_category (fst entry) = "shader"
             /\ Forall (fun e => exists s, e = Shader s) (errors (snd entry)))
            \/ (key_category (fst entry) = "webgl"
                /\ Forall (fun e => exists r, e = Runtime r) (errors (snd entry))))
         (errorBatch (instance (world_after config t outcomes events))).
Proof.
  destruct (steady_run config t outcomes events) as [_ [[Hall _] _]].
  unfold world_after. eapply Forall_impl; [|exact Hall].
  intros [key batch] [Hne [Hkeys _]]. simpl in *.
  destruct (errors batch) as [|first others] eqn:E; [congruence|].
  inversion Hkeys as [|x xs Hfirst Hothers]; subst.
  destruct first as [r|s].
  - right. split; [apply key_of_runtime|].
    constructor; [exists r; reflexivity|].
    eapply Forall_impl; [|exact Hothers].
    intros [r'|s'] Hk; [exists r'; reflexivity|].
    exfalso. apply (@keys_of_two_kinds r s'). symmetry. exact Hk.
  - left. split; [apply key_of_shader|].
    constructor; [exists s; reflexivity|].
    eapply Forall_impl; [|exact Hothers].
    intros [r'|s'] Hk; [|exists s'; reflexivity].
    exfalso. apply (@keys_of_two_kinds r' s). exact Hk.
Qed.

(** *** The text of a runtime summary *)

Lemma match_caps_chars : forall s run,
  match_caps s = Some run -> all_chars is_code_char run = true.
Proof.
  induction s as [|c s IH]; intros run; simpl; [discriminate|].
  destruct (is_code_char c) eqn:Ec.
  - intros H. injection H as <-.
    destruct (span is_code_char s) as [a b] eqn:Es. simpl.
    rewrite Ec. simpl.
    destruct (span_sound is_code_char s Es) as [_ [Ha _]]. exact Ha.
  - apply IH.
Qed.

Lemma extractErrorType_fallback message :
  match_webgl message = None ->
  all_chars (is_not ":") (extractErrorType message) = true.
Proof.
  intros H. unfold extractErrorType. rewrite H.
  destruct (match_caps message) as [run|] eqn:Ec; [|reflexivity].
  apply all_chars_weaken with (p := is_code_char);
    [exact code_char_is_no_colon | exact (match_caps_chars _ Ec)].
Qed.

Lemma recognised_parts message code operation :
  match_webgl message = Some (code, operation) ->
  all_chars is_code_char code = true /\ all_chars is_word_char operation = true.
Proof.
  intros H. apply match_webgl_is_first in H.
  destruct H as [before [between1 [rest [[tail [_ [_ Hat]]] _]]]].
  destruct Hat as [space1 [space2 [_ [_ [Hc [_ [_ [Ho _]]]]]]]].
  split; assumption.
Qed.

(** X19. The summary of a runtime group whose signature came from the
    fallback pattern (the message has no match of the pattern with
    [WebGL]): the signature has no colon, so the operation is undefined,
    and for a total other than 1 the text begins with the signature
    followed by the words [in undefined]. *)
Theorem summary_of_a_fallback_signature
    (message : string) (total : N) (uniqueMessages : list value) :
  match_webgl message = None ->
  total <> 1%N ->
  createWebGLErrorSummary (extractErrorType message) total uniqueMessages
  = Some (extractErrorType message ++ " in undefined ("
            ++ show_N total ++ " occurrences): "
            ++ join "; " (map join_item (firstn 2 uniqueMessages))
            ++ (if (2 <? N.of_nat (List.length uniqueMessages))%N
                then " ... and " ++ show_N (N.of_nat (List.length uniqueMessages) - 2)
                       ++ " more variations"
                else "")).
Proof.
  intros Hno Htotal. unfold createWebGLErrorSummary.
  rewrite (split_whole ":" _ (extractErrorType_fallback message Hno)).
  apply N.eqb_neq in Htotal. rewrite Htotal.
  cbn [nth_error value_eqb show]. rewrite !andb_false_r. reflexivity.
Qed.

Lemma summary_of_a_fallback_signature_witness :
  createWebGLErrorSummary
    (extractErrorType "GL_INVALID_ENUM : texParameter: invalid enum") 7
    [Some "GL_INVALID_ENUM : texParameter: invalid enum"]
  = Some (extractErrorType "GL_INVALID_ENUM : texParameter: invalid enum"
            ++ " in undefined ("
            ++ show_N 7 ++ " occurrences): "
            ++ join "; " (map join_item
                            (firstn 2 [Some "GL_INVALID_ENUM : texParameter: invalid enum"]))
            ++ (if (2 <? N.of_nat
                           (List.length
                              [Some "GL_INVALID_ENUM : texParameter: invalid enum"]))%N
                then " ... and "
                       ++ show_N (N.of_nat
                                    (List.length
                                       [Some "GL_INVALID_ENUM : texParameter: invalid enum"])
                                  - 2)
                       ++ " more variations"
                else "")).
Proof.
  apply (@summary_of_a_fallback_signature
           "GL_INVALID_ENUM : texParameter: invalid enum" 7
           [Some "GL_INVALID_ENUM : texParameter: invalid enum"]).
  - vm_compute. reflexivity.
  - discriminate.
Defined.

(** X20. The summary of a runtime group whose signature came from the
    pattern with [WebGL]: [createWebGLErrorSummary] gets the code and the
    operation of the match back from the signature, and for a total other
    than 1 gives one of the two fixed texts for [useProgram] and
    [drawElements] after [INVALID_OPERATION], and otherwise the code, the
    word [in], the operation, the count and the first two distinct
    messages. *)
Theorem summary_of_a_recognised_signature
    (message code operation : string) (total : N) (uniqueMessages : list value) :
  match_webgl message = Some (code, operation) ->
  total <> 1%N ->
  createWebGLErrorSummary (extractErrorType message) total uniqueMessages
  = if String.eqb code "INVALID_OPERATION" && String.eqb operation "useProgram"
    then Some ("WebGL: INVALID_OPERATION: useProgram: program not valid ("
                 ++ show_N total ++ " occurrences)")
    else if String.eqb code "INVALID_OPERATION" && String.eqb operation "drawElements"
    then Some ("WebGL: INVALID_OPERATION: drawElements: no valid shader program in use ("
                 ++ show_N total ++ " occurrences)")
    else Some (code ++ " in " ++ operation ++ " ("
                 ++ show_N total ++ " occurrences): "
                 ++ join "; " (map join_item (firstn 2 uniqueMessages))
                 ++ (if (2 <? N.of_nat (List.length uniqueMessages))%N
                     then " ... and "
                            ++ show_N (N.of_nat (List.length uniqueMessages) - 2)
                            ++ " more variations"
                     else "")).
Proof.
  intros Hm Htotal. destruct (recognised_parts _ Hm) as [Hc Ho].
  unfold createWebGLErrorSummary, extractErrorType. rewrite Hm.
  change (code ++ ":" ++ operation) with (code ++ String ":" operation).
  rewrite split_prefix
    by (apply all_chars_weaken with (p := is_code_char);
        [exact code_char_is_no_colon | exact Hc]).
  rewrite split_whole
    by (apply all_chars_weaken with (p := is_word_char);
        [exact word_char_is_no_colon | exact Ho]).
  apply N.eqb_neq in Htotal. rewrite Htotal.
  cbn [nth_error value_eqb show]. reflexivity.
Qed.

Lemma summary_of_a_recognised_signature_witness :
  createWebGLErrorSummary
    (extractErrorType "WebGL: INVALID_VALUE: texImage2D: bad size") 4
    [Some "WebGL: INVALID_VALUE: texImage2D: bad size"]
  = if String.eqb "INVALID_VALUE" "INVALID_OPERATION" && String.eqb "texImage2D" "useProgram"
    then Some ("WebGL: INVALID_OPERATION: useProgram: program not valid ("
                 ++ show_N 4 ++ " occurrences)")
    else if String.eqb "INVALID_VALUE" "INVALID_OPERATION"
            && String.eqb "texImage2D" "drawElements"
    then Some ("WebGL: INVALID_OPERATION: drawElements: no valid shader program in use ("
                 ++ show_N 4 ++ " occurrences)")
    else Some ("INVALID_VALUE" ++ " in " ++ "texImage2D" ++ " ("
                 ++ show_N 4 ++ " occurrences): "
                 ++ join "; " (map join_item
                                 (firstn 2 [Some "WebGL: INVALID_VALUE: texImage2D: bad size"]))
                 ++ (if (2 <? N.of_nat
                                (List.length
                                   [Some "WebGL: INVALID_VALUE: texImage2D: bad size"]))%N
                     then " ... and "
                            ++ show_N (N.of_nat
                                         (List.length
                                            [Some "WebGL: INVALID_VALUE: texImage2D: bad size"])
                                       - 2)
                            ++ " more variations"
                     else "")).
Proof.
  apply (@summary_of_a_recognised_signature
           "WebGL: INVALID_VALUE: texImage2D: bad size" "INVALID_VALUE" "texImage2D" 4
           [Some "WebGL: INVALID_VALUE: texImage2D: bad size"]).
  - vm_compute. reflexivity.
  - discriminate.
Defined.

(** *** The notification of a shader group *)

(** X21. After every run of a new aggregator, the notification built for
    an open group whose first member is a shader event has the type of
    that event ([webgl.error.shader_compilation] or
    [webgl.error.program_linking]), the severity [error], and carries the
    first member with its log replaced: by the log itself when the group
    has one member, and otherwise by the number of members, the shader
    type, the error type (in which the shader type comes again) and the
    first three distinct logs. *)
Theorem shader_group_notification
    (config : AggregatorConfig) (t : Z) (outcomes : list bool)
    (events : list (Z * Event))
    (key : string) (batch : ErrorBatch) (s : ShaderCompilationError)
    (others : list ErrorEvent) (now : Z) :
  In (key, batch) (errorBatch (instance (world_after config t outcomes events))) ->
  errors batch = Shader s :: others ->
  let shaderType :=
    match se_shaderType s with Some t => ShaderType_name t | None => "program" end in
  let logs := unique (map errorLog_of (errors batch)) in
  aggregatedNotification key batch now
  = Returned
      {| n_type := match se_type s with
                   | shader_compilation => webgl_error_shader_compilation
                   | program_linking => webgl_error_program_linking
                   end;
         n_timestamp := now;
         n_error :=
           ShaderSummary (Shader s)
             (match others with
              | [] => Some (se_errorLog s)
              | _ :: _ =>
                  Some (show_N (N.of_nat (List.length (errors batch))) ++ " "
                          ++ shaderType ++ " "
                          ++ (ShaderErrorType_name (se_type s) ++ ":" ++ shaderType)
                          ++ " errors:" ++ nl
                          ++ join nl (map join_item (firstn 3 logs))
                          ++ (if (3 <? N.of_nat (List.length logs))%N
                              then nl ++ "... and "
                                     ++ show_N (N.of_nat (List.length logs) - 3)
                                     ++ " more"
                              else ""))
              end);
         n_severity := sev_error |}.
Proof.
  intros Hin E. cbv zeta.
  destruct (steady_run config t outcomes events) as [_ [[Hall _] _]].
  unfold world_after in Hin.
  pose proof (proj1 (Forall_forall _ _) Hall _ Hin) as [_ [Hkeys _]].
  simpl in Hkeys. rewrite E in Hkeys.
  inversion Hkeys as [|x xs Hkey _]; subst x xs.
  unfold aggregatedNotification. rewrite <- Hkey.
  destruct (key_of_shader s) as [Hc Ht]. rewrite Hc, Ht.
  change (String.eqb "shader" "shader") with true. cbv iota.
  rewrite E. unfold createShaderErrorSummary.
  assert (Hincl : includes "compilation"
                    (ShaderErrorType_name (se_type s) ++ ":"
                     ++ match se_shaderType s with
                        | Some t0 => ShaderType_name t0
                        | None => "program"
                        end)
                  = match se_type s with
                    | shader_compilation => true
                    | program_linking => false
                    end).
  { destruct (se_type s), (se_shaderType s) as [[]|]; reflexivity. }
  rewrite Hincl.
  assert (Hst : match shaderType_of (Shader s) with Some t0 => t0 | None => "program" end
                = match se_shaderType s with
                  | Some t0 => ShaderType_name t0
                  | None => "program"
                  end).
  { simpl. destruct (se_shaderType s); reflexivity. }
  rewrite Hst.
  destruct others as [|second others].
  - simpl. destruct (se_type s); reflexivity.
  - destruct (N.eqb_spec (N.of_nat (List.length (Shader s :: second :: others))) 1)
      as [Hone|_]; [simpl List.length in Hone; lia|].
    destruct (se_type s); reflexivity.
Qed.

Lemma shader_group_notification_witness :
  exists n,
    aggregatedNotification "shader:shader_compilation:vertex" Samples.vertex_batch 30
    = Returned n
    /\ n_type n = webgl_error_shader_compilation
    /\ n_severity n = sev_error.
Proof.
  eexists. split.
  - apply (@shader_group_notification default_config 0 [] two_vertex_errors
             "shader:shader_compilation:vertex" Samples.vertex_batch
             {| se_id := "45c48cce2e2d7fbdea1afc51c7c6ad26";
                se_type := shader_compilation;
                se_shaderType := Some vertex;
                se_source := None;
                se_errorLog := "ERROR: 0:1: syntax error";
                se_lineNumber := None;
                se_timestamp := 0;
                se_url := None |}
             [Samples.vertex_error "ERROR: 0:7: undeclared identifier"] 30).
    + vm_compute. left. reflexivity.
    + reflexivity.
  - split; reflexivity.
Defined.

End KeyFacts.

(* ================================================================== *)
(** ** Properties of the tracker and of the console listener *)

Module TrackerFacts.
Import Text Aggregator Observation Machine Notions Tracker AggregatorFacts MachineFacts.

Lemma Map_get_set_same {V : Type} k (v : V) : forall m, Map_get k (Map_set k v m) = Some v.
Proof.
  induction m as [|[k' v'] m IH]; simpl.
  - rewrite String.eqb_refl. reflexivity.
  - destruct (String.eqb_spec k' k) as [->|Hne]; simpl.
    + rewrite String.eqb_refl. reflexivity.
    + apply String.eqb_neq in Hne. rewrite Hne. exact IH.
Qed.

Lemma Map_get_set_other {V : Type} k (v : V) k0 : forall m,
  k0 <> k -> Map_get k0 (Map_set k v m) = Map_get k0 m.
Proof.
  intros m Hne. induction m as [|[k' v'] m IH]; simpl.
  - destruct (String.eqb_spec k k0); [congruence | reflexivity].
  - destruct (String.eqb_spec k' k) as [->|Hk]; simpl.
    + destruct (String.eqb_spec k k0); [congruence | reflexivity].
    + destruct (String.eqb_spec k' k0); [reflexivity | exact IH].
Qed.

Section WithHash.

Variable generateHash : string -> string.

(** The map after one call, whatever the write does. *)
Lemma trackWebGLError_errorMap error now st :
  errorMap (snd (trackWebGLError generateHash error now st))
  = Map_set (generateHash (report_message error))
      match Map_get (generateHash (report_message error)) (errorMap st) with
      | Some existingError =>
          {| we_id := we_id existingError;
             we_message := we_message existingError;
             we_timestamp := now;
             we_count := we_count existingError + 1;
             we_url := we_url existingError;
             we_functionName := we_functionName existingError |}
      | None =>
          {| we_id := generateHash (report_message error);
             we_message := report_message error;
             we_timestamp := now;
             we_count := 1;
             we_url := report_url error;
             we_functionName := report_functionName error |}
      end
      (errorMap st).
Proof.
  unfold trackWebGLError, saveErrors.
  destruct (Map_get (generateHash (report_message error)) (errorMap st));
    simpl; destruct (disk st) as [|[] rest]; reflexivity.
Qed.

(** X22. The tracker counts every report, also one whose write to
    [errors.json] fails: after any sequence of calls of [trackWebGLError],
    the entry of an identifier has the count it had before plus the
    number of reports with that identifier (a new entry starts at 1), and
    keeps the message it had before; an identifier without entry and
    without report has none. *)
Theorem tracker_counts_every_report
    (reports : list (Z * ErrorReport)) (st : Store) (id : string) :
  option_map we_count (Map_get id (errorMap (track_all generateHash reports st)))
  = match Map_get id (errorMap st) with
    | Some e => Some (we_count e + occurrences generateHash id reports)%N
    | None => if (occurrences generateHash id reports =? 0)%N then None
              else Some (occurrences generateHash id reports)
    end
  /\ match Map_get id (errorMap st) with
     | Some e => option_map we_message
                   (Map_get id (errorMap (track_all generateHash reports st)))
                 = Some (we_message e)
     | None => True
     end.
Proof.
  revert st. unfold track_all, occurrences.
  induction reports as [|[now r] reports IH]; intros st.
  - simpl. destruct (Map_get id (errorMap st)) as [e|]; simpl;
      [rewrite N.add_0_r|]; split; reflexivity.
  - cbn [fold_left filter fst snd].
    specialize (IH (snd (trackWebGLError generateHash r now st))).
    rewrite trackWebGLError_errorMap in IH.
    destruct (String.eqb_spec (generateHash (report_message r)) id) as [Eid|Eid].
    + rewrite Eid in IH. rewrite Map_get_set_same in IH.
      destruct IH as [IHc IHm]. rewrite IHc.
      destruct (Map_get id (errorMap st)) as [e|]; cbn [we_count we_message List.length] in *.
      * split; [f_equal; lia | exact IHm].
      * split; [|exact I].
        match goal with
        | |- context [(?n =? 0)%N] => destruct (N.eqb_spec n 0) as [H0|H0]; [lia|]
        end.
        f_equal. lia.
    + rewrite Map_get_set_other in IH by congruence. exact IH.
Qed.

(** *** The listener *)

Lemma try_catch_returned (m : M unit) handler w :
  fst (m w) = Returned tt -> after (try_catch m handler) w = after m w.
Proof.
  unfold after, try_catch. destruct (m w) as [[[]|r] w']; simpl;
    [reflexivity | discriminate].
Qed.

(** The aggregator after the listener has handed [error] over. *)
Lemma handed_over error handler w :
  instance (after (try_catch (addError error) handler) w)
  = added error (clock w) (instance w)
  /\ clock (after (try_catch (addError error) handler) w) = clock w.
Proof.
  destruct (acts_at_addError error w) as [Hr [Hi Hc]].
  rewrite (try_catch_returned _ handler w Hr). split; assumption.
Qed.

(** An active aggregator below its limit counts the error and stays
    active. *)
Lemma added_below_limit error now a :
  isActive a = true -> isProcessing a = false ->
  (totalErrorCount a + errorCount_of error < maxErrorsBeforeStop a)%N ->
  totalErrorCount (added error now a) = (totalErrorCount a + errorCount_of error)%N
  /\ isActive (added error now a) = true
  /\ isProcessing (added error now a) = false
  /\ maxErrorsBeforeStop (added error now a) = maxErrorsBeforeStop a.
Proof.
  intros Ha Hp Hlt. unfold added. rewrite Ha. change (negb true) with false.
  cbv iota zeta.
  cbn [maxErrorsBeforeStop totalErrorCount set_totalErrorCount].
  rewrite (proj2 (N.leb_gt _ _) Hlt).
  match goal with
  | |- context [if ?c then flush ?a2 else ?a2] =>
      destruct c;
        [rewrite flush_keeps_total, flush_keeps_session;
         unfold flush;
         destruct (negb (isActive a2) || isProcessing a2
                   || (map_size (errorBatch a2) =? 0)%N) |];
        cbn; repeat split; assumption
  end.
Qed.

Lemma triangle_succ n : triangle (n + 1) = (triangle n + (n + 1))%N.
Proof.
  unfold triangle.
  replace ((n + 1) * (n + 1 + 1))%N with (n * (n + 1) + (n + 1) * 2)%N by lia.
  apply N.div_add. discriminate.
Qed.

Lemma listen_cons msg msgs st :
  listen generateHash (msg :: msgs) st
  = listen generateHash msgs (on_console generateHash msg st).
Proof. reflexivity. Qed.

(** One report of a message, handled by an active aggregator below its
    limit. *)
Lemma on_console_report (report : ErrorReport) (store : Store) (w : World) :
  isActive (instance w) = true ->
  isProcessing (instance w) = false ->
  disk store = [] ->
  (total w + (seen generateHash report store + 1) < maxErrorsBeforeStop (instance w))%N ->
  let st' := on_console generateHash (WEBGL_ERROR_TRACKED report) (store, w) in
  seen generateHash report (fst st') = (seen generateHash report store + 1)%N
  /\ disk (fst st') = []
  /\ total (snd st') = (total w + (seen generateHash report store + 1))%N
  /\ isActive (instance (snd st')) = true
  /\ isProcessing (instance (snd st')) = false
  /\ maxErrorsBeforeStop (instance (snd st')) = maxErrorsBeforeStop (instance w).
Proof.
  intros Ha Hp Hd Hlt. cbv zeta. unfold on_console.
  pose proof (trackWebGLError_errorMap report (clock w) store) as Hmap.
  assert (Hret : exists error,
             fst (trackWebGLError generateHash report (clock w) store) = Returned error
             /\ we_count error = (seen generateHash report store + 1)%N
             /\ disk (snd (trackWebGLError generateHash report (clock w) store)) = []).
  { unfold trackWebGLError, saveErrors, seen. rewrite Hd.
    destruct (Map_get (generateHash (report_message report)) (errorMap store));
      simpl; eexists; repeat split; simpl; lia. }
  destruct Hret as [error [Hr [Hcount Hd']]].
  destruct (trackWebGLError generateHash report (clock w) store) as [o store'].
  simpl in Hr, Hd', Hmap. subst o. cbn [fst snd].
  match goal with
  | |- context [after (try_catch (addError (Runtime error)) ?h) w] =>
      destruct (handed_over (Runtime error) h w) as [Hi _];
      set (w' := after (try_catch (addError (Runtime error)) h) w) in *
  end.
  destruct (added_below_limit (Runtime error) (clock w) (instance w) Ha Hp)
    as [Ht [Ha' [Hp' Hm']]].
  { simpl. rewrite Hcount. exact Hlt. }
  rewrite <- Hi in Ht, Ha', Hp', Hm'. simpl in Ht. rewrite Hcount in Ht.
  split.
  { unfold seen. rewrite Hmap, Map_get_set_same.
    destruct (Map_get (generateHash (report_message report)) (errorMap store));
      simpl; lia. }
  repeat split; assumption.
Qed.

Lemma listen_repeated_report (report : ErrorReport) : forall (n : nat) (store : Store) (w : World),
  isActive (instance w) = true ->
  isProcessing (instance w) = false ->
  disk store = [] ->
  (total w + N.of_nat n * seen generateHash report store + triangle (N.of_nat n)
   < maxErrorsBeforeStop (instance w))%N ->
  let st' := listen generateHash (repeat (WEBGL_ERROR_TRACKED report) n) (store, w) in
  total (snd st')
  = (total w + N.of_nat n * seen generateHash report store + triangle (N.of_nat n))%N
  /\ seen generateHash report (fst st') = (seen generateHash report store + N.of_nat n)%N
  /\ isActive (instance (snd st')) = true.
Proof.
  induction n as [|n IH]; intros store w Ha Hp Hd Hlt; cbv zeta.
  - unfold listen. cbn [repeat fold_left fst snd].
    change (N.of_nat 0) with 0%N. change (triangle 0) with 0%N.
    split; [lia|]. split; [lia | exact Ha].
  - replace (N.of_nat (S n)) with (N.of_nat n + 1)%N in * by lia.
    rewrite triangle_succ in *.
    destruct (on_console_report report store w Ha Hp Hd)
      as [Hs [Hd' [Ht [Ha' [Hp' Hm']]]]]; [nia|].
    cbn [repeat]. rewrite listen_cons.
    destruct (on_console generateHash (WEBGL_ERROR_TRACKED report) (store, w))
      as [store' w'].
    cbn [fst snd] in *.
    specialize (IH store' w' Ha' Hp' Hd').
    cbv zeta in IH. rewrite Ht, Hs, Hm' in IH.
    destruct IH as [IHt [IHs IHa]]; [nia|].
    rewrite IHt, IHs. split; [nia|]. split; [lia | exact IHa].
Qed.

(** X23. The listener hands over the object of the tracker, whose count
    is the number of times the message was seen so far, and the
    aggregator adds that count to its total.  So [n] reports of one
    message, tracked for the first time and handled one after the other
    by an active aggregator, add [1 + 2 + ... + n] to the total, not [n],
    as long as the total stays below [maxErrorsBeforeStop]. *)
Theorem repeated_message_adds_a_triangular_number
    (report : ErrorReport) (n : nat) (store : Store) (w : World) :
  isActive (instance w) = true ->
  isProcessing (instance w) = false ->
  disk store = [] ->
  seen generateHash report store = 0%N ->
  (total w + N.of_nat n * (N.of_nat n + 1) / 2 < maxErrorsBeforeStop (instance w))%N ->
  total (snd (listen generateHash (repeat (WEBGL_ERROR_TRACKED report) n) (store, w)))
  = (total w + N.of_nat n * (N.of_nat n + 1) / 2)%N
  /\ seen generateHash report
       (fst (listen generateHash (repeat (WEBGL_ERROR_TRACKED report) n) (store, w)))
     = N.of_nat n
  /\ isActive
       (instance (snd (listen generateHash (repeat (WEBGL_ERROR_TRACKED report) n)
                         (store, w)))) = true.
Proof.
  intros Ha Hp Hd Hseen Hlt.
  destruct (listen_repeated_report report n store w Ha Hp Hd) as [Ht [Hs Hact]].
  - rewrite Hseen. unfold triangle. lia.
  - cbv zeta in *. rewrite Hseen in *. unfold triangle in Ht.
    split; [rewrite Ht; lia|]. split; [rewrite Hs; lia | exact Hact].
Qed.

(** X24. A report whose write to [errors.json] fails is counted by the
    tracker and lost to the aggregator: the listener logs one line, and
    the aggregator and its emissions stay as they were. *)
Theorem failed_write_is_counted_but_not_aggregated
    (report : ErrorReport) (store : Store) (w : World) (rest : list bool) :
  disk store = false :: rest ->
  let st' := on_console generateHash (WEBGL_ERROR_TRACKED report) (store, w) in
  seen generateHash report (fst st') = (seen generateHash report store + 1)%N
  /\ disk (fst st') = rest
  /\ instance (snd st') = instance w
  /\ sent (snd st') = sent w
  /\ console (snd st')
     = console w ++ ["Failed to track WebGL error: EIO: write failed"%string].
Proof.
  intros Hd. cbv zeta. unfold on_console.
  pose proof (trackWebGLError_errorMap report (clock w) store) as Hmap.
  assert (Hret : fst (trackWebGLError generateHash report (clock w) store)
                 = Thrown "EIO: write failed"
                 /\ disk (snd (trackWebGLError generateHash report (clock w) store)) = rest).
  { unfold trackWebGLError, saveErrors. rewrite Hd.
    destruct (Map_get (generateHash (report_message report)) (errorMap store));
      simpl; split; reflexivity. }
  destruct Hret as [Hr Hd'].
  destruct (trackWebGLError generateHash report (clock w) store) as [o store'].
  simpl in Hr, Hd', Hmap. subst o. cbn [fst snd].
  split.
  { unfold seen. rewrite Hmap, Map_get_set_same.
    destruct (Map_get (generateHash (report_message report)) (errorMap store));
      simpl; lia. }
  repeat split; assumption || reflexivity.
Qed.

(** One shader error, handled by an active aggregator below its limit. *)
Lemma on_console_shader (errorData : ShaderCompilationError) (store : Store) (w : World) :
  isActive (instance w) = true ->
  isProcessing (instance w) = false ->
  disk store = [] ->
  (total w + 1 < maxErrorsBeforeStop (instance w))%N ->
  let st' := on_console generateHash (SHADER_ERROR_TRACKED errorData) (store, w) in
  disk (fst st') = []
  /\ total (snd st') = (total w + 1)%N
  /\ isActive (instance (snd st')) = true
  /\ isProcessing (instance (snd st')) = false
  /\ maxErrorsBeforeStop (instance (snd st')) = maxErrorsBeforeStop (instance w).
Proof.
  intros Ha Hp Hd Hlt. cbv zeta. unfold on_console.
  assert (Hret : exists error,
             fst (trackShaderError generateHash errorData (clock w) store) = Returned error
             /\ disk (snd (trackShaderError generateHash errorData (clock w) store)) = []).
  { unfold trackShaderError, saveShaderErrors, saveErrors. rewrite Hd.
    destruct (Map_get _ (shaderErrorMap store)); simpl; eexists; split; reflexivity. }
  destruct Hret as [error [Hr Hd']].
  destruct (trackShaderError generateHash errorData (clock w) store) as [o store'].
  simpl in Hr, Hd'. subst o. cbn [fst snd].
  match goal with
  | |- context [after (try_catch (addError (Shader error)) ?h) w] =>
      destruct (handed_over (Shader error) h w) as [Hi _];
      set (w' := after (try_catch (addError (Shader error)) h) w) in *
  end.
  destruct (added_below_limit (Shader error) (clock w) (instance w) Ha Hp)
    as [Ht [Ha' [Hp' Hm']]].
  { simpl. exact Hlt. }
  rewrite <- Hi in Ht, Ha', Hp', Hm'. simpl in Ht.
  repeat split; assumption.
Qed.

(** X25. A shader error weighs 1 each time it is reported, however often
    the tracker has seen it: shader errors handled one after the other by
    an active aggregator add their number to the total, as long as the
    total stays below [maxErrorsBeforeStop]. *)
Theorem shader_reports_add_their_number
    (reports : list ShaderCompilationError) (store : Store) (w : World) :
  isActive (instance w) = true ->
  isProcessing (instance w) = false ->
  disk store = [] ->
  (total w + N.of_nat (List.length reports) < maxErrorsBeforeStop (instance w))%N ->
  total (snd (listen generateHash (map SHADER_ERROR_TRACKED reports) (store, w)))
  = (total w + N.of_nat (List.length reports))%N
  /\ isActive
       (instance (snd (listen generateHash (map SHADER_ERROR_TRACKED reports) (store, w))))
     = true.
Proof.
  revert store w.
  induction reports as [|errorData reports IH]; intros store w Ha Hp Hd Hlt.
  - unfold listen. cbn [map fold_left snd List.length].
    change (N.of_nat 0) with 0%N. split; [lia | exact Ha].
  - cbn [map]. rewrite listen_cons. cbn [List.length] in *.
    destruct (on_console_shader errorData store w Ha Hp Hd)
      as [Hd' [Ht [Ha' [Hp' Hm']]]]; [lia|].
    destruct (on_console generateHash (SHADER_ERROR_TRACKED errorData) (store, w))
      as [store' w'].
    cbn [fst snd] in *.
    destruct (IH store' w' Ha' Hp' Hd') as [IHt IHa]; [rewrite Ht, Hm'; lia|].
    rewrite IHt, Ht. split; [lia | exact IHa].
Qed.

End WithHash.

Lemma repeated_message_adds_a_triangular_number_witness :
  total (snd (listen plain_hash (repeat (WEBGL_ERROR_TRACKED useProgram_report) 44)
                (empty_store, world_after default_config 0 [] [(0%Z, call_start)])))
  = (total (world_after default_config 0 [] [(0%Z, call_start)])
     + N.of_nat 44 * (N.of_nat 44 + 1) / 2)%N
  /\ seen plain_hash useProgram_report
       (fst (listen plain_hash (repeat (WEBGL_ERROR_TRACKED useProgram_report) 44)
               (empty_store, world_after default_config 0 [] [(0%Z, call_start)])))
     = N.of_nat 44
  /\ isActive
       (instance
          (snd (listen plain_hash (repeat (WEBGL_ERROR_TRACKED useProgram_report) 44)
                  (empty_store, world_after default_config 0 [] [(0%Z, call_start)]))))
     = true.
Proof.
  apply (@repeated_message_adds_a_triangular_number plain_hash useProgram_report 44
           empty_store (world_after default_config 0 [] [(0%Z, call_start)])).
  - vm_compute. reflexivity.
  - vm_compute. reflexivity.
  - reflexivity.
  - reflexivity.
  - vm_compute. reflexivity.
Defined.

(** With the default limit of 1000, the 45th report of one message stops
    the collection: the total is then 1035. *)
Example the_45th_repetition_stops_the_collection :
  let st := listen plain_hash (repeat (WEBGL_ERROR_TRACKED useProgram_report) 45)
              (empty_store, world_after default_config 0 [] [(0%Z, call_start)]) in
  isActive (instance (snd st)) = false /\ total (snd st) = 1035%N.
Proof. vm_compute. split; reflexivity. Qed.

Lemma failed_write_is_counted_but_not_aggregated_witness :
  seen plain_hash useProgram_report
    (fst (on_console plain_hash (WEBGL_ERROR_TRACKED useProgram_report)
            ({| errorMap := []; shaderErrorMap := []; disk := [false] |},
             world_after default_config 0 [] [(0%Z, call_start)])))
  = (seen plain_hash useProgram_report
       {| errorMap := []; shaderErrorMap := []; disk := [false] |} + 1)%N
  /\ disk (fst (on_console plain_hash (WEBGL_ERROR_TRACKED useProgram_report)
                  ({| errorMap := []; shaderErrorMap := []; disk := [false] |},
                   world_after default_config 0 [] [(0%Z, call_start)]))) = []
  /\ instance (snd (on_console plain_hash (WEBGL_ERROR_TRACKED useProgram_report)
                      ({| errorMap := []; shaderErrorMap := []; disk := [false] |},
                       world_after default_config 0 [] [(0%Z, call_start)])))
     = instance (world_after default_config 0 [] [(0%Z, call_start)])
  /\ sent (snd (on_console plain_hash (WEBGL_ERROR_TRACKED useProgram_report)
                  ({| errorMap := []; shaderErrorMap := []; disk := [false] |},
                   world_after default_config 0 [] [(0%Z, call_start)])))
     = sent (world_after default_config 0 [] [(0%Z, call_start)])
  /\ console (snd (on_console plain_hash (WEBGL_ERROR_TRACKED useProgram_report)
                     ({| errorMap := []; shaderErrorMap := []; disk := [false] |},
                      world_after default_config 0 [] [(0%Z, call_start)])))
     = console (world_after default_config 0 [] [(0%Z, call_start)])
       ++ ["Failed to track WebGL error: EIO: write failed"%string].
Proof.
  apply (@failed_write_is_counted_but_not_aggregated plain_hash useProgram_report
           {| errorMap := []; shaderErrorMap := []; disk := [false] |}
           (world_after default_config 0 [] [(0%Z, call_start)]) []).
  reflexivity.
Defined.

Lemma shader_reports_add_their_number_witness :
  total (snd (listen plain_hash
                (map SHADER_ERROR_TRACKED
                   [{| se_id := ""; se_type := shader_compilation;
                       se_shaderType := Some fragment; se_source := None;
                       se_errorLog := "ERROR: 0:3: syntax error";
                       se_lineNumber := Some 3%N; se_timestamp := 0; se_url := None |};
                    {| se_id := ""; se_type := shader_compilation;
                       se_shaderType := Some fragment; se_source := None;
                       se_errorLog := "ERROR: 0:3: syntax error";
                       se_lineNumber := Some 3%N; se_timestamp := 0; se_url := None |}])
                (empty_store, world_after default_config 0 [] [(0%Z, call_start)])))
  = (total (world_after default_config 0 [] [(0%Z, call_start)])
     + N.of_nat
         (List.length
            [{| se_id := ""; se_type := shader_compilation;
                se_shaderType := Some fragment; se_source := None;
                se_errorLog := "ERROR: 0:3: syntax error";
                se_lineNumber := Some 3%N; se_timestamp := 0; se_url := None |};
             {| se_id := ""; se_type := shader_compilation;
                se_shaderType := Some fragment; se_source := None;
                se_errorLog := "ERROR: 0:3: syntax error";
                se_lineNumber := Some 3%N; se_timestamp := 0; se_url := None |}]))%N
  /\ isActive
       (instance
          (snd (listen plain_hash
                  (map SHADER_ERROR_TRACKED
                     [{| se_id := ""; se_type := shader_compilation;
                         se_shaderType := Some fragment; se_source := None;
                         se_errorLog := "ERROR: 0:3: syntax error";
                         se_lineNumber := Some 3%N; se_timestamp := 0; se_url := None |};
                      {| se_id := ""; se_type := shader_compilation;
                         se_shaderType := Some fragment; se_source := None;
                         se_errorLog := "ERROR: 0:3: syntax error";
                         se_lineNumber := Some 3%N; se_timestamp := 0; se_url := None |}])
                  (empty_store, world_after default_config 0 [] [(0%Z, call_start)]))))
     = true.
Proof.
  apply (@shader_reports_add_their_number plain_hash
           [{| se_id := ""; se_type := shader_compilation;
               se_shaderType := Some fragment; se_source := None;
               se_errorLog := "ERROR: 0:3: syntax error";
               se_lineNumber := Some 3%N; se_timestamp := 0; se_url := None |};
            {| se_id := ""; se_type := shader_compilation;
               se_shaderType := Some fragment; se_source := None;
               se_errorLog := "ERROR: 0:3: syntax error";
               se_lineNumber := Some 3%N; se_timestamp := 0; se_url := None |}]
           empty_store (world_after default_config 0 [] [(0%Z, call_start)])).
  - vm_compute. reflexivity.
  - vm_compute. reflexivity.
  - reflexivity.
  - vm_compute. reflexivity.
Defined.

End TrackerFacts.

(* ================================================================== *)
(** ** Properties of the file names *)

Module FileUtilsFacts.
Import Text Pattern FileUtils SignatureFacts.

Local Open Scope string_scope.

Lemma replace_all_app p by_char a b :
  replace_all p by_char (a ++ b) = replace_all p by_char a ++ replace_all p by_char b.
Proof. induction a as [|c a IH]; simpl; [reflexivity | rewrite IH; reflexivity]. Qed.

Lemma replace_all_untouched p q by_char s :
  (forall c, q c = true -> p c = false) ->
  all_chars q s = true -> replace_all p by_char s = s.
Proof.
  intros Hqp. induction s as [|c s IH]; simpl; intros H; [reflexivity|].
  apply andb_true_iff in H. destruct H as [Hc H].
  rewrite (Hqp c Hc), (IH H). reflexivity.
Qed.

Lemma replace_all_length p by_char s :
  String.length (replace_all p by_char s) = String.length s.
Proof. induction s as [|c s IH]; simpl; [reflexivity | rewrite IH; reflexivity]. Qed.

Lemma replace_first_at target by_char a b :
  all_chars (fun c => negb (Ascii.eqb c target)) a = true ->
  replace_first target by_char (a ++ String target b) = a ++ String by_char b.
Proof.
  induction a as [|c a IH]; simpl; intros H.
  - rewrite Ascii.eqb_refl. reflexivity.
  - apply andb_true_iff in H. destruct H as [Hc H].
    apply negb_true_iff in Hc. rewrite Hc, (IH H). reflexivity.
Qed.

Lemma substring_prefix a b : substring 0 (String.length a) (a ++ b) = a.
Proof.
  induction a as [|c a IH]; simpl.
  - destruct b; reflexivity.
  - rewrite IH. reflexivity.
Qed.

Lemma slice_off_suffix n a b : String.length b = n -> slice_off n (a ++ b) = a.
Proof.
  intros <-. unfold slice_off. rewrite length_append.
  replace (String.length a + String.length b - String.length b)%nat
    with (String.length a) by lia.
  apply substring_prefix.
Qed.

Lemma all_chars_app p a b : all_chars p (a ++ b) = all_chars p a && all_chars p b.
Proof.
  induction a as [|c a IH]; simpl; [reflexivity|].
  rewrite IH, andb_assoc. reflexivity.
Qed.

Lemma all_chars_imp (p q : ascii -> bool) s :
  (forall c, p c = true -> q c = true) ->
  all_chars p s = true -> all_chars q s = true.
Proof.
  intros Hpq. induction s as [|c s IH]; simpl; intros H; [reflexivity|].
  apply andb_true_iff in H. destruct H as [Hc H].
  rewrite (Hpq c Hc), (IH H). reflexivity.
Qed.

Lemma digit_is_no_colon_or_dot c : is_digit c = true -> is_colon_or_dot c = false.
Proof. by_cases_on_char c. Qed.

Lemma date_char_is_no_colon_or_dot c : is_date_char c = true -> is_colon_or_dot c = false.
Proof. by_cases_on_char c. Qed.

Lemma date_char_is_no_T c : is_date_char c = true -> negb (Ascii.eqb c "T") = true.
Proof. by_cases_on_char c. Qed.

Lemma date_char_is_filename_char c : is_date_char c = true -> is_filename_char c = true.
Proof. by_cases_on_char c. Qed.

Lemma digit_is_filename_char c : is_digit c = true -> is_filename_char c = true.
Proof. by_cases_on_char c. Qed.

(** The timestamp of a text of the form [date T hh : mm : ss . fff Z]. *)
Lemma timestamp_of_ISO_text (date hh mm ss fff : string) :
  all_chars is_date_char date = true ->
  all_chars is_digit hh = true ->
  all_chars is_digit mm = true ->
  all_chars is_digit ss = true ->
  String.length fff = 3%nat ->
  generateTimestamp (date ++ "T" ++ hh ++ ":" ++ mm ++ ":" ++ ss ++ "." ++ fff ++ "Z")
  = date ++ "_" ++ hh ++ "-" ++ mm ++ "-" ++ ss.
Proof.
  intros Hd Hh Hm Hs Hf. unfold generateTimestamp.
  rewrite !replace_all_app.
  rewrite (replace_all_untouched is_colon_or_dot is_date_char "-" date
             date_char_is_no_colon_or_dot Hd).
  rewrite (replace_all_untouched is_colon_or_dot is_digit "-" hh
             digit_is_no_colon_or_dot Hh).
  rewrite (replace_all_untouched is_colon_or_dot is_digit "-" mm
             digit_is_no_colon_or_dot Hm).
  rewrite (replace_all_untouched is_colon_or_dot is_digit "-" ss
             digit_is_no_colon_or_dot Hs).
  change (replace_all is_colon_or_dot "-" "T") with "T".
  change (replace_all is_colon_or_dot "-" ":") with "-".
  change (replace_all is_colon_or_dot "-" ".") with "-".
  change ("T" ++ hh ++ "-" ++ mm ++ "-" ++ ss ++ "-"
            ++ replace_all is_colon_or_dot "-" fff
            ++ replace_all is_colon_or_dot "-" "Z")
    with (String "T" (hh ++ "-" ++ mm ++ "-" ++ ss ++ "-"
                         ++ replace_all is_colon_or_dot "-" fff
                         ++ replace_all is_colon_or_dot "-" "Z")).
  rewrite replace_first_at
    by (apply all_chars_imp with (p := is_date_char);
        [exact date_char_is_no_T | exact Hd]).
  change (String "_" (hh ++ "-" ++ mm ++ "-" ++ ss ++ "-"
                        ++ replace_all is_colon_or_dot "-" fff
                        ++ replace_all is_colon_or_dot "-" "Z"))
    with ("_" ++ hh ++ "-" ++ mm ++ "-" ++ ss ++ "-"
              ++ replace_all is_colon_or_dot "-" fff
              ++ replace_all is_colon_or_dot "-" "Z").
  rewrite <- !append_assoc.
  rewrite !append_assoc.
  repeat rewrite <- (append_assoc _ _ ("-" ++ replace_all is_colon_or_dot "-" fff
                                         ++ replace_all is_colon_or_dot "-" "Z")).
  apply slice_off_suffix.
  simpl. rewrite length_append, replace_all_length, Hf. reflexivity.
Qed.

(** X26. [generateTimestamp] on a text of the form that [toISOString]
    gives, [date T hh : mm : ss . fff Z]: the result is the date, an
    underscore, and the hours, minutes and seconds joined by hyphens.  The
    milliseconds are dropped, so two calls within one second give the same
    timestamp. *)
Theorem generateTimestamp_of_an_ISO_text (date hh mm ss fff : string) :
  all_chars is_date_char date = true ->
  all_chars is_digit hh = true ->
  all_chars is_digit mm = true ->
  all_chars is_digit ss = true ->
  String.length fff = 3%nat ->
  generateTimestamp (date ++ "T" ++ hh ++ ":" ++ mm ++ ":" ++ ss ++ "." ++ fff ++ "Z")
  = date ++ "_" ++ hh ++ "-" ++ mm ++ "-" ++ ss.
Proof. intros Hd Hh Hm Hs Hf. apply timestamp_of_ISO_text; assumption. Qed.

Lemma generateTimestamp_of_an_ISO_text_witness :
  generateTimestamp ("2025-01-31" ++ "T" ++ "09" ++ ":" ++ "05" ++ ":" ++ "59"
                       ++ "." ++ "123" ++ "Z")
  = "2025-01-31" ++ "_" ++ "09" ++ "-" ++ "05" ++ "-" ++ "59".
Proof.
  apply (@generateTimestamp_of_an_ISO_text "2025-01-31" "09" "05" "59" "123");
    reflexivity.
Defined.

Lemma sanitize_char c :
  is_filename_char (if negb (is_filename_char c) then "_"%char else c) = true.
Proof. destruct (is_filename_char c) eqn:E; simpl; [exact E | reflexivity]. Qed.

Lemma sanitizeFilename_chars filename :
  all_chars is_filename_char (sanitizeFilename filename) = true.
Proof.
  unfold sanitizeFilename. induction filename as [|c s IH]; simpl; [reflexivity|].
  rewrite sanitize_char, IH. reflexivity.
Qed.

Lemma sanitizeFilename_fixes filename :
  all_chars is_filename_char filename = true -> sanitizeFilename filename = filename.
Proof.
  intros H. unfold sanitizeFilename.
  apply replace_all_untouched with (q := is_filename_char); [|exact H].
  intros c Hc. rewrite Hc. reflexivity.
Qed.

(** X27. [sanitizeFilename] keeps the length of the name, gives a name
    made of letters, digits, hyphens and underscores only, leaves such a
    name as it is, and so gives the same result when applied twice. *)
Theorem sanitizeFilename_is_a_projection (filename : string) :
  String.length (sanitizeFilename filename) = String.length filename
  /\ all_chars is_filename_char (sanitizeFilename filename) = true
  /\ sanitizeFilename (sanitizeFilename filename) = sanitizeFilename filename
  /\ (sanitizeFilename filename = filename
      <-> all_chars is_filename_char filename = true).
Proof.
  split; [apply replace_all_length|].
  split; [apply sanitizeFilename_chars|].
  split; [apply sanitizeFilename_fixes; apply sanitizeFilename_chars|].
  split.
  - intros H. rewrite <- H. apply sanitizeFilename_chars.
  - apply sanitizeFilename_fixes.
Qed.

(** X28. The name of a captured screenshot, before the extension, is made
    of letters, digits, hyphens and underscores only, whatever the test
    case is called: no path separator and no dot reaches the file name. *)
Theorem capture_name_is_safe (testCase date hh mm ss fff : string) :
  all_chars is_date_char date = true ->
  all_chars is_digit hh = true ->
  all_chars is_digit mm = true ->
  all_chars is_digit ss = true ->
  String.length fff = 3%nat ->
  all_chars is_filename_char
    (capture_name testCase
       (date ++ "T" ++ hh ++ ":" ++ mm ++ ":" ++ ss ++ "." ++ fff ++ "Z")) = true.
Proof.
  intros Hd Hh Hm Hs Hf. unfold capture_name.
  rewrite (@timestamp_of_ISO_text date hh mm ss fff Hd Hh Hm Hs Hf).
  rewrite !all_chars_app, sanitizeFilename_chars.
  rewrite (all_chars_imp is_date_char is_filename_char date
             date_char_is_filename_char Hd).
  rewrite (all_chars_imp is_digit is_filename_char hh digit_is_filename_char Hh).
  rewrite (all_chars_imp is_digit is_filename_char mm digit_is_filename_char Hm).
  rewrite (all_chars_imp is_digit is_filename_char ss digit_is_filename_char Hs).
  reflexivity.
Qed.

Lemma capture_name_is_safe_witness :
  all_chars is_filename_char
    (capture_name "../etc/passwd"
       ("2025-01-31" ++ "T" ++ "09" ++ ":" ++ "05" ++ ":" ++ "59" ++ "." ++ "123" ++ "Z"))
  = true.
Proof.
  apply (@capture_name_is_safe "../etc/passwd" "2025-01-31" "09" "05" "59" "123");
    reflexivity.
Defined.

End FileUtilsFacts.
